(** * Verification of the mydoo developer scripts

    Shallow embedding of [scripts/analyze_timings.py] (log parser with its
    step stack, duration statistics, histogram buckets) and of the path
    classifier of [scripts/smart-clean.py].

    Conventions of the embedding:
    - a Python [str] is a Rocq [string]; every literal of the sources is
      ASCII, and [.] of a regular expression matches any character but the
      line feed, so nothing below depends on wider code points;
    - an exception is a value of [exn] carried by [result]; the handlers
      [except Exception: pass] of the parser are the [Raise] branches of
      the line handlers;
    - a finite [float] is the rational it denotes (type [Q]): durations
      come from [timedelta.total_seconds()], a count of microseconds
      divided by a million.  The subtraction and the division of the
      histogram round as binary64 does (module [Float], compared with the
      binary64 operations of the standard library in
      [float_agrees_with_binary64]); the statistics are the exact sums
      and quotients, and the one float constant of the code, 0.95, is
      compared with its binary64 computation in
      [p95_index_binary64_agrees];
    - [dateutil.parser.isoparse] is an external dependency: the parser is
      defined in a section over an arbitrary [isoparse], and a concrete
      ISO-8601 reader instantiates it for the examples. *)

From Stdlib Require Import Bool Arith ZArith List String Ascii QArith Qround Lia Lra.
From Stdlib Require Import Permutation Sorted SpecFloat Lqa Qpower Qabs.
Import ListNotations.

Close Scope Q_scope.
Local Open Scope string_scope.
Local Open Scope list_scope.

(* ================================================================== *)
(** ** Python primitives shared by both scripts *)

Module Py.

(** Exceptions the modelled code can raise. *)
Inductive exn : Type :=
| TypeError
| IndexError
| ZeroDivisionError
| OverflowError
| ValueError.

(** Outcome of a computation that may raise. *)
Inductive result (A : Type) : Type :=
| Ok (a : A)
| Raise (e : exn).

Arguments Ok {A} a.
Arguments Raise {A} e.

Definition bind {A B : Type} (r : result A) (k : A -> result B) : result B :=
  match r with
  | Ok a => k a
  | Raise e => Raise e
  end.

Notation "x <- r ;; k" := (bind r (fun x => k))
  (at level 61, r at next level, right associativity).

(** [str.isspace] on the code points below 256: the ASCII controls
    9..13 and 28..31, the space, NEL (133) and the no-break space (160). *)
Definition isspace (c : ascii) : bool :=
  let n := nat_of_ascii c in
  (((9 <=? n) && (n <=? 13)) || ((28 <=? n) && (n <=? 32))
   || (n =? 133) || (n =? 160))%nat.

Fixpoint lstrip (s : string) : string :=
  match s with
  | String c s' => if isspace c then lstrip s' else s
  | EmptyString => EmptyString
  end.

Fixpoint rstrip (s : string) : string :=
  match s with
  | String c s' =>
      match rstrip s' with
      | EmptyString => if isspace c then EmptyString else String c EmptyString
      | r => String c r
      end
  | EmptyString => EmptyString
  end.

(** [str.strip()] with no argument. *)
Definition strip (s : string) : string := rstrip (lstrip s).

(** [int(x)] of a number: truncation towards zero. *)
Definition int_of (q : Q) : Z := Z.quot (Qnum q) (Zpos (Qden q)).

(** [l[i]]: a negative index counts from the end, anything outside
    [-len, len) raises [IndexError]. *)
Definition getitem {A : Type} (l : list A) (i : Z) : result A :=
  let n := Z.of_nat (List.length l) in
  let j := if (i <? 0)%Z then (i + n)%Z else i in
  if ((j <? 0) || (n <=? j))%Z%bool then Raise IndexError
  else match nth_error l (Z.to_nat j) with
       | Some a => Ok a
       | None => Raise IndexError
       end.

(** [l[i] = v], same index rule as [getitem]. *)
Fixpoint set_nth {A : Type} (l : list A) (k : nat) (v : A) : list A :=
  match l, k with
  | [], _ => []
  | _ :: tl, O => v :: tl
  | a :: tl, S k' => a :: set_nth tl k' v
  end.

Definition setitem {A : Type} (l : list A) (i : Z) (v : A) : result (list A) :=
  let n := Z.of_nat (List.length l) in
  let j := if (i <? 0)%Z then (i + n)%Z else i in
  if ((j <? 0) || (n <=? j))%Z%bool then Raise IndexError
  else Ok (set_nth l (Z.to_nat j) v).

(** [min(l)] and [max(l)] on a non-empty list given as head and tail: the
    first smallest (largest) element is kept. *)
Definition min_of (x : Q) (l : list Q) : Q :=
  fold_left (fun m y => if Qlt_le_dec y m then y else m) l x.

Definition max_of (x : Q) (l : list Q) : Q :=
  fold_left (fun m y => if Qlt_le_dec m y then y else m) l x.

(** [sum(l)]. *)
Definition sum (l : list Q) : Q := fold_left Qplus l 0%Q.

(** [sorted(l)]: a stable sort, here by insertion. *)
Fixpoint insert_sorted (x : Q) (l : list Q) : list Q :=
  match l with
  | [] => [x]
  | y :: tl => if Qlt_le_dec x y then x :: l else y :: insert_sorted x tl
  end.

Definition sorted (l : list Q) : list Q :=
  fold_right (fun x acc => insert_sorted x acc) [] l.

End Py.

(* ================================================================== *)
(** ** The fragment of Python's [re] used by the scripts *)

Module Re.

(** A pattern is a sequence of items: a literal character, or a capture
    group around "any characters", lazy (dot, star, question mark) or
    greedy (dot, star). *)
Inductive item : Type :=
| Lit (c : ascii)
| LazyGroup
| GreedyGroup.

Definition regex : Type := list item.

Fixpoint lits (s : string) : regex :=
  match s with
  | String c s' => Lit c :: lits s'
  | EmptyString => []
  end.

(** [.] does not match the line feed (no DOTALL flag). *)
Definition is_newline (c : ascii) : bool := Ascii.eqb c "010"%char.

(** Backtracking match of [p] at the start of [s]; the result is the list
    of captured groups, in order.  A lazy group tries the shortest capture
    first, a greedy group the longest. *)
Fixpoint match_here (p : regex) : string -> option (list string) :=
  match p with
  | [] => fun _ => Some []
  | Lit c :: p' =>
      fun s =>
        match s with
        | String c' s' => if Ascii.eqb c c' then match_here p' s' else None
        | EmptyString => None
        end
  | LazyGroup :: p' =>
      fix lazy (s : string) : option (list string) :=
        match match_here p' s with
        | Some gs => Some (EmptyString :: gs)
        | None =>
            match s with
            | String c s' =>
                if is_newline c then None
                else match lazy s' with
                     | Some (g :: gs) => Some (String c g :: gs)
                     | _ => None
                     end
            | EmptyString => None
            end
        end
  | GreedyGroup :: p' =>
      fix greedy (s : string) : option (list string) :=
        let stop :=
          match match_here p' s with
          | Some gs => Some (EmptyString :: gs)
          | None => None
          end in
        match s with
        | String c s' =>
            if is_newline c then stop
            else match greedy s' with
                 | Some (g :: gs) => Some (String c g :: gs)
                 | _ => stop
                 end
        | EmptyString => stop
        end
  end.

(** [pattern.search(s)]: the leftmost position at which the pattern
    matches. *)
Fixpoint search (p : regex) (s : string) : option (list string) :=
  match match_here p s with
  | Some gs => Some gs
  | None =>
      match s with
      | String _ s' => search p s'
      | EmptyString => None
      end
  end.

Definition matches (p : regex) (s : string) : bool :=
  match search p s with Some _ => true | None => false end.

(** [m in s]: the text [m] occurs somewhere in [s]. *)
Definition occurs (m s : string) : bool := matches (lits m) s.

(** Number of capture groups of a pattern. *)
Fixpoint groups (p : regex) : nat :=
  match p with
  | [] => 0
  | Lit _ :: p' => groups p'
  | _ :: p' => S (groups p')
  end.

End Re.

(* ================================================================== *)
(** ** Float arithmetic

    A finite float is the rational it denotes; the other floats are the
    two infinities and NaN.  The result of an arithmetic operation is the
    exact result rounded as IEEE binary64 does, to nearest with ties to
    even: to 53 significant bits in the normal range, to a multiple of
    2^-1074 below it, and to an infinity from 2^1024 on.  The sign of a
    zero is not kept, as no operation of the script observes it (a
    division by a zero of either sign raises). *)

Module Float.
Import Py.

Inductive float : Type :=
| Finite (q : Q)
| Infinite (negative : bool)
| NaN.

(** The integer nearest to [q], the even one when two are as near. *)
Definition round_half_even (q : Q) : Z :=
  let f := Qfloor q in
  match Qcompare (q - inject_Z f) (1 # 2) with
  | Lt => f
  | Gt => (f + 1)%Z
  | Eq => if Z.even f then f else (f + 1)%Z
  end.

(** For [a > 0], the integer [k] with [2^k <= a < 2^(k+1)]. *)
Definition ilog2 (a : Q) : Z :=
  let k := (Z.log2 (Qnum a) - Z.log2 (Zpos (Qden a)))%Z in
  if Qle_bool (2 ^ k) a then k else (k - 1)%Z.

(** The exponent of the last bit kept when [a > 0] is rounded: 52 below
    the leading bit, and never below -1074. *)
Definition ulp_exponent (a : Q) : Z := Z.max (ilog2 a - 52) (-1074).

(** The multiple of [2^e] nearest to [a]. *)
Definition round_to (e : Z) (a : Q) : Q :=
  (inject_Z (round_half_even (a / 2 ^ e)) * 2 ^ e)%Q.

(** A positive number rounded to a multiple of its last bit. *)
Definition round_pos (a : Q) : Q := round_to (ulp_exponent a) a.

(** A rounded magnitude of 2^1024 or more overflows to an infinity. *)
Definition with_sign (negative : bool) (r : Q) : float :=
  if Qle_bool (2 ^ 1024) r then Infinite negative
  else Finite (if negative then - r else r)%Q.

(** The float nearest to a rational. *)
Definition nearest (a : Q) : float :=
  match Qcompare a 0 with
  | Eq => Finite 0
  | Gt => with_sign false (round_pos a)
  | Lt => with_sign true (round_pos (- a))
  end.

(** [a - b] on finite floats. *)
Definition sub (a b : Q) : float := nearest (a - b).

(** [a / b] on floats: raises on a zero divisor. *)
Definition div (a b : float) : result float :=
  match b with
  | Finite q =>
      if Qeq_bool q 0 then Raise ZeroDivisionError
      else match a with
           | Finite p => Ok (nearest (p / q))
           | Infinite s => Ok (Infinite (xorb s (negb (Qle_bool 0 q))))
           | NaN => Ok NaN
           end
  | Infinite _ =>
      match a with
      | Finite _ => Ok (Finite 0)
      | _ => Ok NaN
      end
  | NaN => Ok NaN
  end.

(** The conversion of the integer operand of a mixed operation: an
    integer too large for a float raises. *)
Definition of_int (n : Z) : result float :=
  match nearest (inject_Z n) with
  | Infinite _ => Raise OverflowError
  | x => Ok x
  end.

(** [int(x)]: truncation towards zero; an infinity and NaN raise. *)
Definition to_int (x : float) : result Z :=
  match x with
  | Finite q => Ok (int_of q)
  | Infinite _ => Raise OverflowError
  | NaN => Raise ValueError
  end.

End Float.

(* ================================================================== *)
(** ** scripts/analyze_timings.py *)

Module AnalyzeTimings.
Import Py Re.

(** *** Timestamps *)

(** A [datetime]: the wall-clock reading in microseconds since
    0001-01-01T00:00:00, and the UTC offset in microseconds of an aware
    value ([None] for a naive one). *)
Record datetime : Type := mkDatetime {
  wall_us : Z;
  utcoffset : option Z
}.

(** [a - b] on datetimes, as a [timedelta] in microseconds.  Two naive
    values subtract by their readings, two aware values by their UTC
    instants; mixing a naive and an aware value raises [TypeError]. *)
Definition dt_sub (a b : datetime) : result Z :=
  match utcoffset a, utcoffset b with
  | None, None => Ok (wall_us a - wall_us b)%Z
  | Some oa, Some ob => Ok ((wall_us a - oa) - (wall_us b - ob))%Z
  | _, _ => Raise TypeError
  end.

(** [timedelta.total_seconds()]. *)
Definition total_seconds (td : Z) : Q := Qred (td # 1000000).

(** *** The four line patterns *)

Definition TEST_START_RE : regex :=
  Lit "[" :: LazyGroup :: lits "] --- TEST STARTED: " ++ LazyGroup :: lits " ---".

Definition TEST_END_RE : regex :=
  Lit "[" :: LazyGroup :: lits "] --- TEST ENDED: " ++ LazyGroup :: lits " ("
    ++ LazyGroup :: lits ") ---".

Definition STEP_START_RE : regex :=
  Lit "[" :: LazyGroup :: lits "] Started step: " ++ [GreedyGroup].

Definition STEP_END_RE : regex :=
  Lit "[" :: LazyGroup :: lits "] Finished step: " ++ [GreedyGroup].

(** *** Records built by the parser *)

(** A completed step: the dictionary [full_step]. *)
Record Step : Type := mkStep {
  s_name : string;
  s_duration : Q;
  s_test : string;
  s_start : datetime
}.

(** A test: the dictionary [current_test]; the keys "end", "duration"
    and "status" are absent until the test is finalized. *)
Record Test : Type := mkTest {
  t_name : string;
  t_start : datetime;
  t_steps : list Step;
  t_line : nat;
  t_end : option datetime;
  t_duration : option Q;
  t_status : option string
}.

(** An open step on [step_stack]. *)
Record StackEntry : Type := mkEntry {
  e_name : string;
  e_start : datetime
}.

(** The local variables of [parse_log_file]. *)
Record state : Type := mkState {
  completed_tests : list Test;
  all_steps : list Step;
  current_test : option Test;
  step_stack : list StackEntry
}.

Definition init : state := mkState [] [] None [].

(** What a line is recognised as: the raw captured groups of the first
    pattern that matches. *)
Inductive event : Type :=
| TestStart (ts name : string)
| TestEnd (ts name status : string)
| StepStart (ts name : string)
| StepEnd (ts name : string).

(** The cascade of [search] calls of the loop body: each pattern is tried
    only when the ones before it did not match ([continue]). *)
Definition match_line (line : string) : option event :=
  match search TEST_START_RE line with
  | Some [ts; name] => Some (TestStart ts name)
  | Some _ => None
  | None =>
  match search TEST_END_RE line with
  | Some [ts; name; status] => Some (TestEnd ts name status)
  | Some _ => None
  | None =>
  match search STEP_START_RE line with
  | Some [ts; name] => Some (StepStart ts name)
  | Some _ => None
  | None =>
  match search STEP_END_RE line with
  | Some [ts; name] => Some (StepEnd ts name)
  | _ => None
  end end end end.

(** The backward loop [for i in range(len(step_stack) - 1, -1, -1)]:
    [scan_down name stack i] inspects the indices [i-1], ..., [0] and
    stops at the first entry of that name. *)
Fixpoint scan_down (name : string) (stack : list StackEntry) (i : nat)
  : option nat :=
  match i with
  | O => None
  | S j =>
      match nth_error stack j with
      | Some e =>
          if String.eqb (e_name e) name then Some j
          else scan_down name stack j
      | None => scan_down name stack j
      end
  end.

Definition find_match_idx (name : string) (stack : list StackEntry)
  : option nat :=
  scan_down name stack (List.length stack).

(** [step_stack.pop(i)] for an index in range. *)
Definition pop (stack : list StackEntry) (i : nat)
  : option (StackEntry * list StackEntry) :=
  match nth_error stack i with
  | Some e => Some (e, firstn i stack ++ skipn (S i) stack)
  | None => None
  end.

Section Parser.

(** [dateutil.parser.isoparse]; [None] stands for a raised exception. *)
Variable isoparse : string -> option datetime.

Definition on_test_start (st : state) (line_num : nat) (ts name : string)
  : state :=
  match isoparse ts with
  | Some dt =>
      {| completed_tests := completed_tests st;
         all_steps := all_steps st;
         current_test := Some (mkTest name dt [] line_num None None None);
         step_stack := [] |}
  | None => st
  end.

Definition on_test_end (st : state) (ts name status : string) : state :=
  match isoparse ts with
  | Some dt =>
      match current_test st with
      | Some t =>
          if String.eqb (t_name t) name then
            match dt_sub dt (t_start t) with
            | Ok td =>
                let t' := mkTest (t_name t) (t_start t) (t_steps t) (t_line t)
                            (Some dt) (Some (total_seconds td)) (Some status) in
                {| completed_tests := completed_tests st ++ [t'];
                   all_steps := all_steps st;
                   current_test := None;
                   step_stack := step_stack st |}
            | Raise _ =>
                (* the key "end" was stored before the subtraction raised *)
                let t' := mkTest (t_name t) (t_start t) (t_steps t) (t_line t)
                            (Some dt) (t_duration t) (t_status t) in
                {| completed_tests := completed_tests st;
                   all_steps := all_steps st;
                   current_test := Some t';
                   step_stack := step_stack st |}
            end
          else st
      | None => st
      end
  | None => st
  end.

Definition on_step_start (st : state) (ts name : string) : state :=
  match isoparse ts with
  | Some dt =>
      {| completed_tests := completed_tests st;
         all_steps := all_steps st;
         current_test := current_test st;
         step_stack := step_stack st ++ [mkEntry name dt] |}
  | None => st
  end.

(** [current_test["steps"].append(full_step)]. *)
Definition add_step (full_step : Step) (t : Test) : Test :=
  mkTest (t_name t) (t_start t) (t_steps t ++ [full_step]) (t_line t)
    (t_end t) (t_duration t) (t_status t).

Definition on_step_end (st : state) (ts name : string) : state :=
  match isoparse ts with
  | Some dt =>
      match find_match_idx name (step_stack st) with
      | Some match_idx =>
          match pop (step_stack st) match_idx with
          | Some (step_data, stack') =>
              match dt_sub dt (e_start step_data) with
              | Ok td =>
                  let full_step :=
                    {| s_name := name;
                       s_duration := total_seconds td;
                       s_test := match current_test st with
                                 | Some t => t_name t
                                 | None => "UNKNOWN"
                                 end;
                       s_start := e_start step_data |} in
                  {| completed_tests := completed_tests st;
                     all_steps := all_steps st ++ [full_step];
                     current_test := option_map (add_step full_step)
                                       (current_test st);
                     step_stack := stack' |}
              | Raise _ =>
                  (* the entry was popped before the subtraction raised *)
                  {| completed_tests := completed_tests st;
                     all_steps := all_steps st;
                     current_test := current_test st;
                     step_stack := stack' |}
              end
          | None => st
          end
      | None => st
      end
  | None => st
  end.

Definition handle (st : state) (line_num : nat) (ev : event) : state :=
  match ev with
  | TestStart ts name => on_test_start st line_num ts name
  | TestEnd ts name status => on_test_end st ts name status
  | StepStart ts name => on_step_start st ts name
  | StepEnd ts name => on_step_end st ts name
  end.

(** One iteration of the loop over the lines of the file. *)
Definition process_line (st : state) (line_num : nat) (raw : string) : state :=
  match match_line (strip raw) with
  | Some ev => handle st line_num ev
  | None => st
  end.

(** The loop [for line_num, line in enumerate(f)]. *)
Fixpoint run (st : state) (line_num : nat) (lines : list string) : state :=
  match lines with
  | [] => st
  | raw :: rest => run (process_line st line_num raw) (S line_num) rest
  end.

(** [parse_log_file], on the lines of the opened file. *)
Definition parse_log_file (lines : list string) : list Test * list Step :=
  let st := run init 0 lines in
  (completed_tests st, all_steps st).

End Parser.

(** *** A concrete timestamp reader

    Modelled from the spec: [dateutil.parser.isoparse] is not part of the
    sources; the specification only says that timestamps are read by an
    ISO-8601-capable parser and that a timestamp that fails to parse makes
    the line be skipped.  [isoparse_extended] reads the extended format
    [YYYY-MM-DDTHH:MM:SS], an optional fraction of one to six digits and an
    optional zone ([Z] or a signed [HH:MM]); without a zone the value is
    naive.  It rejects everything else, so it accepts a subset of what the
    library accepts; it only instantiates the parameter [isoparse] on
    concrete logs. *)

Definition digit (c : ascii) : option Z :=
  let n := nat_of_ascii c in
  if ((48 <=? n) && (n <=? 57))%nat then Some (Z.of_nat (n - 48)) else None.

(** Exactly [n] decimal digits at the start of [s], with the remainder. *)
Fixpoint digits (n : nat) (acc : Z) (s : string) : option (Z * string) :=
  match n with
  | O => Some (acc, s)
  | S n' =>
      match s with
      | String c s' =>
          match digit c with
          | Some d => digits n' (10 * acc + d)%Z s'
          | None => None
          end
      | EmptyString => None
      end
  end.

(** The character [c] at the start of [s]. *)
Definition expect (c : ascii) (s : string) : option string :=
  match s with
  | String c' s' => if Ascii.eqb c c' then Some s' else None
  | EmptyString => None
  end.

(** At most [n] digits of a fraction of a second, scaled to microseconds
    ([scale] is the weight of the next digit). *)
Fixpoint fraction (n : nat) (scale acc : Z) (s : string) : Z * string :=
  match n with
  | O => (acc, s)
  | S n' =>
      match s with
      | String c s' =>
          match digit c with
          | Some d => fraction n' (scale / 10) (acc + d * scale)%Z s'
          | None => (acc, s)
          end
      | EmptyString => (acc, s)
      end
  end.

Definition is_leap (y : Z) : bool :=
  ((y mod 4 =? 0) && (negb (y mod 100 =? 0) || (y mod 400 =? 0)))%Z.

Definition days_in_month (y m : Z) : Z :=
  if (m =? 2)%Z then (if is_leap y then 29 else 28)%Z
  else if ((m =? 4) || (m =? 6) || (m =? 9) || (m =? 11))%Z then 30%Z
  else 31%Z.

Definition days_before_year (y : Z) : Z :=
  let p := (y - 1)%Z in (p * 365 + p / 4 - p / 100 + p / 400)%Z.

Fixpoint days_before_month (y : Z) (m : nat) : Z :=
  match m with
  | O => 0%Z
  | S m' => (days_before_month y m' + days_in_month y (Z.of_nat m))%Z
  end.

(** The zone designator: nothing (naive), [Z], or a signed [HH:MM]. *)
Definition zone (s : string) : option (option Z) :=
  match s with
  | EmptyString => Some None
  | String c s' =>
      if Ascii.eqb c "Z" then
        match s' with EmptyString => Some (Some 0%Z) | _ => None end
      else
        let sign := if Ascii.eqb c "+" then Some 1%Z
                    else if Ascii.eqb c "-" then Some (-1)%Z else None in
        match sign with
        | Some sg =>
            match digits 2 0 s' with
            | Some (h, s1) =>
                match expect ":" s1 with
                | Some s2 =>
                    match digits 2 0 s2 with
                    | Some (m, EmptyString) =>
                        if ((h <=? 23) && (m <=? 59))%Z
                        then Some (Some (sg * (h * 3600 + m * 60) * 1000000)%Z)
                        else None
                    | _ => None
                    end
                | None => None
                end
            | None => None
            end
        | None => None
        end
  end.

Definition opt_bind {A B : Type} (o : option A) (k : A -> option B)
  : option B :=
  match o with Some a => k a | None => None end.

Definition isoparse_extended (ts : string) : option datetime :=
  opt_bind (digits 4 0 ts) (fun '(y, s) =>
  opt_bind (expect "-" s) (fun s =>
  opt_bind (digits 2 0 s) (fun '(mo, s) =>
  opt_bind (expect "-" s) (fun s =>
  opt_bind (digits 2 0 s) (fun '(d, s) =>
  opt_bind (expect "T" s) (fun s =>
  opt_bind (digits 2 0 s) (fun '(h, s) =>
  opt_bind (expect ":" s) (fun s =>
  opt_bind (digits 2 0 s) (fun '(mi, s) =>
  opt_bind (expect ":" s) (fun s =>
  opt_bind (digits 2 0 s) (fun '(sec, s) =>
  let '(us, s) :=
    match expect "." s with
    | Some s' =>
        match s' with
        | String c _ =>
            match digit c with
            | Some _ => fraction 6 100000 0 s'
            | None => (0%Z, s)
            end
        | EmptyString => (0%Z, s)
        end
    | None => (0%Z, s)
    end in
  opt_bind (zone s) (fun off =>
  if ((1 <=? y) && (1 <=? mo) && (mo <=? 12) && (1 <=? d)
      && (d <=? days_in_month y mo) && (h <=? 23) && (mi <=? 59)
      && (sec <=? 59))%Z
  then
    let days := (days_before_year y
                 + days_before_month y (Z.to_nat (mo - 1)) + (d - 1))%Z in
    Some (mkDatetime
            (((days * 86400 + h * 3600 + mi * 60 + sec) * 1000000 + us)%Z)
            off)
  else None)))))))))))).

(** *** Statistics *)

(** The dictionary returned by [analyze_durations] on a non-empty list. *)
Record Stats : Type := mkStats {
  count : nat;
  total : Q;
  min : Q;
  max : Q;
  avg : Q;
  median : Q;
  p95 : Q
}.

(** [statistics.mean] and [statistics.median] of a non-empty list. *)
Definition mean (l : list Q) : Q :=
  (sum l / inject_Z (Z.of_nat (List.length l)))%Q.

Definition median_of (l : list Q) : Q :=
  let s := sorted l in
  let n := List.length s in
  if Nat.even n
  then ((nth (n / 2 - 1) s 0 + nth (n / 2) s 0) / 2)%Q
  else nth (n / 2) s 0%Q.

(** The index [int(len(durations) * 0.95)]. *)
Definition p95_index (n : nat) : Z :=
  int_of (inject_Z (Z.of_nat n) * (95 # 100))%Q.

(** The same index in IEEE binary64 arithmetic, as the interpreter
    computes it: [n] converted to a float, multiplied by the double nearest
    to 0.95 with rounding to nearest even, and truncated.  It is used only
    to compare the exact model [p95_index] with the rounded computation. *)
Definition binary64_of_Z (z : Z) : spec_float :=
  binary_normalize 53 1024 z 0 false.

Definition binary64_0_95 : spec_float :=
  S754_finite false 8556839292003942 (-53).

Definition int_of_binary64 (x : spec_float) : option Z :=
  match x with
  | S754_zero _ => Some 0%Z
  | S754_finite s m e =>
      let v := if (0 <=? e)%Z then (Zpos m * 2 ^ e)%Z
               else Z.quot (Zpos m) (2 ^ (- e)) in
      Some (if s then (- v)%Z else v)
  | _ => None
  end.

Definition p95_index_binary64 (n : nat) : option Z :=
  int_of_binary64
    (SFmul 53 1024 (binary64_of_Z (Z.of_nat n)) binary64_0_95).

(** [analyze_durations]; [items] are the dictionaries, [duration] reads
    their key "duration".  The empty dictionary is [None]. *)
Definition analyze_durations {A : Type} (duration : A -> Q) (items : list A)
  : result (option Stats) :=
  match List.map duration items with
  | [] => Ok None
  | d0 :: rest =>
      let durations := d0 :: rest in
      p <- (if (1 <? List.length durations)%nat
            then getitem (sorted durations) (p95_index (List.length durations))
            else getitem durations 0) ;;
      Ok (Some {| count := List.length durations;
                  total := sum durations;
                  min := min_of d0 rest;
                  max := max_of d0 rest;
                  avg := mean durations;
                  median := median_of durations;
                  p95 := p |})
  end.

(** [stats.get(key, 0)], as the report reads the result. *)
Definition get_or_zero (stats : option Stats) (key : Stats -> Q) : Q :=
  match stats with
  | Some r => key r
  | None => 0%Q
  end.

(** *** Histogram buckets *)

(** [min(int((x - min_val) / bin_width), bins - 1)]; the subtraction and
    the division are float operations. *)
Definition bucket_index (min_val : Q) (bin_width : Float.float) (bins : Z)
  (x : Q) : result Z :=
  q <- Float.div (Float.sub x min_val) bin_width ;;
  i <- Float.to_int q ;;
  Ok (Z.min i (bins - 1)).

(** [buckets[idx] += 1]. *)
Definition increment (buckets : list Z) (idx : Z) : result (list Z) :=
  v <- getitem buckets idx ;;
  setitem buckets idx (v + 1)%Z.

(** The loop [for x in data] that fills the buckets. *)
Fixpoint fill_buckets (min_val : Q) (bin_width : Float.float) (bins : Z)
  (buckets : list Z) (data : list Q) : result (list Z) :=
  match data with
  | [] => Ok buckets
  | x :: rest =>
      idx <- bucket_index min_val bin_width bins x ;;
      buckets' <- increment buckets idx ;;
      fill_buckets min_val bin_width bins buckets' rest
  end.

(** The part of [print_histogram] before the printing: [Ok None] is one
    of the two early returns, [Ok (Some buckets)] the filled bucket list.
    [data] holds finite floats, each given by the rational it denotes;
    [[0] * bins] is the empty list when [bins] is negative. *)
Definition histogram_buckets (data : list Q) (bins : Z)
  : result (option (list Z)) :=
  match data with
  | [] => Ok None
  | x0 :: rest =>
      let min_val := min_of x0 rest in
      let max_val := max_of x0 rest in
      if Qeq_bool min_val max_val then Ok None
      else
        divisor <- Float.of_int bins ;;
        bin_width <- Float.div (Float.sub max_val min_val) divisor ;;
        buckets <- fill_buckets min_val bin_width bins
                     (repeat 0%Z (Z.to_nat bins)) data ;;
        Ok (Some buckets)
  end.


(** *** Counting matches, to state facts about the four patterns *)

Definition b2n (b : bool) : nat := if b then 1 else 0.

(** How many of the four patterns match a line. *)
Definition patterns_matching (line : string) : nat :=
  b2n (matches TEST_START_RE line) + b2n (matches TEST_END_RE line)
  + b2n (matches STEP_START_RE line) + b2n (matches STEP_END_RE line).

(** How many of the four marker texts, each with the bracket that closes
    the timestamp, occur in a line. *)
Definition markers_present (line : string) : nat :=
  b2n (occurs "] --- TEST STARTED: " line)
  + b2n (occurs "] --- TEST ENDED: " line)
  + b2n (occurs "] Started step: " line)
  + b2n (occurs "] Finished step: " line).

(** *** Vocabulary of the statements about the parser *)

(** The state [st] in a run that had already emitted the tests [tests]
    and the steps [steps] before it. *)
Definition extend (tests : list Test) (steps : list Step) (st : state)
  : state :=
  {| completed_tests := tests ++ completed_tests st;
     all_steps := steps ++ all_steps st;
     current_test := current_test st;
     step_stack := step_stack st |}.

(** The test name a step is attributed to. *)
Definition owner (cur : option Test) : string :=
  match cur with
  | Some t => t_name t
  | None => "UNKNOWN"
  end.

(** The test [t] as [on_test_end] finalizes it. *)
Definition finalized (t : Test) (dt : datetime) (td : Z) (status : string)
  : Test :=
  mkTest (t_name t) (t_start t) (t_steps t) (t_line t)
    (Some dt) (Some (total_seconds td)) (Some status).

(** The zone-aware instant [k] seconds after 2024-01-01T00:00:00Z, as
    [isoparse_extended] reads it. *)
Definition at_second (k : Z) : datetime :=
  mkDatetime (63839664000000000 + k * 1000000) (Some 0%Z).

(** The example log of the specification. *)
Definition login_log : list string :=
  [ "[2024-01-01T00:00:00Z] --- TEST STARTED: Login ---";
    "[2024-01-01T00:00:01Z] Started step: click";
    "[2024-01-01T00:00:02Z] Finished step: click";
    "[2024-01-01T00:00:03Z] --- TEST ENDED: Login (passed) ---" ].

End AnalyzeTimings.

(* ================================================================== *)
(** ** scripts/smart-clean.py *)

Module SmartClean.
Import Re.

Definition HIGH_CONFIDENCE_PATTERNS : list regex :=
  [ lits "node_modules";
    lits "dist/";
    lits ".turbo/";
    lits "coverage/";
    lits "playwright-report/";
    lits "test-results/";
    lits ".tsbuildinfo";
    lits ".husky/_";
    lits "src/generated" ].

(** [any(pat.search(p) for pat in patterns)]. *)
Definition any_match (patterns : list regex) (p : string) : bool :=
  existsb (fun pat => matches pat p) patterns.

(** One iteration of the loop [for p in paths] of [main]; the pair holds
    the lists [high_confidence] and [other]. *)
Definition classify_path (patterns : list regex)
  (buckets : list string * list string) (p : string)
  : list string * list string :=
  if any_match patterns p
  then (fst buckets ++ [p], snd buckets)
  else (fst buckets, snd buckets ++ [p]).

Definition classify_with (patterns : list regex) (paths : list string)
  : list string * list string :=
  fold_left (classify_path patterns) paths ([], []).

Definition classify : list string -> list string * list string :=
  classify_with HIGH_CONFIDENCE_PATTERNS.


End SmartClean.

(* ================================================================== *)
(** ** Vocabulary for the invariants of the parser *)

Module TimingsAux.
Import Py Re AnalyzeTimings.

(** The timestamp text captured on a line. *)
Definition event_ts (ev : event) : string :=
  match ev with
  | TestStart ts _ => ts
  | TestEnd ts _ _ => ts
  | StepStart ts _ => ts
  | StepEnd ts _ => ts
  end.

(** A text made of whitespace only. *)
Fixpoint all_space (s : string) : bool :=
  match s with
  | String c s' => isspace c && all_space s'
  | EmptyString => true
  end.

(** What the cascade recognises a raw line as. *)
Definition is_test_start (raw : string) : bool :=
  match match_line (strip raw) with Some (TestStart _ _) => true | _ => false end.

Definition is_test_end (raw : string) : bool :=
  match match_line (strip raw) with Some (TestEnd _ _ _) => true | _ => false end.

Definition is_step_start (raw : string) : bool :=
  match match_line (strip raw) with Some (StepStart _ _) => true | _ => false end.

Definition is_step_end (raw : string) : bool :=
  match match_line (strip raw) with Some (StepEnd _ _) => true | _ => false end.

Definition count_lines (kind : string -> bool) (lines : list string) : nat :=
  List.length (filter kind lines).


(** 1 when a test is open. *)
Definition open_tests (st : state) : nat :=
  match current_test st with Some _ => 1 | None => 0 end.

(** The test [t] with the key "end" stored, as [on_test_end] leaves it
    when the subtraction raises. *)
Definition with_end (t : Test) (dt : datetime) : Test :=
  mkTest (t_name t) (t_start t) (t_steps t) (t_line t)
    (Some dt) (t_duration t) (t_status t).

(** The effect of one line on the parser state, whatever the line: the
    seven outcomes of the four handlers. *)
Inductive line_effect (line_num : nat) (st : state) : state -> Prop :=
| effect_none :
    line_effect line_num st st
| effect_test_start (name : string) (dt : datetime) :
    line_effect line_num st
      {| completed_tests := completed_tests st;
         all_steps := all_steps st;
         current_test := Some (mkTest name dt [] line_num None None None);
         step_stack := [] |}
| effect_test_end (t : Test) (dt : datetime) (td : Z) (status : string) :
    current_test st = Some t ->
    dt_sub dt (t_start t) = Ok td ->
    line_effect line_num st
      {| completed_tests := completed_tests st ++ [finalized t dt td status];
         all_steps := all_steps st;
         current_test := None;
         step_stack := step_stack st |}
| effect_test_end_raised (t : Test) (dt : datetime) :
    current_test st = Some t ->
    line_effect line_num st
      {| completed_tests := completed_tests st;
         all_steps := all_steps st;
         current_test := Some (with_end t dt);
         step_stack := step_stack st |}
| effect_step_start (name : string) (dt : datetime) :
    line_effect line_num st
      {| completed_tests := completed_tests st;
         all_steps := all_steps st;
         current_test := current_test st;
         step_stack := step_stack st ++ [mkEntry name dt] |}
| effect_step_end (pre post : list StackEntry) (e : StackEntry)
    (dt : datetime) (td : Z) :
    step_stack st = pre ++ e :: post ->
    dt_sub dt (e_start e) = Ok td ->
    line_effect line_num st
      (let step := mkStep (e_name e) (total_seconds td)
                     (owner (current_test st)) (e_start e) in
       {| completed_tests := completed_tests st;
          all_steps := all_steps st ++ [step];
          current_test := option_map (add_step step) (current_test st);
          step_stack := pre ++ post |})
| effect_step_end_raised (pre post : list StackEntry) (e : StackEntry) :
    step_stack st = pre ++ e :: post ->
    line_effect line_num st
      {| completed_tests := completed_tests st;
         all_steps := all_steps st;
         current_test := current_test st;
         step_stack := pre ++ post |}.

(** A finalized test: the keys "end", "duration" and "status" are set and
    the duration is the seconds between start and end. *)
Definition test_finalized (t : Test) : Prop :=
  exists dt td status,
    t_end t = Some dt /\ dt_sub dt (t_start t) = Ok td
    /\ t_duration t = Some (total_seconds td) /\ t_status t = Some status.

(** The steps of the test [t] are among [steps] and carry its name. *)
Definition owns_steps (steps : list Step) (t : Test) : Prop :=
  forall s, In s (t_steps t) -> In s steps /\ s_test s = t_name t.

(** The duration of a step is the seconds between its start and some
    end timestamp. *)
Definition step_measured (s : Step) : Prop :=
  exists dt td, dt_sub dt (s_start s) = Ok td
                /\ s_duration s = total_seconds td.

(** What every state reached by the parser satisfies. *)
Definition consistent (st : state) : Prop :=
  (forall t, In t (completed_tests st) ->
             test_finalized t /\ owns_steps (all_steps st) t)
  /\ (forall t, current_test st = Some t -> owns_steps (all_steps st) t)
  /\ (forall s, In s (all_steps st) -> step_measured s).

(** *** Where the steps come from *)

Section Provenance.

Variable isoparse : string -> option datetime.

(** The line [raw] is a StepStart of [name] whose timestamp reads [dt]. *)
Definition starts_step (raw name : string) (dt : datetime) : Prop :=
  exists ts, match_line (strip raw) = Some (StepStart ts name)
             /\ isoparse ts = Some dt.

(** The line [raw] is a StepEnd of [name] whose timestamp reads [dt]. *)
Definition ends_step (raw name : string) (dt : datetime) : Prop :=
  exists ts, match_line (strip raw) = Some (StepEnd ts name)
             /\ isoparse ts = Some dt.

(** A stack entry pushed by a line of the log. *)
Definition entry_from_log (lines : list string) (e : StackEntry) : Prop :=
  exists i raw,
    nth_error lines i = Some raw /\ starts_step raw (e_name e) (e_start e).

(** A step measured between a StepStart line of the log and a later
    StepEnd line of the same name. *)
Definition step_from_log (lines : list string) (s : Step) : Prop :=
  exists i j raw_start raw_end dt td,
    i < j
    /\ nth_error lines i = Some raw_start
    /\ nth_error lines j = Some raw_end
    /\ starts_step raw_start (s_name s) (s_start s)
    /\ ends_step raw_end (s_name s) dt
    /\ dt_sub dt (s_start s) = Ok td
    /\ s_duration s = total_seconds td.

(** The open steps and the emitted steps of a state come from the lines
    read so far. *)
Definition traced (lines : list string) (st : state) : Prop :=
  Forall (entry_from_log lines) (step_stack st)
  /\ Forall (step_from_log lines) (all_steps st).

End Provenance.

End TimingsAux.

(* ================================================================== *)
(** ** Vocabulary for the statistics *)

Module StatsAux.

(** The number of values counted by a list of buckets. *)
Definition total_count (buckets : list Z) : Z := fold_right Z.add 0%Z buckets.

(** The float denoted by a binary64 value. *)
Definition binary64_value (x : spec_float) : Float.float :=
  match x with
  | S754_zero _ => Float.Finite 0
  | S754_finite s m e =>
      let v := (inject_Z (Zpos m) * 2 ^ e)%Q in
      Float.Finite (if s then (- v)%Q else v)
  | S754_infinity s => Float.Infinite s
  | S754_nan => Float.NaN
  end.

Definition float_eqb (a b : Float.float) : bool :=
  match a, b with
  | Float.Finite p, Float.Finite q => Qeq_bool p q
  | Float.Infinite s, Float.Infinite t => Bool.eqb s t
  | Float.NaN, Float.NaN => true
  | _, _ => false
  end.

(** The binary64 value nearest to [m * 2^e]. *)
Definition binary64_near (me : Z * Z) : spec_float :=
  binary_normalize 53 1024 (fst me) (snd me) false.

(** The subtraction and the division of [Float] give what the binary64
    operations give on the binary64 values [x] and [y]. *)
Definition agrees_with_binary64 (x y : spec_float) : bool :=
  match binary64_value x, binary64_value y with
  | Float.Finite p, Float.Finite q =>
      float_eqb (binary64_value (SFsub 53 1024 x y)) (Float.sub p q)
      && match Float.div (Float.Finite p) (Float.Finite q) with
         | Py.Ok r => float_eqb (binary64_value (SFdiv 53 1024 x y)) r
         | Py.Raise _ => Qeq_bool q 0
         end
  | _, _ => true
  end.

(** Values over the whole range of binary64: durations in microseconds,
    bucket counts, the smallest and the largest floats. *)
Definition sample_floats : list spec_float :=
  List.map binary64_near
    [(0, 0); (3, 0); (20, 0); (1, -1074); (9007199254740991, -1075);
     (9007199254740993, 0); (9007199254740991, 971); (-3, 0)]%Z
  ++ List.map
       (fun us => SFdiv 53 1024 (binary64_near (us, 0%Z))
                    (binary64_near (1000000, 0)%Z))
       [150000; 1000001]%Z.

End StatsAux.

(* ================================================================== *)
(** ** The rankings of print_distribution (analyze_timings.py) *)

Module TimingsReport.
Import Py AnalyzeTimings.

(** [sorted(items, key=..., reverse=True)]: a stable sort with the
    largest key first; items of equal key keep their order. *)
Fixpoint insert_desc {A : Type} (key : A -> Q) (x : A) (l : list A)
  : list A :=
  match l with
  | [] => [x]
  | y :: tl =>
      if Qlt_le_dec (key x) (key y) then y :: insert_desc key x tl
      else x :: l
  end.

Definition sorted_desc {A : Type} (key : A -> Q) (l : list A) : list A :=
  fold_right (insert_desc key) [] l.

(** [sorted(items, key=lambda x: x[k], reverse=True)[:n]]: the rows of a
    "slowest" table. *)
Definition slowest {A : Type} (key : A -> Q) (n : nat) (items : list A)
  : list A :=
  firstn n (sorted_desc key items).

(** [steps_by_name[name].append(d)] on the dictionary of lists
    [steps_by_name], kept in insertion order of its keys; a list in it is
    never empty and is held as its first element and the others. *)
Fixpoint group_add (name : string) (d : Q)
  (groups : list (string * (Q * list Q))) : list (string * (Q * list Q)) :=
  match groups with
  | [] => [(name, (d, []))]
  | (k, (d0, ds)) :: tl =>
      if String.eqb k name then (k, (d0, ds ++ [d])) :: tl
      else (k, (d0, ds)) :: group_add name d tl
  end.

(** The loop [for s in all_steps] that groups the durations by name. *)
Definition steps_by_name (all_steps : list Step)
  : list (string * (Q * list Q)) :=
  fold_left (fun groups s => group_add (s_name s) (s_duration s) groups)
    all_steps [].

(** An entry of [step_aggregates]. *)
Record StepAggregate : Type := mkAggregate {
  a_name : string;
  a_count : nat;
  a_avg : Q;
  a_median : Q;
  a_max : Q;
  a_total : Q
}.

Definition aggregate (group : string * (Q * list Q)) : StepAggregate :=
  let '(name, (d0, ds)) := group in
  let durs := d0 :: ds in
  {| a_name := name;
     a_count := List.length durs;
     a_avg := mean durs;
     a_median := median_of durs;
     a_max := max_of d0 ds;
     a_total := sum durs |}.

Definition step_aggregates (all_steps : list Step) : list StepAggregate :=
  List.map aggregate (steps_by_name all_steps).

(** The rows of the four tables. *)
Definition sorted_tests {A : Type} (duration : A -> Q)
  (completed_tests : list A) : list A :=
  slowest duration 15 completed_tests.

Definition slow_step_types (all_steps : list Step) : list StepAggregate :=
  slowest a_avg 15
    (filter (fun s => (1 <? a_count s)%nat) (step_aggregates all_steps)).

Definition impact_step_types (all_steps : list Step) : list StepAggregate :=
  slowest a_total 10 (step_aggregates all_steps).

Definition sorted_steps (all_steps : list Step) : list Step :=
  slowest s_duration 30 all_steps.

(** The durations of the steps of one name, in order. *)
Definition durations_of (name : string) (all_steps : list Step) : list Q :=
  List.map s_duration
    (filter (fun s => String.eqb (s_name s) name) all_steps).

(** [steps_by_name[name]], empty for a name that is not a key. *)
Fixpoint lookup (name : string) (groups : list (string * (Q * list Q)))
  : list Q :=
  match groups with
  | [] => []
  | (k, (d0, ds)) :: tl =>
      if String.eqb k name then d0 :: ds else lookup name tl
  end.

End TimingsReport.

(* ================================================================== *)
(** ** Prompt and path list of smart-clean.py *)

Module SmartCleanIO.
Import Py Re SmartClean.

(** [str.lower] on one character, for the code points below 256. *)
Definition lower_char (c : ascii) : ascii :=
  let n := nat_of_ascii c in
  if (((65 <=? n) && (n <=? 90)) || ((192 <=? n) && (n <=? 214))
      || ((216 <=? n) && (n <=? 222)))%nat
  then ascii_of_nat (n + 32)
  else c.

Fixpoint lower (s : string) : string :=
  match s with
  | String c s' => String (lower_char c) (lower s')
  | EmptyString => EmptyString
  end.

(** [ask]: [answer] is the line returned by [input], or [None] when
    [input] raises EOFError. *)
Definition ask (answer : option string) : bool :=
  match answer with
  | Some a =>
      let response := lower (strip a) in
      String.eqb response "y" || String.eqb response "yes"
  | None => false
  end.

(** The answers that read as "y" or "yes" once in lower case. *)
Definition yes_answers : list string :=
  [ "y"; "Y"; "yes"; "yeS"; "yEs"; "yES"; "Yes"; "YeS"; "YEs"; "YES" ].

(** [s.startswith(p)]. *)
Fixpoint startswith (p s : string) : bool :=
  match p, s with
  | EmptyString, _ => true
  | String a p', String b s' => Ascii.eqb a b && startswith p' s'
  | String _ _, EmptyString => false
  end.

(** [s.replace(old, "")] for a non-empty [old]: occurrences are removed
    from left to right without overlap; [skip] counts the characters of
    the occurrence being removed that are still to drop. *)
Fixpoint remove_from (old : string) (skip : nat) (s : string) : string :=
  match s with
  | EmptyString => EmptyString
  | String c s' =>
      match skip with
      | S k => remove_from old k s'
      | O =>
          if startswith old s
          then remove_from old (String.length old - 1) s'
          else String c (remove_from old 0 s')
      end
  end.

Definition remove_all (old s : string) : string := remove_from old 0 s.

(** [s.split("\n")]. *)
Fixpoint split_lines (s : string) : list string :=
  match s with
  | EmptyString => [EmptyString]
  | String c s' =>
      if Ascii.eqb c "010"%char then EmptyString :: split_lines s'
      else match split_lines s' with
           | line :: rest => String c line :: rest
           | [] => [String c EmptyString]
           end
  end.

Definition nonempty (s : string) : bool :=
  match s with EmptyString => false | String _ _ => true end.

(** The path list of [main], from the standard output of the dry run;
    [None] is the early return "Repository is already clean". *)
Definition parse_paths (stdout : string) : option (list string) :=
  let raw_output := strip stdout in
  if nonempty raw_output then
    Some (filter nonempty
            (List.map (fun line => strip (remove_all "Would remove " line))
               (split_lines raw_output)))
  else None.

(** The texts of the nine patterns. *)
Definition high_confidence_texts : list string :=
  [ "node_modules"; "dist/"; ".turbo/"; "coverage/"; "playwright-report/";
    "test-results/"; ".tsbuildinfo"; ".husky/_"; "src/generated" ].

(** What the dry run prints for a list of paths: one line per path. *)
Fixpoint dry_run_output (paths : list string) : string :=
  match paths with
  | [] => EmptyString
  | p :: rest =>
      ("Would remove " ++ p ++ String "010"%char (dry_run_output rest))%string
  end.

(** The same lines without the final line feed. *)
Fixpoint joined_lines (p : string) (rest : list string) : string :=
  match rest with
  | [] => ("Would remove " ++ p)%string
  | q :: rest' =>
      ("Would remove " ++ p ++ String "010"%char (joined_lines q rest'))%string
  end.

Fixpoint no_newline (s : string) : bool :=
  match s with
  | String c s' => negb (Ascii.eqb c "010"%char) && no_newline s'
  | EmptyString => true
  end.

(** A path that the dry-run format carries unchanged: not empty, no
    whitespace at either end, on one line, and not containing the phrase
    that introduces a line. *)
Definition plain_path (p : string) : Prop :=
  p <> EmptyString /\ strip p = p /\ no_newline p = true
  /\ occurs "Would remove " p = false.

End SmartCleanIO.

(* ================================================================== *)
(** ** Facts about the regular-expression fragment *)

Module ReFacts.
Import Re.

Lemma match_here_lazy_eq (p : regex) (s : string) :
  match_here (LazyGroup :: p) s =
  match match_here p s with
  | Some gs => Some (EmptyString :: gs)
  | None =>
      match s with
      | String c s' =>
          if is_newline c then None
          else match match_here (LazyGroup :: p) s' with
               | Some (g :: gs) => Some (String c g :: gs)
               | _ => None
               end
      | EmptyString => None
      end
  end.
Proof. destruct s; reflexivity. Qed.

Lemma match_here_greedy_eq (p : regex) (s : string) :
  match_here (GreedyGroup :: p) s =
  let stop := match match_here p s with
              | Some gs => Some (EmptyString :: gs)
              | None => None
              end in
  match s with
  | String c s' =>
      if is_newline c then stop
      else match match_here (GreedyGroup :: p) s' with
           | Some (g :: gs) => Some (String c g :: gs)
           | _ => stop
           end
  | EmptyString => stop
  end.
Proof. destruct s; reflexivity. Qed.

(** A literal prefix of the pattern is a prefix of the matched text. *)
Lemma match_here_lits_inv (m : string) (p : regex) :
  forall s gs,
    match_here (lits m ++ p) s = Some gs ->
    exists t, s = (m ++ t)%string /\ match_here p t = Some gs.
Proof.
  induction m as [|c m IH]; intros s gs H.
  - exists s. split; [reflexivity | exact H].
  - cbn [lits app] in H. cbn [match_here] in H.
    destruct s as [|c' s']; [discriminate|].
    destruct (Ascii.eqb c c') eqn:E; [|discriminate].
    apply Ascii.eqb_eq in E. subst c'.
    destruct (IH _ _ H) as [t [-> Ht]].
    exists t. split; [reflexivity | exact Ht].
Qed.

Lemma match_here_lits_intro (m : string) (p : regex) (t : string) :
  match_here (lits m ++ p) (m ++ t)%string = match_here p t.
Proof.
  induction m as [|c m IH]; [reflexivity|].
  cbn [lits app String.append match_here].
  rewrite Ascii.eqb_refl. exact IH.
Qed.

(** A lazy group captures a prefix and the rest of the pattern matches
    what follows it. *)
Lemma match_here_lazy_inv (p : regex) :
  forall s gs,
    match_here (LazyGroup :: p) s = Some gs ->
    exists g t gs',
      s = (g ++ t)%string /\ match_here p t = Some gs' /\ gs = g :: gs'.
Proof.
  induction s as [|c s IH]; intros gs H; rewrite match_here_lazy_eq in H.
  - destruct (match_here p "") as [gs'|] eqn:E; [|discriminate].
    injection H as <-. exists ""%string, ""%string, gs'. auto.
  - destruct (match_here p (String c s)) as [gs'|] eqn:E.
    + injection H as <-. exists ""%string, (String c s), gs'. auto.
    + destruct (is_newline c); [discriminate|].
      destruct (match_here (LazyGroup :: p) s) as [[|g gs1]|] eqn:E1;
        try discriminate.
      injection H as <-.
      destruct (IH _ eq_refl) as [g' [t [gs' [-> [Ht Hg]]]]].
      injection Hg as -> ->.
      exists (String c g'), t, gs'. auto.
Qed.

Lemma search_inv (p : regex) :
  forall s gs,
    search p s = Some gs ->
    exists a t, s = (a ++ t)%string /\ match_here p t = Some gs.
Proof.
  induction s as [|c s IH]; intros gs H; cbn [search] in H.
  - destruct (match_here p "") eqn:E; [|discriminate].
    injection H as <-. exists ""%string, ""%string. auto.
  - destruct (match_here p (String c s)) eqn:E.
    + injection H as <-. exists ""%string, (String c s). auto.
    + destruct (IH _ H) as [a [t [-> Ht]]].
      exists (String c a), t. auto.
Qed.

Lemma search_intro (p : regex) (a t : string) (gs : list string) :
  match_here p t = Some gs -> matches p (a ++ t)%string = true.
Proof.
  intros H. unfold matches.
  induction a as [|c a IH]; cbn [String.append].
  - destruct t; cbn [search]; rewrite H; reflexivity.
  - cbn [search]. destruct (match_here p (String c (a ++ t))); [reflexivity|].
    exact IH.
Qed.

Lemma append_assoc (a b c : string) :
  ((a ++ b) ++ c = a ++ (b ++ c))%string.
Proof. induction a as [|x a IH]; cbn; [reflexivity | now rewrite IH]. Qed.

(** [occurs] is the substring test. *)
Lemma occurs_iff (m s : string) :
  occurs m s = true <-> exists a t, s = (a ++ m ++ t)%string.
Proof.
  unfold occurs. split.
  - unfold matches. destruct (search (lits m) s) as [gs|] eqn:E; [|discriminate].
    intros _. apply search_inv in E. destruct E as [a [t [-> Ht]]].
    rewrite <- (app_nil_r (lits m)) in Ht.
    apply match_here_lits_inv in Ht. destruct Ht as [t' [-> _]].
    now exists a, t'.
  - intros [a [t ->]]. apply search_intro with (gs := []).
    rewrite <- (app_nil_r (lits m)). now rewrite match_here_lits_intro.
Qed.

(** A pattern made of a literal, a lazy group and a literal text [m] only
    matches lines in which [m] occurs. *)
Lemma marker_occurs (c : ascii) (m : string) (rest : regex) (s : string) :
  matches (Lit c :: LazyGroup :: lits m ++ rest) s = true ->
  occurs m s = true.
Proof.
  unfold matches.
  destruct (search _ s) as [gs|] eqn:E; [intros _|discriminate].
  apply search_inv in E. destruct E as [a [t [-> Ht]]].
  cbn [match_here] in Ht. fold match_here in Ht.
  destruct t as [|c' t]; [discriminate|].
  destruct (Ascii.eqb c c'); [|discriminate].
  change (match_here (LazyGroup :: lits m ++ rest) t = Some gs) in Ht.
  apply match_here_lazy_inv in Ht.
  destruct Ht as [g [t' [gs' [-> [Ht' _]]]]].
  apply match_here_lits_inv in Ht'. destruct Ht' as [u [-> _]].
  apply occurs_iff. exists (a ++ String c' g)%string, u.
  rewrite append_assoc. reflexivity.
Qed.

(** Every successful match returns one string per capture group. *)
Lemma match_here_groups (p : regex) :
  forall s gs, match_here p s = Some gs -> List.length gs = groups p.
Proof.
  induction p as [|[c| |] p IH]; intros s gs H.
  - injection H as <-. reflexivity.
  - cbn [match_here] in H. destruct s as [|c' s]; [discriminate|].
    destruct (Ascii.eqb c c'); [|discriminate]. cbn [groups]. eauto.
  - revert gs H. induction s as [|c s IHs]; intros gs H;
      rewrite match_here_lazy_eq in H.
    + destruct (match_here p "") eqn:E; [|discriminate].
      injection H as <-. cbn. f_equal. eauto.
    + destruct (match_here p (String c s)) eqn:E.
      * injection H as <-. cbn. f_equal. eauto.
      * destruct (is_newline c); [discriminate|].
        destruct (match_here (LazyGroup :: p) s) as [[|g gs1]|];
          try discriminate.
        injection H as <-. specialize (IHs _ eq_refl). exact IHs.
  - revert gs H. induction s as [|c s IHs]; intros gs H;
      rewrite match_here_greedy_eq in H; cbv zeta in H.
    + destruct (match_here p "") eqn:E; [|discriminate].
      injection H as <-. cbn. f_equal. eauto.
    + assert (Hstop : forall gs,
                 match match_here p (String c s) with
                 | Some gs0 => Some (""%string :: gs0)
                 | None => None
                 end = Some gs -> List.length gs = groups (GreedyGroup :: p)).
      { intros gs0 H0. destruct (match_here p (String c s)) eqn:E;
          [|discriminate]. injection H0 as <-. cbn. f_equal. eauto. }
      destruct (is_newline c); [now apply Hstop|].
      destruct (match_here (GreedyGroup :: p) s) as [[|g gs1]|];
        try (now apply Hstop).
      injection H as <-. specialize (IHs _ eq_refl). exact IHs.
Qed.

Lemma search_groups (p : regex) :
  forall s gs, search p s = Some gs -> List.length gs = groups p.
Proof.
  intros s gs H. apply search_inv in H. destruct H as [a [t [_ Ht]]].
  eapply match_here_groups; eassumption.
Qed.

End ReFacts.

(* ================================================================== *)
(** ** The path classifier of smart-clean.py *)

Module SmartCleanSpec.
Import Re SmartClean.

Section Buckets.

Variable patterns : list regex.

Let hit (p : string) : bool := any_match patterns p.
Let miss (p : string) : bool := negb (any_match patterns p).

(** The loop appends every path to one of the two lists, in order. *)
Lemma classify_from (paths : list string) :
  forall high other,
    fold_left (classify_path patterns) paths (high, other) =
    (high ++ filter hit paths, other ++ filter miss paths).
Proof.
  induction paths as [|p paths IH]; intros high other; cbn [fold_left filter].
  - now rewrite !app_nil_r.
  - unfold classify_path at 2. unfold hit, miss. cbn [fst snd].
    destruct (any_match patterns p); cbn [negb]; rewrite IH;
      unfold hit, miss; now rewrite <- app_assoc.
Qed.

Lemma classify_with_filter (paths : list string) :
  classify_with patterns paths = (filter hit paths, filter miss paths).
Proof. unfold classify_with. now rewrite classify_from. Qed.


End Buckets.


End SmartCleanSpec.

(* ================================================================== *)
(** ** The log parser of analyze_timings.py *)

Module TimingsSpec.
Import Py Re ReFacts AnalyzeTimings TimingsAux.

(** *** The four patterns *)

Lemma test_start_marker (line : string) :
  matches TEST_START_RE line = true ->
  occurs "] --- TEST STARTED: " line = true.
Proof.
  exact (marker_occurs "[" "] --- TEST STARTED: "
           (LazyGroup :: lits " ---") line).
Qed.

Lemma test_end_marker (line : string) :
  matches TEST_END_RE line = true ->
  occurs "] --- TEST ENDED: " line = true.
Proof.
  exact (marker_occurs "[" "] --- TEST ENDED: "
           (LazyGroup :: lits " (" ++ LazyGroup :: lits ") ---") line).
Qed.

Lemma step_start_marker (line : string) :
  matches STEP_START_RE line = true ->
  occurs "] Started step: " line = true.
Proof.
  exact (marker_occurs "[" "] Started step: " [GreedyGroup] line).
Qed.

Lemma step_end_marker (line : string) :
  matches STEP_END_RE line = true ->
  occurs "] Finished step: " line = true.
Proof.
  exact (marker_occurs "[" "] Finished step: " [GreedyGroup] line).
Qed.

Lemma b2n_le (a b : bool) : (a = true -> b = true) -> b2n a <= b2n b.
Proof.
  destruct a, b; cbn; intros H; auto.
  discriminate (H eq_refl).
Qed.

Lemma search_two_groups (p : regex) (line : string) (gs : list string) :
  groups p = 2 -> search p line = Some gs ->
  exists a b, gs = [a; b].
Proof.
  intros Hg H. apply search_groups in H. rewrite Hg in H.
  destruct gs as [|a [|b [|c gs]]]; try discriminate. eauto.
Qed.

Lemma search_three_groups (p : regex) (line : string) (gs : list string) :
  groups p = 3 -> search p line = Some gs ->
  exists a b c, gs = [a; b; c].
Proof.
  intros Hg H. apply search_groups in H. rewrite Hg in H.
  destruct gs as [|a [|b [|c [|d gs]]]]; try discriminate. eauto.
Qed.

(** The cascade picks the first pattern that matches, in the order
    TestStart, TestEnd, StepStart, StepEnd. *)
Lemma match_line_priority (line : string) :
  (matches TEST_START_RE line = true ->
   exists ts name, match_line line = Some (TestStart ts name))
  /\ (matches TEST_START_RE line = false ->
      matches TEST_END_RE line = true ->
      exists ts name status, match_line line = Some (TestEnd ts name status))
  /\ (matches TEST_START_RE line = false ->
      matches TEST_END_RE line = false ->
      matches STEP_START_RE line = true ->
      exists ts name, match_line line = Some (StepStart ts name))
  /\ (matches TEST_START_RE line = false ->
      matches TEST_END_RE line = false ->
      matches STEP_START_RE line = false ->
      matches STEP_END_RE line = true ->
      exists ts name, match_line line = Some (StepEnd ts name))
  /\ (patterns_matching line = 0 -> match_line line = None).
Proof.
  unfold patterns_matching, match_line, matches.
  destruct (search TEST_START_RE line) as [g1|] eqn:E1.
  { destruct (search_two_groups TEST_START_RE line _ eq_refl E1) as [a [b ->]].
    repeat split; try discriminate; eauto. }
  destruct (search TEST_END_RE line) as [g2|] eqn:E2.
  { destruct (search_three_groups TEST_END_RE line _ eq_refl E2) as [a [b [c ->]]].
    repeat split; try discriminate; eauto. }
  destruct (search STEP_START_RE line) as [g3|] eqn:E3.
  { destruct (search_two_groups STEP_START_RE line _ eq_refl E3) as [a [b ->]].
    repeat split; try discriminate; eauto. }
  destruct (search STEP_END_RE line) as [g4|] eqn:E4.
  { destruct (search_two_groups STEP_END_RE line _ eq_refl E4) as [a [b ->]].
    repeat split; try discriminate; eauto. }
  repeat split; try discriminate; eauto.
Qed.

(** The cascade hands over the groups captured by the first pattern
    that matches. *)
Lemma match_line_first_match (line : string) :
  (matches TEST_START_RE line = true ->
   exists ts name,
     search TEST_START_RE line = Some [ts; name]
     /\ match_line line = Some (TestStart ts name))
  /\ (matches TEST_START_RE line = false ->
      matches TEST_END_RE line = true ->
      exists ts name status,
        search TEST_END_RE line = Some [ts; name; status]
        /\ match_line line = Some (TestEnd ts name status))
  /\ (matches TEST_START_RE line = false ->
      matches TEST_END_RE line = false ->
      matches STEP_START_RE line = true ->
      exists ts name,
        search STEP_START_RE line = Some [ts; name]
        /\ match_line line = Some (StepStart ts name))
  /\ (matches TEST_START_RE line = false ->
      matches TEST_END_RE line = false ->
      matches STEP_START_RE line = false ->
      matches STEP_END_RE line = true ->
      exists ts name,
        search STEP_END_RE line = Some [ts; name]
        /\ match_line line = Some (StepEnd ts name))
  /\ (matches TEST_START_RE line = false ->
      matches TEST_END_RE line = false ->
      matches STEP_START_RE line = false ->
      matches STEP_END_RE line = false ->
      match_line line = None).
Proof.
  unfold match_line, matches.
  destruct (search TEST_START_RE line) as [g1|] eqn:E1.
  { destruct (search_two_groups TEST_START_RE line _ eq_refl E1)
      as [a [b ->]].
    repeat split; try discriminate; eauto. }
  destruct (search TEST_END_RE line) as [g2|] eqn:E2.
  { destruct (search_three_groups TEST_END_RE line _ eq_refl E2)
      as [a [b [c ->]]].
    repeat split; try discriminate; eauto. }
  destruct (search STEP_START_RE line) as [g3|] eqn:E3.
  { destruct (search_two_groups STEP_START_RE line _ eq_refl E3)
      as [a [b ->]].
    repeat split; try discriminate; eauto. }
  destruct (search STEP_END_RE line) as [g4|] eqn:E4.
  { destruct (search_two_groups STEP_END_RE line _ eq_refl E4)
      as [a [b ->]].
    repeat split; try discriminate; eauto. }
  repeat split; try discriminate; eauto.
Qed.

(** C4, as the code has it.  The patterns are searched anywhere in the
    line, so they are exclusive only where the marker texts are: on every
    line in which at most one of the four marker texts occurs, at most one
    of the four patterns matches.  And on every line, whatever it
    contains, the parser acts on the first pattern that matches, in the
    order TestStart, TestEnd, StepStart, StepEnd, with the groups that
    pattern captured; a line that no pattern matches is not handled. *)
Theorem patterns_exclusive_on_single_marker :
  forall line : string,
    (markers_present line <= 1 -> patterns_matching line <= 1)
    /\ (matches TEST_START_RE line = true ->
        exists ts name,
          search TEST_START_RE line = Some [ts; name]
          /\ match_line line = Some (TestStart ts name))
    /\ (matches TEST_START_RE line = false ->
        matches TEST_END_RE line = true ->
        exists ts name status,
          search TEST_END_RE line = Some [ts; name; status]
          /\ match_line line = Some (TestEnd ts name status))
    /\ (matches TEST_START_RE line = false ->
        matches TEST_END_RE line = false ->
        matches STEP_START_RE line = true ->
        exists ts name,
          search STEP_START_RE line = Some [ts; name]
          /\ match_line line = Some (StepStart ts name))
    /\ (matches TEST_START_RE line = false ->
        matches TEST_END_RE line = false ->
        matches STEP_START_RE line = false ->
        matches STEP_END_RE line = true ->
        exists ts name,
          search STEP_END_RE line = Some [ts; name]
          /\ match_line line = Some (StepEnd ts name))
    /\ (matches TEST_START_RE line = false ->
        matches TEST_END_RE line = false ->
        matches STEP_START_RE line = false ->
        matches STEP_END_RE line = false ->
        match_line line = None).
Proof.
  intros line. split; [|apply match_line_first_match].
  intros Hm. unfold markers_present in Hm. unfold patterns_matching.
  pose proof (b2n_le _ _ (test_start_marker line)).
  pose proof (b2n_le _ _ (test_end_marker line)).
  pose proof (b2n_le _ _ (step_start_marker line)).
  pose proof (b2n_le _ _ (step_end_marker line)).
  lia.
Qed.

(** On the line of a step whose name quotes another marker, two patterns
    match: the patterns are not exclusive over arbitrary text. *)
Lemma patterns_overlap :
  let line := "[2024-01-01T00:00:01Z] Started step: retry [2] Finished step: upload" in
  matches STEP_START_RE line = true
  /\ matches STEP_END_RE line = true
  /\ patterns_matching line = 2
  /\ match_line line
     = Some (StepStart "2024-01-01T00:00:01Z" "retry [2] Finished step: upload").
Proof. vm_compute. repeat split. Qed.

Lemma patterns_exclusive_witness :
  let line := "[2024-01-01T00:00:00Z] --- TEST STARTED: [chromium] Login ---" in
  markers_present line <= 1
  /\ patterns_matching line <= 1
  /\ match_line line
     = Some (TestStart "2024-01-01T00:00:00Z" "[chromium] Login").
Proof.
  intros line.
  assert (Hm : markers_present line <= 1) by (vm_compute; lia).
  split; [exact Hm|].
  destruct (patterns_exclusive_on_single_marker line) as [H _].
  split; [exact (H Hm)|]. vm_compute. reflexivity.
Defined.

(** *** The step stack *)

Lemma scan_down_none (name : string) (stack : list StackEntry) :
  Forall (fun x => e_name x <> name) stack ->
  forall i, scan_down name stack i = None.
Proof.
  intros Hall. induction i as [|i IH]; [reflexivity|].
  cbn [scan_down]. destruct (nth_error stack i) as [e|] eqn:E; [|exact IH].
  apply nth_error_In in E. rewrite Forall_forall in Hall.
  apply Hall in E. apply String.eqb_neq in E. now rewrite E.
Qed.

Lemma nth_error_middle (pre post : list StackEntry) (e : StackEntry) :
  nth_error (pre ++ e :: post) (List.length pre) = Some e.
Proof. induction pre as [|a pre IH]; [reflexivity | exact IH]. Qed.

Lemma nth_error_after (pre post : list StackEntry) (e : StackEntry) (j : nat) :
  nth_error (pre ++ e :: post) (S (List.length pre + j)) = nth_error post j.
Proof. induction pre as [|a pre IH]; [reflexivity | exact IH]. Qed.

(** The backward scan stops at the last entry of the wanted name. *)
Lemma scan_down_found (name : string) (pre post : list StackEntry)
  (e : StackEntry) :
  e_name e = name ->
  Forall (fun x => e_name x <> name) post ->
  forall j, j <= List.length post ->
    scan_down name (pre ++ e :: post) (S (List.length pre + j))
    = Some (List.length pre).
Proof.
  intros He Hpost. induction j as [|j IH]; intros Hj; cbn [scan_down].
  - rewrite Nat.add_0_r, nth_error_middle.
    apply String.eqb_eq in He. now rewrite He.
  - rewrite Nat.add_succ_r, nth_error_after.
    destruct (nth_error post j) as [e'|] eqn:E.
    + apply nth_error_In in E. rewrite Forall_forall in Hpost.
      apply Hpost in E. apply String.eqb_neq in E. rewrite E.
      apply IH. lia.
    + apply IH. lia.
Qed.

Lemma find_match_idx_found (name : string) (pre post : list StackEntry)
  (e : StackEntry) :
  e_name e = name ->
  Forall (fun x => e_name x <> name) post ->
  find_match_idx name (pre ++ e :: post) = Some (List.length pre).
Proof.
  intros He Hpost. unfold find_match_idx.
  rewrite length_app. cbn [List.length]. rewrite Nat.add_succ_r.
  now apply scan_down_found.
Qed.

Lemma find_match_idx_none (name : string) (stack : list StackEntry) :
  Forall (fun x => e_name x <> name) stack ->
  find_match_idx name stack = None.
Proof. intros H. now apply scan_down_none. Qed.

Lemma pop_middle (pre post : list StackEntry) (e : StackEntry) :
  pop (pre ++ e :: post) (List.length pre) = Some (e, pre ++ post).
Proof.
  unfold pop. rewrite nth_error_middle. do 2 f_equal.
  induction pre as [|a pre IH]; [reflexivity|].
  cbn [List.length firstn skipn app] in *. now rewrite IH.
Qed.

(** Either no entry has the name, or the stack splits around the last
    entry that has it. *)
Lemma stack_cases (name : string) (stack : list StackEntry) :
  Forall (fun x => e_name x <> name) stack
  \/ exists pre e post,
       stack = pre ++ e :: post /\ e_name e = name
       /\ Forall (fun x => e_name x <> name) post.
Proof.
  induction stack as [|a stack IH]; [left; constructor|].
  destruct IH as [Hnone | [pre [e [post [-> [He Hpost]]]]]].
  - destruct (String.eqb (e_name a) name) eqn:E.
    + apply String.eqb_eq in E. right. exists [], a, stack. auto.
    + apply String.eqb_neq in E. left. now constructor.
  - right. exists (a :: pre), e, post. auto.
Qed.

(** *** The line handlers *)

Section ParserFacts.

Variable isoparse : string -> option datetime.

Lemma process_line_event (st : state) (n : nat) (raw : string) (ev : event) :
  match_line (strip raw) = Some ev ->
  process_line isoparse st n raw = handle isoparse st n ev.
Proof. intros H. unfold process_line. now rewrite H. Qed.

(** A StepEnd whose name is on the stack, with a timestamp that can be
    subtracted from the start of the matched entry. *)
Lemma on_step_end_found (st : state) (ts name : string) (dt : datetime)
  (pre post : list StackEntry) (e : StackEntry) (td : Z) :
  isoparse ts = Some dt ->
  step_stack st = pre ++ e :: post ->
  e_name e = name ->
  Forall (fun x => e_name x <> name) post ->
  dt_sub dt (e_start e) = Ok td ->
  on_step_end isoparse st ts name =
  let step := mkStep name (total_seconds td) (owner (current_test st))
                (e_start e) in
  {| completed_tests := completed_tests st;
     all_steps := all_steps st ++ [step];
     current_test := option_map (add_step step) (current_test st);
     step_stack := pre ++ post |}.
Proof.
  intros Hts Hst He Hpost Hsub. unfold on_step_end.
  rewrite Hts, Hst, (find_match_idx_found name pre post e He Hpost).
  rewrite pop_middle, Hsub. reflexivity.
Qed.

(** The same line when the subtraction raises: the entry is gone from the
    stack and nothing is emitted. *)
Lemma on_step_end_raises (st : state) (ts name : string) (dt : datetime)
  (pre post : list StackEntry) (e : StackEntry) (x : exn) :
  isoparse ts = Some dt ->
  step_stack st = pre ++ e :: post ->
  e_name e = name ->
  Forall (fun x => e_name x <> name) post ->
  dt_sub dt (e_start e) = Raise x ->
  on_step_end isoparse st ts name =
  {| completed_tests := completed_tests st;
     all_steps := all_steps st;
     current_test := current_test st;
     step_stack := pre ++ post |}.
Proof.
  intros Hts Hst He Hpost Hsub. unfold on_step_end.
  rewrite Hts, Hst, (find_match_idx_found name pre post e He Hpost).
  rewrite pop_middle, Hsub. reflexivity.
Qed.

Lemma on_step_end_absent (st : state) (ts name : string) :
  Forall (fun x => e_name x <> name) (step_stack st) ->
  on_step_end isoparse st ts name = st.
Proof.
  intros Hnone. unfold on_step_end.
  rewrite (find_match_idx_none name _ Hnone).
  now destruct (isoparse ts).
Qed.

(** C2, as the code has it.  For every parser state and every StepEnd
    line with a well-formed timestamp: the stack either has no entry of
    that name, and then the state is unchanged and no step is produced;
    or it splits around the entry of that name nearest to the top, and
    then, when the end timestamp can be subtracted from that entry's start
    (both naive or both zone-aware), exactly that entry is removed, the
    others keep their order, and one step is appended to the global list
    and to the open test, with duration end minus start and the open
    test's name, or "UNKNOWN", as its test. *)
Theorem step_end_matches_nearest :
  forall (st : state) (n : nat) (raw ts name : string) (dt : datetime),
    match_line (strip raw) = Some (StepEnd ts name) ->
    isoparse ts = Some dt ->
    (Forall (fun x => e_name x <> name) (step_stack st)
     \/ exists pre e post,
          step_stack st = pre ++ e :: post /\ e_name e = name
          /\ Forall (fun x => e_name x <> name) post)
    /\ (Forall (fun x => e_name x <> name) (step_stack st) ->
        process_line isoparse st n raw = st)
    /\ (forall pre e post td,
          step_stack st = pre ++ e :: post ->
          e_name e = name ->
          Forall (fun x => e_name x <> name) post ->
          dt_sub dt (e_start e) = Ok td ->
          process_line isoparse st n raw =
          let step := mkStep name (total_seconds td)
                        (owner (current_test st)) (e_start e) in
          {| completed_tests := completed_tests st;
             all_steps := all_steps st ++ [step];
             current_test := option_map (add_step step) (current_test st);
             step_stack := pre ++ post |}).
Proof.
  intros st n raw ts name dt Hline Hts.
  rewrite (process_line_event st n raw _ Hline). cbn [handle].
  split; [apply stack_cases|]. split.
  - apply on_step_end_absent.
  - intros pre e post td Hst He Hpost Hsub.
    now apply on_step_end_found with (dt := dt).
Qed.

(** *** TestStart *)

Lemma handle_extend (tests : list Test) (steps : list Step) (st : state)
  (n : nat) (ev : event) :
  handle isoparse (extend tests steps st) n ev
  = extend tests steps (handle isoparse st n ev).
Proof.
  destruct ev as [ts name | ts name status | ts name | ts name];
    cbn [handle].
  - unfold on_test_start. destruct (isoparse ts); reflexivity.
  - unfold on_test_end. destruct (isoparse ts) as [dt|]; [|reflexivity].
    cbn [extend current_test]. destruct (current_test st) as [t|];
      [|reflexivity].
    destruct (String.eqb (t_name t) name); [|reflexivity].
    destruct (dt_sub dt (t_start t)); unfold extend; cbn;
      now rewrite <- ?app_assoc.
  - unfold on_step_start. destruct (isoparse ts); reflexivity.
  - unfold on_step_end. destruct (isoparse ts) as [dt|]; [|reflexivity].
    cbn [extend step_stack].
    destruct (find_match_idx name (step_stack st)) as [i|]; [|reflexivity].
    destruct (pop (step_stack st) i) as [[e stack']|]; [|reflexivity].
    destruct (dt_sub dt (e_start e)); unfold extend; cbn;
      now rewrite <- ?app_assoc.
Qed.

Lemma process_line_extend (tests : list Test) (steps : list Step)
  (st : state) (n : nat) (raw : string) :
  process_line isoparse (extend tests steps st) n raw
  = extend tests steps (process_line isoparse st n raw).
Proof.
  unfold process_line. destruct (match_line (strip raw)); [|reflexivity].
  apply handle_extend.
Qed.

(** What was emitted before a run is a prefix of what the run returns,
    and has no influence on the rest. *)
Lemma run_extend (tests : list Test) (steps : list Step) (lines : list string) :
  forall (st : state) (n : nat),
    run isoparse (extend tests steps st) n lines
    = extend tests steps (run isoparse st n lines).
Proof.
  induction lines as [|raw lines IH]; intros st n; cbn [run];
    [reflexivity|].
  now rewrite process_line_extend, IH.
Qed.

(** C3.  A TestStart line with a well-formed timestamp empties the step
    stack and replaces the open test, whatever they were, and emits
    nothing; the rest of the run is then the run of a parser that starts
    at that line with no open test and no open step, after what had been
    emitted already: neither the discarded test nor the steps that were
    open can reach the returned lists. *)
Theorem test_start_discards_open_work :
  forall (st : state) (n : nat) (raw ts name : string) (dt : datetime)
         (rest : list string),
    match_line (strip raw) = Some (TestStart ts name) ->
    isoparse ts = Some dt ->
    process_line isoparse st n raw
    = {| completed_tests := completed_tests st;
         all_steps := all_steps st;
         current_test := Some (mkTest name dt [] n None None None);
         step_stack := [] |}
    /\ run isoparse (process_line isoparse st n raw) (S n) rest
       = extend (completed_tests st) (all_steps st)
           (run isoparse (process_line isoparse init n raw) (S n) rest).
Proof.
  intros st n raw ts name dt rest Hline Hts.
  rewrite !(process_line_event _ n raw _ Hline). cbn [handle].
  unfold on_test_start. rewrite Hts. split; [reflexivity|].
  rewrite <- run_extend. unfold extend. cbn.
  now rewrite !app_nil_r.
Qed.

(** *** TestEnd *)


Lemma on_test_end_finalizes (st : state) (ts name status : string)
  (dt : datetime) (t : Test) (td : Z) :
  isoparse ts = Some dt ->
  current_test st = Some t ->
  t_name t = name ->
  dt_sub dt (t_start t) = Ok td ->
  on_test_end isoparse st ts name status
  = {| completed_tests := completed_tests st ++ [finalized t dt td status];
       all_steps := all_steps st;
       current_test := None;
       step_stack := step_stack st |}.
Proof.
  intros Hts Hcur Hname Hsub. unfold on_test_end.
  rewrite Hts, Hcur, Hsub. apply String.eqb_eq in Hname.
  now rewrite Hname.
Qed.

(** C7.  A TestEnd line with a well-formed timestamp changes the list of
    completed tests only if a test is open and has the name of the line,
    and then by appending that one test, finalized; if no test is open or
    the names differ, the whole parser state is unchanged. *)
Theorem test_end_guard :
  forall (st : state) (n : nat) (raw ts name status : string) (dt : datetime),
    match_line (strip raw) = Some (TestEnd ts name status) ->
    isoparse ts = Some dt ->
    let st' := process_line isoparse st n raw in
    (completed_tests st' <> completed_tests st ->
     exists t td,
       current_test st = Some t /\ t_name t = name
       /\ dt_sub dt (t_start t) = Ok td
       /\ st' = {| completed_tests :=
                     completed_tests st ++ [finalized t dt td status];
                   all_steps := all_steps st;
                   current_test := None;
                   step_stack := step_stack st |})
    /\ (~ (exists t, current_test st = Some t /\ t_name t = name) ->
        st' = st).
Proof.
  intros st n raw ts name status dt Hline Hts st'. subst st'.
  rewrite (process_line_event st n raw _ Hline). cbn [handle].
  unfold on_test_end. rewrite Hts.
  destruct (current_test st) as [t|] eqn:Hcur.
  - destruct (String.eqb (t_name t) name) eqn:E.
    + apply String.eqb_eq in E.
      destruct (dt_sub dt (t_start t)) as [td|x] eqn:Hsub.
      * split.
        -- intros _. exists t, td. auto.
        -- intros Hno. exfalso. apply Hno. eauto.
      * split.
        -- cbn. intros Hne. now contradiction Hne.
        -- intros Hno. exfalso. apply Hno. eauto.
    + split; [intros Hne; now contradiction Hne | reflexivity].
  - split; [intros Hne; now contradiction Hne | reflexivity].
Qed.

End ParserFacts.

(** *** Runs over several lines *)

Section Scenarios.

Variable isoparse : string -> option datetime.







(** C1.  Whenever the four timestamps of the example log are read as
    instants one second apart, the parser returns exactly one completed
    test, "Login", passed, of duration 3 seconds, whose step list is the
    single step "click" of duration 1 second attributed to "Login", and
    the global step list is that same single step. *)
Theorem parse_login_example :
  forall (raws : list string) (t0 t1 t2 t3 : datetime),
    List.map strip raws = login_log ->
    isoparse "2024-01-01T00:00:00Z" = Some t0 ->
    isoparse "2024-01-01T00:00:01Z" = Some t1 ->
    isoparse "2024-01-01T00:00:02Z" = Some t2 ->
    isoparse "2024-01-01T00:00:03Z" = Some t3 ->
    dt_sub t3 t0 = Ok 3000000%Z ->
    dt_sub t2 t1 = Ok 1000000%Z ->
    let click := mkStep "click" 1%Q "Login" t1 in
    parse_log_file isoparse raws
    = ([mkTest "Login" t0 [click] 0 (Some t3) (Some 3%Q) (Some "passed")],
       [click]).
Proof.
  intros raws t0 t1 t2 t3 Hmap P0 P1 P2 P3 Stest Sstep click.
  destruct raws as [|r0 [|r1 [|r2 [|r3 [|r4 raws]]]]]; try discriminate.
  unfold login_log in Hmap. cbn [List.map] in Hmap.
  injection Hmap as E0 E1 E2 E3.
  assert (L0 : match_line (strip r0)
               = Some (TestStart "2024-01-01T00:00:00Z" "Login"))
    by (rewrite E0; vm_compute; reflexivity).
  assert (L1 : match_line (strip r1)
               = Some (StepStart "2024-01-01T00:00:01Z" "click"))
    by (rewrite E1; vm_compute; reflexivity).
  assert (L2 : match_line (strip r2)
               = Some (StepEnd "2024-01-01T00:00:02Z" "click"))
    by (rewrite E2; vm_compute; reflexivity).
  assert (L3 : match_line (strip r3)
               = Some (TestEnd "2024-01-01T00:00:03Z" "Login" "passed"))
    by (rewrite E3; vm_compute; reflexivity).
  unfold parse_log_file. cbn [run].
  rewrite (process_line_event isoparse init 0 r0 _ L0). cbn [handle].
  unfold on_test_start. rewrite P0. cbn [init completed_tests all_steps].
  rewrite (process_line_event isoparse _ 1 r1 _ L1). cbn [handle].
  unfold on_step_start. rewrite P1.
  cbn [completed_tests all_steps current_test step_stack app].
  rewrite (process_line_event isoparse _ 2 r2 _ L2). cbn [handle].
  erewrite on_step_end_found with (pre := []) (post := [])
                                  (e := mkEntry "click" t1);
    [ | exact P2 | reflexivity | reflexivity | constructor | exact Sstep].
  cbn [completed_tests all_steps current_test step_stack app option_map
       owner add_step t_name t_start t_steps t_line t_end t_duration
       t_status e_start].
  rewrite (process_line_event isoparse _ 3 r3 _ L3). cbn [handle].
  erewrite on_test_end_finalizes;
    [ | exact P3 | reflexivity | reflexivity | exact Stest].
  reflexivity.
Qed.

End Scenarios.

(** *** The parser on concrete logs, with [isoparse_extended] *)

Lemma parse_login_example_witness :
  let nl := String "010"%char "" in
  let raws := List.map (fun l => (l ++ nl)%string) login_log in
  let click := mkStep "click" 1%Q "Login" (at_second 1) in
  parse_log_file isoparse_extended raws
  = ([mkTest "Login" (at_second 0) [click] 0 (Some (at_second 3)) (Some 3%Q)
        (Some "passed")],
     [click]).
Proof.
  intros nl raws click.
  apply (parse_login_example isoparse_extended raws
           (at_second 0) (at_second 1) (at_second 2) (at_second 3));
    vm_compute; reflexivity.
Defined.

Lemma step_end_matches_nearest_witness :
  let st := mkState [] [] None
              [mkEntry "open" (at_second 1); mkEntry "click" (at_second 2);
               mkEntry "type" (at_second 3)] in
  process_line isoparse_extended st 7
    "[2024-01-01T00:00:05Z] Finished step: click"
  = mkState [] [mkStep "click" 3%Q "UNKNOWN" (at_second 2)] None
      [mkEntry "open" (at_second 1); mkEntry "type" (at_second 3)].
Proof.
  intros st.
  assert (L : match_line (strip "[2024-01-01T00:00:05Z] Finished step: click")
              = Some (StepEnd "2024-01-01T00:00:05Z" "click"))
    by (vm_compute; reflexivity).
  assert (P : isoparse_extended "2024-01-01T00:00:05Z" = Some (at_second 5))
    by (vm_compute; reflexivity).
  destruct (step_end_matches_nearest isoparse_extended st 7 _ _ _ _ L P)
    as [_ [_ H]].
  rewrite (H [mkEntry "open" (at_second 1)] (mkEntry "click" (at_second 2))
             [mkEntry "type" (at_second 3)] 3000000%Z).
  - vm_compute. reflexivity.
  - reflexivity.
  - reflexivity.
  - repeat constructor; cbn; discriminate.
  - vm_compute. reflexivity.
Defined.

(** C2 as stated fails on a step started with a naive timestamp and ended
    with a zone-aware one: the StepEnd line is well-formed and an entry of
    its name is on the stack, the entry is removed, and no step is
    emitted. *)
Lemma step_end_mixed_zone_drops_step :
  let log := [ "[2024-01-01T00:00:01] Started step: click";
               "[2024-01-01T00:00:02Z] Finished step: click" ] in
  let st := run isoparse_extended init 0 ["[2024-01-01T00:00:01] Started step: click"] in
  let st' := process_line isoparse_extended st 1
               "[2024-01-01T00:00:02Z] Finished step: click" in
  step_stack st = [mkEntry "click" (mkDatetime 63839664001000000 None)]
  /\ match_line (strip "[2024-01-01T00:00:02Z] Finished step: click")
     = Some (StepEnd "2024-01-01T00:00:02Z" "click")
  /\ isoparse_extended "2024-01-01T00:00:02Z"
     = Some (mkDatetime 63839664002000000 (Some 0%Z))
  /\ step_stack st' = []
  /\ all_steps st' = []
  /\ parse_log_file isoparse_extended log = ([], []).
Proof. vm_compute. repeat split. Qed.

Lemma test_start_discards_open_work_witness :
  let st := mkState [] []
              (Some (mkTest "Signup" (at_second 0) [] 0 None None None))
              [mkEntry "fill form" (at_second 1)] in
  let raw := "[2024-01-01T00:00:02Z] --- TEST STARTED: Login ---" in
  let rest := [ "[2024-01-01T00:00:03Z] Finished step: fill form";
                "[2024-01-01T00:00:04Z] --- TEST ENDED: Signup (failed) ---";
                "[2024-01-01T00:00:05Z] --- TEST ENDED: Login (passed) ---" ] in
  let final := run isoparse_extended (process_line isoparse_extended st 1 raw)
                 2 rest in
  completed_tests final
  = [mkTest "Login" (at_second 2) [] 1 (Some (at_second 5)) (Some 3%Q)
       (Some "passed")]
  /\ all_steps final = [].
Proof.
  intros st raw rest final.
  assert (L : match_line (strip raw)
              = Some (TestStart "2024-01-01T00:00:02Z" "Login"))
    by (vm_compute; reflexivity).
  assert (P : isoparse_extended "2024-01-01T00:00:02Z" = Some (at_second 2))
    by (vm_compute; reflexivity).
  destruct (test_start_discards_open_work isoparse_extended st 1 raw _ _ _
              rest L P) as [_ H].
  subst final. rewrite H. vm_compute. split; reflexivity.
Defined.

Lemma test_end_guard_witness :
  let st := mkState [] []
              (Some (mkTest "Login" (at_second 0) [] 0 None None None))
              [mkEntry "click" (at_second 1)] in
  process_line isoparse_extended st 2
    "[2024-01-01T00:00:03Z] --- TEST ENDED: Logout (passed) ---"
  = st.
Proof.
  intros st.
  assert (L : match_line
                (strip "[2024-01-01T00:00:03Z] --- TEST ENDED: Logout (passed) ---")
              = Some (TestEnd "2024-01-01T00:00:03Z" "Logout" "passed"))
    by (vm_compute; reflexivity).
  assert (P : isoparse_extended "2024-01-01T00:00:03Z" = Some (at_second 3))
    by (vm_compute; reflexivity).
  destruct (test_end_guard isoparse_extended st 2 _ _ _ _ _ L P) as [_ H].
  apply H. intros [t [Hcur Hname]].
  injection Hcur as <-. discriminate Hname.
Defined.



End TimingsSpec.

(* ================================================================== *)
(** ** Facts about the Python primitives *)

Module PyFacts.
Import Py.

(** On a non-negative number [int] is the floor. *)
Lemma int_of_nonneg (q : Q) : (0 <= q)%Q -> int_of q = Qfloor q.
Proof.
  destruct q as [n d]. unfold Qle, int_of, Qfloor. cbn [Qnum Qden].
  intros H. apply Z.quot_div_nonneg; lia.
Qed.

Lemma Qfloor_nonneg (q : Q) : (0 <= q)%Q -> (0 <= Qfloor q)%Z.
Proof. intros H. apply Qfloor_resp_le in H. exact H. Qed.

Lemma set_nth_length {A : Type} (l : list A) :
  forall (k : nat) (v : A), List.length (set_nth l k v) = List.length l.
Proof.
  induction l as [|a l IH]; intros [|k] v; cbn; auto.
Qed.

(** An index within [0, len) reads the element at that position. *)
Lemma getitem_in_range {A : Type} (l : list A) (i : Z) :
  (0 <= i < Z.of_nat (List.length l))%Z ->
  exists a, getitem l i = Ok a /\ nth_error l (Z.to_nat i) = Some a.
Proof.
  intros [H0 H1]. unfold getitem.
  destruct (i <? 0)%Z eqn:E; [apply Z.ltb_lt in E; lia|].
  replace ((i <? 0)%Z || (Z.of_nat (List.length l) <=? i)%Z) with false.
  2:{ symmetry. apply orb_false_iff. split; [exact E|].
      apply Z.leb_gt. exact H1. }
  destruct (nth_error l (Z.to_nat i)) as [a|] eqn:En; [eauto|].
  apply nth_error_None in En. lia.
Qed.

Lemma setitem_in_range {A : Type} (l : list A) (i : Z) (v : A) :
  (0 <= i < Z.of_nat (List.length l))%Z ->
  exists l', setitem l i v = Ok l' /\ List.length l' = List.length l.
Proof.
  intros [H0 H1]. unfold setitem.
  destruct (i <? 0)%Z eqn:E; [apply Z.ltb_lt in E; lia|].
  replace ((i <? 0)%Z || (Z.of_nat (List.length l) <=? i)%Z) with false.
  2:{ symmetry. apply orb_false_iff. split; [exact E|].
      apply Z.leb_gt. exact H1. }
  eexists. split; [reflexivity | apply set_nth_length].
Qed.

(** [min] and [max] bound every element of the list. *)
Lemma min_of_le_acc (l : list Q) : forall m, (min_of m l <= m)%Q.
Proof.
  induction l as [|a l IH]; intros m; cbn [min_of fold_left].
  - apply Qle_refl.
  - fold (min_of (if Qlt_le_dec a m then a else m) l).
    destruct (Qlt_le_dec a m) as [Hlt|Hle].
    + apply Qle_trans with a; [apply IH | now apply Qlt_le_weak].
    + apply IH.
Qed.

Lemma min_of_le_in (l : list Q) :
  forall m y, In y l -> (min_of m l <= y)%Q.
Proof.
  induction l as [|a l IH]; intros m y Hin; [contradiction|].
  cbn [min_of fold_left].
  fold (min_of (if Qlt_le_dec a m then a else m) l).
  destruct Hin as [<- | Hin]; [|now apply IH].
  destruct (Qlt_le_dec a m) as [Hlt|Hle].
  - apply min_of_le_acc.
  - eapply Qle_trans; [apply min_of_le_acc | exact Hle].
Qed.

Lemma max_of_ge_acc (l : list Q) : forall m, (m <= max_of m l)%Q.
Proof.
  induction l as [|a l IH]; intros m; cbn [max_of fold_left].
  - apply Qle_refl.
  - fold (max_of (if Qlt_le_dec m a then a else m) l).
    destruct (Qlt_le_dec m a) as [Hlt|Hle].
    + apply Qle_trans with a; [now apply Qlt_le_weak | apply IH].
    + apply IH.
Qed.

Lemma max_of_ge_in (l : list Q) :
  forall m y, In y l -> (y <= max_of m l)%Q.
Proof.
  induction l as [|a l IH]; intros m y Hin; [contradiction|].
  cbn [max_of fold_left].
  fold (max_of (if Qlt_le_dec m a then a else m) l).
  destruct Hin as [<- | Hin]; [|now apply IH].
  destruct (Qlt_le_dec m a) as [Hlt|Hle].
  - apply max_of_ge_acc.
  - eapply Qle_trans; [exact Hle | apply max_of_ge_acc].
Qed.

Lemma min_max_bounds (x0 : Q) (rest : list Q) (y : Q) :
  In y (x0 :: rest) ->
  (min_of x0 rest <= y)%Q /\ (y <= max_of x0 rest)%Q.
Proof.
  intros [<- | Hin].
  - split; [apply min_of_le_acc | apply max_of_ge_acc].
  - split; [now apply min_of_le_in | now apply max_of_ge_in].
Qed.

(** [sorted] returns the same elements in non-decreasing order. *)
Lemma insert_sorted_perm (x : Q) (l : list Q) :
  Permutation (insert_sorted x l) (x :: l).
Proof.
  induction l as [|y l IH]; cbn [insert_sorted]; [reflexivity|].
  destruct (Qlt_le_dec x y); [reflexivity|].
  rewrite IH. apply perm_swap.
Qed.

Lemma sorted_perm (l : list Q) : Permutation (sorted l) l.
Proof.
  induction l as [|x l IH]; cbn [sorted fold_right]; [constructor|].
  fold (sorted l). rewrite insert_sorted_perm. now constructor.
Qed.

Lemma sorted_length (l : list Q) : List.length (sorted l) = List.length l.
Proof. apply Permutation_length, sorted_perm. Qed.

Lemma insert_sorted_ordered (x : Q) (l : list Q) :
  Sorted Qle l -> Sorted Qle (insert_sorted x l).
Proof.
  induction l as [|y l IH]; intros Hs; cbn [insert_sorted].
  - repeat constructor.
  - destruct (Qlt_le_dec x y) as [Hlt|Hle].
    + constructor; [exact Hs|]. constructor. now apply Qlt_le_weak.
    + inversion Hs as [|? ? Hs' Hhd]; subst.
      constructor; [now apply IH|].
      destruct l as [|z l]; cbn [insert_sorted].
      * now constructor.
      * destruct (Qlt_le_dec x z); constructor; [exact Hle|].
        inversion Hhd; subst. assumption.
Qed.

Lemma sorted_ordered (l : list Q) : Sorted Qle (sorted l).
Proof.
  induction l as [|x l IH]; cbn [sorted fold_right]; [constructor|].
  now apply insert_sorted_ordered.
Qed.

End PyFacts.

(* ================================================================== *)
(** ** Facts about the float arithmetic *)

Module FloatFacts.
Import Py PyFacts Float.

(** *** Powers of two *)

Lemma two_nonzero : ~ (2 == 0)%Q.
Proof. discriminate. Qed.

Lemma pow2_pos (e : Z) : (0 < 2 ^ e)%Q.
Proof. apply Qpower_0_lt. reflexivity. Qed.

Lemma pow2_add (a b : Z) : (2 ^ (a + b) == 2 ^ a * 2 ^ b)%Q.
Proof. apply Qpower_plus, two_nonzero. Qed.

Lemma pow2_le (a b : Z) : (a <= b)%Z -> (2 ^ a <= 2 ^ b)%Q.
Proof. intros H. apply Qpower_le_compat_l; [exact H | discriminate]. Qed.

Lemma pow2_lt_inv (a b : Z) : (2 ^ a < 2 ^ b)%Q -> (a < b)%Z.
Proof. intros H. apply (Qpower_lt_compat_l_inv 2); [exact H | reflexivity]. Qed.

Lemma pow2_Z (n : Z) : (0 <= n)%Z -> (inject_Z (2 ^ n) == 2 ^ n)%Q.
Proof. intros H. now rewrite Zpower_Qpower. Qed.

(** A quotient of two positive integers against a power of two. *)
Lemma ilog2_bounds (n : Z) (d : positive) :
  (0 < n)%Z ->
  let k := (Z.log2 n - Z.log2 (Zpos d))%Z in
  (2 ^ (k - 1) <= n # d /\ n # d < 2 ^ (k + 1))%Q.
Proof.
  intros Hn k.
  destruct (Z.log2_spec n Hn) as [Ln Un].
  destruct (Z.log2_spec (Zpos d) (Pos2Z.is_pos d)) as [Ld Ud].
  pose proof (Z.log2_nonneg n) as Hln.
  pose proof (Z.log2_nonneg (Zpos d)) as Hld.
  assert (Hd : (0 < inject_Z (Zpos d))%Q) by reflexivity.
  rewrite (Qmake_Qdiv n d).
  assert (E1 : (2 ^ (k - 1) == inject_Z (2 ^ Z.log2 n)
                               / inject_Z (2 ^ Z.succ (Z.log2 (Zpos d))))%Q).
  { rewrite !pow2_Z by lia. rewrite <- Qpower_minus by apply two_nonzero.
    subst k. now replace (Z.log2 n - Z.log2 (Zpos d) - 1)%Z
      with (Z.log2 n - Z.succ (Z.log2 (Zpos d)))%Z by lia. }
  assert (E2 : (2 ^ (k + 1) == inject_Z (2 ^ Z.succ (Z.log2 n))
                               / inject_Z (2 ^ Z.log2 (Zpos d)))%Q).
  { rewrite !pow2_Z by lia. rewrite <- Qpower_minus by apply two_nonzero.
    subst k. now replace (Z.log2 n - Z.log2 (Zpos d) + 1)%Z
      with (Z.succ (Z.log2 n) - Z.log2 (Zpos d))%Z by lia. }
  assert (P1 : (0 < inject_Z (2 ^ Z.succ (Z.log2 (Zpos d))))%Q)
    by (rewrite pow2_Z by lia; apply pow2_pos).
  assert (P2 : (0 < inject_Z (2 ^ Z.log2 (Zpos d)))%Q)
    by (rewrite pow2_Z by lia; apply pow2_pos).
  rewrite E1, E2. split.
  - apply Qle_shift_div_r; [exact P1|].
    unfold Qdiv. rewrite <- Qmult_assoc, (Qmult_comm (/ _)), Qmult_assoc.
    apply Qle_shift_div_l; [exact Hd|].
    rewrite <- !inject_Z_mult, <- Zle_Qle. nia.
  - apply Qlt_shift_div_l; [exact P2|].
    unfold Qdiv. rewrite <- Qmult_assoc, (Qmult_comm (/ _)), Qmult_assoc.
    apply Qlt_shift_div_r; [exact Hd|].
    rewrite <- !inject_Z_mult, <- Zlt_Qlt. nia.
Qed.

(** [ilog2] brackets a positive number between two powers of two. *)
Lemma ilog2_spec (a : Q) :
  (0 < a)%Q -> (2 ^ ilog2 a <= a /\ a < 2 ^ (ilog2 a + 1))%Q.
Proof.
  intros Ha. destruct a as [n d].
  assert (Hn : (0 < n)%Z) by (unfold Qlt in Ha; cbn in Ha; lia).
  destruct (ilog2_bounds n d Hn) as [Hlo Hhi].
  unfold ilog2. cbn [Qnum Qden].
  set (k := (Z.log2 n - Z.log2 (Zpos d))%Z) in *.
  destruct (Qle_bool (2 ^ k) (n # d)) eqn:E.
  - apply Qle_bool_iff in E. split; assumption.
  - assert (Hlt : (n # d < 2 ^ k)%Q).
    { apply Qnot_le_lt. intros H. apply Qle_bool_iff in H. congruence. }
    split; [exact Hlo|].
    now replace (k - 1 + 1)%Z with k by lia.
Qed.

Lemma ilog2_mono (a b : Q) :
  (0 < a)%Q -> (a <= b)%Q -> (ilog2 a <= ilog2 b)%Z.
Proof.
  intros Ha Hab.
  assert (Hb : (0 < b)%Q) by (eapply Qlt_le_trans; eassumption).
  destruct (ilog2_spec a Ha) as [La _].
  destruct (ilog2_spec b Hb) as [_ Ub].
  assert (H : (2 ^ ilog2 a < 2 ^ (ilog2 b + 1))%Q).
  { eapply Qle_lt_trans; [exact La|].
    eapply Qle_lt_trans; [exact Hab | exact Ub]. }
  apply pow2_lt_inv in H. lia.
Qed.

(** *** Rounding to the nearest integer *)

Lemma round_half_even_mono (a b : Q) :
  (a <= b)%Q -> (round_half_even a <= round_half_even b)%Z.
Proof.
  intros Hab. pose proof (Qfloor_resp_le _ _ Hab) as Hf.
  unfold round_half_even.
  destruct (Z.eq_dec (Qfloor a) (Qfloor b)) as [E|N].
  - rewrite <- E.
    destruct (Qcompare_spec (a - inject_Z (Qfloor a)) (1 # 2)) as [Ha|Ha|Ha];
      destruct (Qcompare_spec (b - inject_Z (Qfloor a)) (1 # 2)) as [Hb|Hb|Hb];
      destruct (Z.even (Qfloor a)); try lia; exfalso; lra.
  - assert (Hlt : (Qfloor a + 1 <= Qfloor b)%Z) by lia.
    destruct (Qcompare (a - inject_Z (Qfloor a)) (1 # 2));
      destruct (Qcompare (b - inject_Z (Qfloor b)) (1 # 2));
      destruct (Z.even (Qfloor a)); destruct (Z.even (Qfloor b)); lia.
Qed.

Lemma round_half_even_comp (a b : Q) :
  (a == b)%Q -> round_half_even a = round_half_even b.
Proof.
  intros H. apply Z.le_antisymm; apply round_half_even_mono;
    rewrite H; apply Qle_refl.
Qed.

Lemma round_half_even_Z (n : Z) : round_half_even (inject_Z n) = n.
Proof.
  unfold round_half_even. rewrite Qfloor_Z.
  destruct (Qcompare_spec (inject_Z n - inject_Z n) (1 # 2)) as [H|H|H];
    try reflexivity; exfalso; lra.
Qed.

(** The rounded integer is within one half of the number. *)
Lemma round_half_even_near (q : Q) :
  (q - (1 # 2) <= inject_Z (round_half_even q)
   /\ inject_Z (round_half_even q) <= q + (1 # 2))%Q.
Proof.
  pose proof (Qfloor_le q) as Hlo. pose proof (Qlt_floor q) as Hhi.
  rewrite inject_Z_plus in Hhi. change (inject_Z 1) with 1%Q in Hhi.
  unfold round_half_even.
  destruct (Qcompare_spec (q - inject_Z (Qfloor q)) (1 # 2)) as [H|H|H];
    [destruct (Z.even (Qfloor q))| |];
    rewrite ?inject_Z_plus; change (inject_Z 1) with 1%Q; split; lra.
Qed.

Lemma div_by_inverse (a p q : Q) : (q * p == 1)%Q -> (a / p == a * q)%Q.
Proof.
  intros H.
  assert (Hp : ~ (p == 0)%Q).
  { intros E. rewrite E, Qmult_0_r in H. discriminate. }
  transitivity ((a * q * p) / p)%Q.
  - now rewrite <- Qmult_assoc, H, Qmult_1_r.
  - apply Qdiv_mult_l, Hp.
Qed.

Lemma div_mult_pow2 (a : Q) (e : Z) : (a / 2 ^ e * 2 ^ e == a)%Q.
Proof.
  pose proof (pow2_pos e) as He.
  unfold Qdiv. rewrite <- Qmult_assoc, (Qmult_comm (/ _)), Qmult_inv_r.
  - apply Qmult_1_r.
  - intros E. rewrite E in He. discriminate.
Qed.

(** *** Rounding to a multiple of a power of two *)

Lemma round_to_mono (e : Z) (a b : Q) :
  (a <= b)%Q -> (round_to e a <= round_to e b)%Q.
Proof.
  intros Hab. unfold round_to. pose proof (pow2_pos e) as He.
  apply Qmult_le_compat_r; [|now apply Qlt_le_weak].
  rewrite <- Zle_Qle. apply round_half_even_mono.
  unfold Qdiv. apply Qmult_le_compat_r; [exact Hab|].
  apply Qlt_le_weak, Qinv_lt_0_compat, He.
Qed.

(** A multiple of [2^e] is left as it is. *)
Lemma round_to_multiple (e n : Z) :
  (round_to e (inject_Z n * 2 ^ e) == inject_Z n * 2 ^ e)%Q.
Proof.
  unfold round_to.
  assert (Hm : (inject_Z n * 2 ^ e / 2 ^ e == inject_Z n)%Q).
  { apply Qdiv_mult_l. pose proof (pow2_pos e) as He.
    intros E. rewrite E in He. discriminate. }
  now rewrite (round_half_even_comp _ _ Hm), round_half_even_Z.
Qed.

Lemma round_to_comp (e : Z) (a b : Q) :
  (a == b)%Q -> (round_to e a == round_to e b)%Q.
Proof.
  intros H. apply Qle_antisym; apply round_to_mono; rewrite H; apply Qle_refl.
Qed.

Lemma round_to_pow2 (e k : Z) :
  (e <= k)%Z -> (round_to e (2 ^ k) == 2 ^ k)%Q.
Proof.
  intros H.
  assert (E : (2 ^ k == inject_Z (2 ^ (k - e)) * 2 ^ e)%Q).
  { rewrite pow2_Z by lia. rewrite <- pow2_add.
    now replace (k - e + e)%Z with k by lia. }
  rewrite (round_to_comp _ _ _ E), round_to_multiple. now symmetry.
Qed.

Lemma round_to_Z (e n : Z) :
  (e <= 0)%Z -> (round_to e (inject_Z n) == inject_Z n)%Q.
Proof.
  intros H.
  assert (E : (inject_Z n == inject_Z (n * 2 ^ (- e)) * 2 ^ e)%Q).
  { rewrite inject_Z_mult, pow2_Z by lia.
    rewrite <- Qmult_assoc, <- pow2_add.
    replace (- e + e)%Z with 0%Z by lia. now rewrite Qmult_1_r. }
  rewrite (round_to_comp _ _ _ E), round_to_multiple. now symmetry.
Qed.

Lemma round_to_nonneg (e : Z) (a : Q) : (0 <= a)%Q -> (0 <= round_to e a)%Q.
Proof.
  intros Ha. pose proof (round_to_mono e 0 a Ha) as H.
  assert (E0 : (0 == inject_Z 0 * 2 ^ e)%Q) by (now rewrite Qmult_0_l).
  assert (E : (round_to e 0 == 0)%Q).
  { rewrite (round_to_comp _ _ _ E0), round_to_multiple. now symmetry. }
  now rewrite E in H.
Qed.

(** *** Rounding a positive number *)

Lemma ulp_exponent_mono (a b : Q) :
  (0 < a)%Q -> (a <= b)%Q -> (ulp_exponent a <= ulp_exponent b)%Z.
Proof.
  intros Ha Hab. pose proof (ilog2_mono a b Ha Hab). unfold ulp_exponent. lia.
Qed.

Lemma ilog2_le_pow2 (a : Q) (k : Z) :
  (0 < a)%Q -> (a <= 2 ^ k)%Q -> (ilog2 a <= k)%Z.
Proof.
  intros Ha H. destruct (ilog2_spec a Ha) as [Hlo _].
  apply (Qpower_le_compat_l_inv 2); [|reflexivity].
  eapply Qle_trans; eassumption.
Qed.

Lemma ilog2_ge_pow2 (a : Q) (k : Z) :
  (2 ^ k <= a)%Q -> (k <= ilog2 a)%Z.
Proof.
  intros H.
  assert (Ha : (0 < a)%Q) by (eapply Qlt_le_trans; [apply (pow2_pos k) | exact H]).
  destruct (ilog2_spec a Ha) as [_ Hhi].
  assert (Hlt : (2 ^ k < 2 ^ (ilog2 a + 1))%Q)
    by (eapply Qle_lt_trans; eassumption).
  apply pow2_lt_inv in Hlt. lia.
Qed.

(** Rounding keeps a number on its side of a power of two. *)
Lemma round_pos_le_pow2 (a : Q) (k : Z) :
  (0 < a)%Q -> (a <= 2 ^ k)%Q -> (-1074 <= k)%Z ->
  (round_pos a <= 2 ^ k)%Q.
Proof.
  intros Ha H Hk. pose proof (ilog2_le_pow2 a k Ha H) as Hil.
  unfold round_pos.
  rewrite <- (round_to_pow2 (ulp_exponent a) k) by (unfold ulp_exponent; lia).
  now apply round_to_mono.
Qed.

Lemma round_pos_ge_pow2 (a : Q) (k : Z) :
  (2 ^ k <= a)%Q -> (-1074 <= k)%Z -> (2 ^ k <= round_pos a)%Q.
Proof.
  intros H Hk. pose proof (ilog2_ge_pow2 a k H) as Hil.
  assert (Ha : (0 < a)%Q) by (eapply Qlt_le_trans; [apply (pow2_pos k) | exact H]).
  destruct (ilog2_spec a Ha) as [Hlo _].
  apply Qle_trans with (2 ^ ilog2 a)%Q; [now apply pow2_le|].
  unfold round_pos.
  rewrite <- (round_to_pow2 (ulp_exponent a) (ilog2 a))
    by (unfold ulp_exponent; lia).
  now apply round_to_mono.
Qed.

Lemma round_pos_nonneg (a : Q) : (0 < a)%Q -> (0 <= round_pos a)%Q.
Proof. intros Ha. apply round_to_nonneg. now apply Qlt_le_weak. Qed.

Lemma round_pos_mono (a b : Q) :
  (0 < a)%Q -> (a <= b)%Q -> (round_pos a <= round_pos b)%Q.
Proof.
  intros Ha Hab.
  assert (Hb : (0 < b)%Q) by (eapply Qlt_le_trans; eassumption).
  pose proof (ilog2_mono a b Ha Hab) as Hl.
  unfold round_pos.
  destruct (Z.eq_dec (ulp_exponent a) (ulp_exponent b)) as [E|N].
  - rewrite E. now apply round_to_mono.
  - assert (Hlt : (ilog2 a < ilog2 b)%Z /\ ulp_exponent b = (ilog2 b - 52)%Z
                  /\ (ulp_exponent a <= ilog2 b)%Z)
      by (unfold ulp_exponent in *; lia).
    destruct Hlt as [Hlt [Eb Hea]].
    destruct (ilog2_spec a Ha) as [_ Ua]. destruct (ilog2_spec b Hb) as [Lb _].
    apply Qle_trans with (2 ^ ilog2 b)%Q.
    + rewrite <- (round_to_pow2 (ulp_exponent a) (ilog2 b) Hea).
      apply round_to_mono. apply Qlt_le_weak.
      eapply Qlt_le_trans; [exact Ua|]. apply pow2_le. lia.
    + rewrite <- (round_to_pow2 (ulp_exponent b) (ilog2 b)) by lia.
      now apply round_to_mono.
Qed.

Lemma round_pos_comp (a b : Q) :
  (0 < a)%Q -> (a == b)%Q -> (round_pos a == round_pos b)%Q.
Proof.
  intros Ha H.
  assert (Hb : (0 < b)%Q) by (now rewrite <- H).
  apply Qle_antisym; apply round_pos_mono; try assumption;
    rewrite H; apply Qle_refl.
Qed.

(** Integers below 2^53 are floats. *)
Lemma round_pos_Z (n : Z) :
  (0 < n < 2 ^ 53)%Z -> (round_pos (inject_Z n) == inject_Z n)%Q.
Proof.
  intros [H0 Hn].
  assert (Ha : (0 < inject_Z n)%Q).
  { change 0%Q with (inject_Z 0). now rewrite <- Zlt_Qlt. }
  assert (Hle : (inject_Z n <= 2 ^ 53)%Q).
  { rewrite <- pow2_Z by lia. rewrite <- Zle_Qle. lia. }
  pose proof (ilog2_le_pow2 _ 53 Ha Hle) as Hil.
  destruct (ilog2_spec _ Ha) as [Hlo _].
  assert (Hil' : (ilog2 (inject_Z n) < 53)%Z).
  { apply pow2_lt_inv. eapply Qle_lt_trans; [exact Hlo|].
    rewrite <- pow2_Z by lia. now rewrite <- Zlt_Qlt. }
  unfold round_pos. apply round_to_Z. unfold ulp_exponent. lia.
Qed.

(** In the normal range the relative error of a rounding is at most one
    part in 2^53. *)
Lemma normal_exponent (a : Q) :
  (2 ^ (-1022) <= a)%Q -> ulp_exponent a = (ilog2 a - 52)%Z.
Proof.
  intros H. pose proof (ilog2_ge_pow2 a _ H). unfold ulp_exponent. lia.
Qed.

Lemma round_pos_error (a : Q) :
  (2 ^ (-1022) <= a)%Q ->
  (a * (2 ^ 53 - 1) <= round_pos a * 2 ^ 53
   /\ round_pos a * 2 ^ 53 <= a * (2 ^ 53 + 1))%Q.
Proof.
  intros Hn.
  assert (Ha : (0 < a)%Q)
    by (eapply Qlt_le_trans; [apply (pow2_pos (-1022)) | exact Hn]).
  unfold round_pos, round_to. rewrite (normal_exponent a Hn).
  destruct (ilog2_spec a Ha) as [Hlo _].
  set (e := (ilog2 a - 52)%Z) in *.
  pose proof (pow2_pos e) as He.
  destruct (round_half_even_near (a / 2 ^ e)) as [Hnear1 Hnear2].
  pose proof (div_mult_pow2 a e) as Hmp.
  assert (A0 : (a - (1 # 2) * 2 ^ e
                <= inject_Z (round_half_even (a / 2 ^ e)) * 2 ^ e)%Q).
  { rewrite <- Hmp at 1.
    setoid_replace (a / 2 ^ e * 2 ^ e - (1 # 2) * 2 ^ e)%Q
      with ((a / 2 ^ e - (1 # 2)) * 2 ^ e)%Q by ring.
    apply Qmult_le_compat_r; [exact Hnear1 | now apply Qlt_le_weak]. }
  assert (A1 : (inject_Z (round_half_even (a / 2 ^ e)) * 2 ^ e
                <= a + (1 # 2) * 2 ^ e)%Q).
  { rewrite <- Hmp at 2. rewrite <- Qmult_plus_distr_l.
    apply Qmult_le_compat_r; [exact Hnear2 | now apply Qlt_le_weak]. }
  assert (A2 : (2 ^ 52 * 2 ^ e <= a)%Q).
  { rewrite <- pow2_add. now replace (52 + e)%Z with (ilog2 a) by (subst e; lia). }
  change (2 ^ 52)%Q with 4503599627370496%Q in A2.
  change (2 ^ 53)%Q with 9007199254740992%Q.
  set (r := (inject_Z (round_half_even (a / 2 ^ e)) * 2 ^ e)%Q) in *.
  set (p := (2 ^ e)%Q) in *. clearbody r p. split; lra.
Qed.

(** *** The nearest float *)

Lemma pow2_lt_overflow (k : Z) : (k <= 1023)%Z -> (2 ^ k < 2 ^ 1024)%Q.
Proof. intros H. apply Qpower_lt_compat_l; [lia | reflexivity]. Qed.

Lemma with_sign_finite (s : bool) (r : Q) (k : Z) :
  (r <= 2 ^ k)%Q -> (k <= 1023)%Z ->
  with_sign s r = Finite (if s then - r else r)%Q.
Proof.
  intros Hr Hk. unfold with_sign.
  destruct (Qle_bool (2 ^ 1024) r) eqn:E; [|reflexivity].
  apply Qle_bool_iff in E. exfalso.
  apply (Qlt_irrefl (2 ^ 1024)). eapply Qle_lt_trans; [exact E|].
  eapply Qle_lt_trans; [exact Hr|]. now apply pow2_lt_overflow.
Qed.

Lemma with_sign_inv (s : bool) (r t : Q) :
  with_sign s r = Finite t -> t = (if s then - r else r)%Q.
Proof.
  unfold with_sign. destruct (Qle_bool (2 ^ 1024) r); [discriminate|].
  now intros [= <-].
Qed.

Lemma nearest_of_zero (a : Q) : (a == 0)%Q -> nearest a = Finite 0.
Proof.
  intros Ha. unfold nearest. now rewrite (proj1 (Qeq_alt a 0) Ha).
Qed.

Lemma nearest_of_pos (a : Q) :
  (0 < a)%Q -> nearest a = with_sign false (round_pos a).
Proof.
  intros Ha. unfold nearest. now rewrite (proj1 (Qgt_alt a 0) Ha).
Qed.

Lemma nearest_of_neg (a : Q) :
  (a < 0)%Q -> nearest a = with_sign true (round_pos (- a)).
Proof.
  intros Ha. unfold nearest. now rewrite (proj1 (Qlt_alt a 0) Ha).
Qed.

(** A non-negative number up to 2^1023 rounds to a finite float on the
    same side of every power of two. *)
Lemma nearest_nonneg (a : Q) (k : Z) :
  (0 <= a)%Q -> (a <= 2 ^ k)%Q -> (-1074 <= k <= 1023)%Z ->
  exists r, nearest a = Finite r /\ (0 <= r)%Q /\ (r <= 2 ^ k)%Q
            /\ ((0 < a)%Q -> r = round_pos a).
Proof.
  intros H0 Hk [Hk1 Hk2]. destruct (Qlt_le_dec 0 a) as [Ha|Ha].
  - exists (round_pos a).
    pose proof (round_pos_le_pow2 a k Ha Hk Hk1) as Hr.
    rewrite (nearest_of_pos a Ha), (with_sign_finite false _ k Hr Hk2).
    split; [reflexivity|]. split; [now apply round_pos_nonneg|].
    split; [exact Hr | reflexivity].
  - exists 0%Q. rewrite nearest_of_zero by (now apply Qle_antisym).
    split; [reflexivity|]. split; [apply Qle_refl|]. split.
    + apply Qlt_le_weak, pow2_pos.
    + intros Hlt. exfalso. apply (Qlt_irrefl 0).
      eapply Qlt_le_trans; eassumption.
Qed.

Lemma nearest_nonneg_inv (a r : Q) :
  (0 <= a)%Q -> nearest a = Finite r ->
  (0 <= r)%Q /\ ((0 < a)%Q -> r = round_pos a) /\ ((a == 0)%Q -> r = 0%Q).
Proof.
  intros H0 Hr. destruct (Qlt_le_dec 0 a) as [Ha|Ha].
  - rewrite (nearest_of_pos a Ha) in Hr. apply with_sign_inv in Hr.
    subst r. split; [now apply round_pos_nonneg|]. split; [reflexivity|].
    intros E. rewrite E in Ha. discriminate.
  - rewrite nearest_of_zero in Hr by (now apply Qle_antisym).
    injection Hr as <-. split; [apply Qle_refl|]. split; [|reflexivity].
    intros Hlt. exfalso. apply (Qlt_irrefl 0).
    eapply Qlt_le_trans; eassumption.
Qed.

(** Rounding keeps the order of non-negative numbers. *)
Lemma nearest_nonneg_mono (a b r s : Q) :
  (0 <= a)%Q -> (a <= b)%Q ->
  nearest a = Finite r -> nearest b = Finite s -> (r <= s)%Q.
Proof.
  intros H0 Hab Hr Hs.
  assert (Hb : (0 <= b)%Q) by (eapply Qle_trans; eassumption).
  destruct (nearest_nonneg_inv a r H0 Hr) as [_ [Hrp Hrz]].
  destruct (nearest_nonneg_inv b s Hb Hs) as [Hs0 [Hsp _]].
  destruct (Qlt_le_dec 0 a) as [Ha|Ha].
  - rewrite (Hrp Ha), Hsp by (eapply Qlt_le_trans; eassumption).
    now apply round_pos_mono.
  - rewrite Hrz by (now apply Qle_antisym). exact Hs0.
Qed.

Lemma nearest_nonneg_comp (a b r s : Q) :
  (0 <= a)%Q -> (a == b)%Q ->
  nearest a = Finite r -> nearest b = Finite s -> (r == s)%Q.
Proof.
  intros H0 Hab Hr Hs.
  assert (Hb : (0 <= b)%Q) by (now rewrite <- Hab).
  apply Qle_antisym.
  - apply (nearest_nonneg_mono a b); auto. rewrite Hab. apply Qle_refl.
  - apply (nearest_nonneg_mono b a); auto. rewrite Hab. apply Qle_refl.
Qed.

(** A natural number below 2^53 is a float. *)
Lemma nearest_Z (n : Z) :
  (0 <= n < 2 ^ 53)%Z ->
  exists r, nearest (inject_Z n) = Finite r /\ (r == inject_Z n)%Q.
Proof.
  intros [H0 Hn]. destruct (Z.eq_dec n 0) as [->|N].
  - exists 0%Q. split; reflexivity.
  - assert (Ha : (0 < inject_Z n)%Q).
    { change 0%Q with (inject_Z 0). rewrite <- Zlt_Qlt. lia. }
    assert (Hle : (inject_Z n <= 2 ^ 53)%Q).
    { rewrite <- pow2_Z by lia. rewrite <- Zle_Qle. lia. }
    destruct (nearest_nonneg _ 53 (Qlt_le_weak _ _ Ha) Hle ltac:(lia))
      as [r [Hr [_ [_ Hrp]]]].
    exists r. split; [exact Hr|]. rewrite (Hrp Ha).
    apply round_pos_Z. lia.
Qed.

(** The same for a negative integer above -2^53. *)
Lemma nearest_Z_neg (n : Z) :
  (- 2 ^ 53 < n < 0)%Z ->
  exists r, nearest (inject_Z n) = Finite (- r)%Q /\ (r == inject_Z (- n))%Q.
Proof.
  intros [Hn H0].
  assert (Ha : (inject_Z n < 0)%Q).
  { change 0%Q with (inject_Z 0). rewrite <- Zlt_Qlt. lia. }
  assert (E : (- inject_Z n == inject_Z (- n))%Q)
    by (now rewrite inject_Z_opp).
  assert (Hp : (0 < - inject_Z n)%Q).
  { rewrite E. change 0%Q with (inject_Z 0). rewrite <- Zlt_Qlt. lia. }
  assert (Hr : (round_pos (- inject_Z n) == inject_Z (- n))%Q).
  { rewrite (round_pos_comp _ _ Hp E). apply round_pos_Z. lia. }
  exists (round_pos (- inject_Z n)). split; [|exact Hr].
  rewrite (nearest_of_neg _ Ha).
  apply (with_sign_finite true _ 53); [|lia].
  rewrite Hr, <- pow2_Z by lia. rewrite <- Zle_Qle. lia.
Qed.

(** A negative number down to -2^1023 rounds to a finite float. *)
Lemma nearest_neg_finite (a : Q) (k : Z) :
  (a < 0)%Q -> (- a <= 2 ^ k)%Q -> (-1074 <= k <= 1023)%Z ->
  nearest a = Finite (- round_pos (- a))%Q.
Proof.
  intros Ha Hk [Hk1 Hk2]. rewrite (nearest_of_neg a Ha).
  apply (with_sign_finite true _ k); [|exact Hk2].
  apply round_pos_le_pow2; [lra | exact Hk | exact Hk1].
Qed.

Lemma nearest_nonpos_finite (a : Q) (k : Z) :
  (a <= 0)%Q -> (- a <= 2 ^ k)%Q -> (-1074 <= k <= 1023)%Z ->
  exists r, nearest a = Finite r.
Proof.
  intros Ha Hk Hr. destruct (Qlt_le_dec a 0) as [Hlt|Hge].
  - eexists. now apply (nearest_neg_finite a k).
  - exists 0%Q. apply nearest_of_zero. now apply Qle_antisym.
Qed.

(** *** Float operations *)

Lemma div_finite (p q : Q) :
  ~ (q == 0)%Q -> div (Finite p) (Finite q) = Ok (nearest (p / q)).
Proof.
  intros Hq. unfold div. destruct (Qeq_bool q 0) eqn:E; [|reflexivity].
  apply Qeq_bool_iff in E. contradiction.
Qed.

Lemma div_by_zero (a : float) (q : Q) :
  (q == 0)%Q -> div a (Finite q) = Raise ZeroDivisionError.
Proof.
  intros Hq. unfold div. now rewrite (Qeq_eq_bool _ _ Hq).
Qed.

Lemma of_int_small (n : Z) :
  (0 <= n < 2 ^ 53)%Z ->
  exists b, of_int n = Ok (Finite b) /\ (b == inject_Z n)%Q.
Proof.
  intros Hn. destruct (nearest_Z n Hn) as [b [Hb E]].
  exists b. unfold of_int. now rewrite Hb.
Qed.

End FloatFacts.

(* ================================================================== *)
(** ** Statistics and histogram of analyze_timings.py *)

Module StatsSpec.
Import Py PyFacts AnalyzeTimings Float FloatFacts.

(** *** The 95th percentile *)

Lemma p95_index_div (n : nat) : p95_index n = (Z.of_nat n * 95 / 100)%Z.
Proof.
  unfold p95_index, int_of. cbn [Qmult inject_Z Qnum Qden].
  change (Z.pos (1 * 100)) with 100%Z.
  apply Z.quot_div_nonneg; lia.
Qed.

Lemma p95_index_floor (n : nat) :
  p95_index n = Qfloor (inject_Z (Z.of_nat n) * (95 # 100))%Q.
Proof.
  unfold p95_index. apply int_of_nonneg.
  unfold Qle. cbn. lia.
Qed.

Lemma p95_index_bounds (n : nat) :
  1 <= n -> (0 <= p95_index n < Z.of_nat n)%Z.
Proof.
  intros Hn. rewrite p95_index_div. split.
  - apply Z.div_pos; lia.
  - apply Z.div_lt_upper_bound; lia.
Qed.

(** On every length up to 2000 the binary64 computation of the index
    gives the value of the exact model. *)
Lemma p95_index_binary64_agrees (n : nat) :
  n <= 2000 -> p95_index_binary64 n = Some (p95_index n).
Proof.
  intros Hn.
  assert (Hall : forallb
                   (fun k => match p95_index_binary64 k with
                             | Some v => Z.eqb v (p95_index k)
                             | None => false
                             end) (seq 0 2001) = true)
    by (vm_compute; reflexivity).
  rewrite forallb_forall in Hall.
  specialize (Hall n). rewrite in_seq in Hall.
  assert (Hin : 0 <= n < 0 + 2001) by lia.
  apply Hall in Hin.
  destruct (p95_index_binary64 n) as [v|]; [|discriminate].
  apply Z.eqb_eq in Hin. now subst.
Qed.

(** The percentile lookup of a list of two or more durations succeeds. *)
Lemma p95_lookup (durations : list Q) :
  2 <= List.length durations ->
  exists v,
    getitem (sorted durations) (p95_index (List.length durations)) = Ok v
    /\ nth_error (sorted durations)
         (Z.to_nat (p95_index (List.length durations))) = Some v.
Proof.
  intros Hn. apply getitem_in_range. rewrite sorted_length.
  apply p95_index_bounds. lia.
Qed.

(** [analyze_durations] returns on every list. *)
Lemma analyze_durations_total {A : Type} (duration : A -> Q) (items : list A) :
  exists d, analyze_durations duration items = Ok d.
Proof.
  unfold analyze_durations.
  destruct items as [|x [|y rest]]; cbn [List.map].
  - eauto.
  - cbn. eauto.
  - set (durations := duration x :: duration y :: List.map duration rest).
    destruct (p95_lookup durations) as [v [Hv _]]; [cbn; lia|].
    replace (1 <? List.length durations)%nat with true
      by (symmetry; apply Nat.ltb_lt; cbn; lia).
    rewrite Hv. cbn [bind]. eauto.
Qed.

(** C5.  On an empty list [analyze_durations] returns, without
    raising, the empty dictionary, which reads as zero under every key; on
    a single item it returns statistics whose p95 is the duration of that
    item; on two or more items it returns statistics whose p95 is the
    element at index floor(count * 0.95) of the durations put in
    non-decreasing order. *)
Theorem analyze_durations_p95 :
  forall (A : Type) (duration : A -> Q),
    (exists d, analyze_durations duration [] = Ok d
               /\ d = None
               /\ forall key : Stats -> Q, get_or_zero d key = 0%Q)
    /\ (forall x : A,
          exists r, analyze_durations duration [x] = Ok (Some r)
                    /\ count r = 1 /\ p95 r = duration x)
    /\ (forall (x y : A) (rest : list A),
          let items := x :: y :: rest in
          let n := List.length items in
          exists r ordered,
            analyze_durations duration items = Ok (Some r)
            /\ count r = n
            /\ Permutation ordered (List.map duration items)
            /\ Sorted Qle ordered
            /\ nth_error ordered
                 (Z.to_nat (Qfloor (inject_Z (Z.of_nat n) * (95 # 100))%Q))
               = Some (p95 r)).
Proof.
  intros A duration. split; [|split].
  - exists None. split; [reflexivity|]. split; reflexivity.
  - intros x. eexists. split; [reflexivity|]. split; reflexivity.
  - intros x y rest items n.
    set (durations := List.map duration items).
    assert (Hlen : List.length durations = n)
      by (subst durations n; apply length_map).
    destruct (p95_lookup durations) as [v [Hget Hnth]];
      [rewrite Hlen; subst n items; cbn; lia|].
    rewrite Hlen in Hget, Hnth.
    exists (mkStats n (sum durations)
              (min_of (duration x) (List.map duration (y :: rest)))
              (max_of (duration x) (List.map duration (y :: rest)))
              (mean durations) (median_of durations) v),
           (sorted durations).
    split; [|split; [reflexivity|split; [|split]]].
    + unfold analyze_durations. fold durations.
      subst durations items. cbn [List.map].
      cbn [List.map] in Hget.
      replace (1 <? List.length
                 (duration x :: duration y :: List.map duration rest))%nat
        with true by (symmetry; apply Nat.ltb_lt; cbn; lia).
      cbn [List.length] in *. rewrite length_map.
      subst n. cbn [List.length] in Hget. rewrite Hget.
      cbn [bind]. reflexivity.
    + apply sorted_perm.
    + apply sorted_ordered.
    + cbn [p95]. rewrite <- p95_index_floor. exact Hnth.
Qed.

(** C9.  For a list of two or more durations the index
    int(n * 0.95) lies in [0, n), so the lookup in the sorted list
    succeeds; and [analyze_durations] raises on no list at all. *)
Theorem p95_index_in_bounds :
  forall (A : Type) (duration : A -> Q) (items : list A),
    2 <= List.length items ->
    let n := List.length items in
    (0 <= p95_index n < Z.of_nat n)%Z
    /\ (exists v, getitem (sorted (List.map duration items)) (p95_index n)
                  = Ok v)
    /\ (forall others : list A,
          exists d, analyze_durations duration others = Ok d).
Proof.
  intros A duration items Hn n. split; [|split].
  - apply p95_index_bounds. lia.
  - destruct (p95_lookup (List.map duration items)) as [v [Hv _]].
    + now rewrite length_map.
    + rewrite length_map in Hv. eauto.
  - intros others. apply analyze_durations_total.
Qed.

Lemma p95_index_in_bounds_witness :
  let items := [3; 1; 2; 5; 4]%Q in
  (0 <= p95_index 5 < 5)%Z
  /\ getitem (sorted items) (p95_index 5) = Ok 5%Q.
Proof.
  intros items.
  destruct (p95_index_in_bounds Q (fun d => d) items) as [H [_ _]].
  - cbn. lia.
  - split; [exact H | vm_compute; reflexivity].
Defined.

(** *** Histogram buckets *)

Lemma increment_in_range (buckets : list Z) (idx : Z) :
  (0 <= idx < Z.of_nat (List.length buckets))%Z ->
  exists buckets',
    increment buckets idx = Ok buckets'
    /\ List.length buckets' = List.length buckets.
Proof.
  intros Hidx. unfold increment.
  destruct (getitem_in_range buckets idx Hidx) as [v [Hv _]].
  rewrite Hv. cbn [bind]. now apply setitem_in_range.
Qed.

Section Histogram.

(** The values span at least 2^-969 and at most 2^1023, and the bucket
    count is a positive integer below 2^53: then no float operation of
    the histogram leaves the normal range. *)
Variables (min_val max_val : Q) (bins : Z).
Hypothesis Hlow : (2 ^ (-969) <= max_val - min_val)%Q.
Hypothesis Hhigh : (max_val - min_val <= 2 ^ 1023)%Q.
Hypothesis Hbins : (1 <= bins < 2 ^ 53)%Z.

Lemma range_pos : (0 < max_val - min_val)%Q.
Proof. eapply Qlt_le_trans; [apply (pow2_pos (-969)) | exact Hlow]. Qed.

Lemma range_lt : (min_val < max_val)%Q.
Proof. pose proof range_pos. lra. Qed.

(** The three floats computed before the loop. *)
Lemma bin_width_exists :
  exists span divisor bin_width,
    Float.sub max_val min_val = Finite span
    /\ Float.of_int bins = Ok (Finite divisor)
    /\ Float.div (Finite span) (Finite divisor) = Ok (Finite bin_width)
    /\ (2 ^ (-969) <= span)%Q /\ (span <= 2 ^ 1023)%Q
    /\ (divisor == inject_Z bins)%Q
    /\ (2 ^ (-1022) <= span / divisor)%Q
    /\ (bin_width == round_pos (span / divisor))%Q.
Proof.
  pose proof range_pos as Hpos.
  destruct (nearest_nonneg _ 1023%Z (Qlt_le_weak _ _ Hpos) Hhigh ltac:(lia))
    as [span [Hspan [_ [Hs2 Hsp]]]].
  assert (Hs1 : (2 ^ (-969) <= span)%Q).
  { rewrite (Hsp Hpos). apply round_pos_ge_pow2; [exact Hlow | lia]. }
  destruct (of_int_small bins ltac:(lia)) as [b [Hb Eb]].
  assert (Hb1 : (1 <= b)%Q).
  { rewrite Eb. change 1%Q with (inject_Z 1). rewrite <- Zle_Qle. lia. }
  assert (Hb2 : (b <= 2 ^ 53)%Q).
  { rewrite Eb, <- pow2_Z by lia. rewrite <- Zle_Qle. lia. }
  assert (Hb0 : (0 < b)%Q) by lra.
  assert (Hbn : ~ (b == 0)%Q) by (intros E; rewrite E in Hb0; discriminate).
  assert (Hs0 : (0 < span)%Q)
    by (eapply Qlt_le_trans; [apply (pow2_pos (-969)) | exact Hs1]).
  assert (Hq1 : (2 ^ (-1022) <= span / b)%Q).
  { apply Qle_shift_div_l; [exact Hb0|].
    apply Qle_trans with (2 ^ (-1022) * 2 ^ 53)%Q.
    - rewrite (Qmult_comm _ b), (Qmult_comm _ (2 ^ 53)).
      apply Qmult_le_compat_r; [exact Hb2|]. apply Qlt_le_weak, pow2_pos.
    - rewrite <- pow2_add. exact Hs1. }
  assert (Hq2 : (span / b <= 2 ^ 1023)%Q).
  { apply Qle_shift_div_r; [exact Hb0|].
    apply Qle_trans with (2 ^ 1023 * 1)%Q; [now rewrite Qmult_1_r|].
    rewrite (Qmult_comm _ 1), (Qmult_comm _ b).
    apply Qmult_le_compat_r; [exact Hb1|]. apply Qlt_le_weak, pow2_pos. }
  assert (Hq0 : (0 < span / b)%Q)
    by (eapply Qlt_le_trans; [apply (pow2_pos (-1022)) | exact Hq1]).
  destruct (nearest_nonneg _ 1023%Z (Qlt_le_weak _ _ Hq0) Hq2 ltac:(lia))
    as [bw [Hbw [_ [_ Hbwp]]]].
  exists span, b, bw. unfold Float.sub. rewrite (div_finite _ _ Hbn), Hbw.
  repeat split; auto. rewrite (Hbwp Hq0). reflexivity.
Qed.

Section Buckets.

Variables span divisor bin_width : Q.
Hypothesis Hspan : Float.sub max_val min_val = Finite span.
Hypothesis Hspan1 : (2 ^ (-969) <= span)%Q.
Hypothesis Hspan2 : (span <= 2 ^ 1023)%Q.
Hypothesis Hdivisor : (divisor == inject_Z bins)%Q.
Hypothesis Hnormal : (2 ^ (-1022) <= span / divisor)%Q.
Hypothesis Hwidth : (bin_width == round_pos (span / divisor))%Q.

Lemma divisor_bounds : (1 <= divisor)%Q /\ (divisor <= 2 ^ 53 - 1)%Q.
Proof.
  rewrite Hdivisor. split.
  - change 1%Q with (inject_Z 1). rewrite <- Zle_Qle. lia.
  - change (2 ^ 53 - 1)%Q with (inject_Z (2 ^ 53 - 1)).
    rewrite <- Zle_Qle. lia.
Qed.

Lemma span_pos : (0 < span)%Q.
Proof. eapply Qlt_le_trans; [apply (pow2_pos (-969)) | exact Hspan1]. Qed.

Lemma bin_width_pos : (0 < bin_width)%Q.
Proof.
  rewrite Hwidth. eapply Qlt_le_trans; [apply (pow2_pos (-1022))|].
  apply round_pos_ge_pow2; [exact Hnormal | lia].
Qed.

Lemma bin_width_nonzero : ~ (bin_width == 0)%Q.
Proof.
  intros H. pose proof bin_width_pos as Hp. rewrite H in Hp. discriminate.
Qed.

(** The width is the exact quotient up to one part in 2^53. *)
Lemma bin_width_error :
  (span * (2 ^ 53 - 1) <= bin_width * divisor * 2 ^ 53
   /\ bin_width * divisor * 2 ^ 53 <= span * (2 ^ 53 + 1))%Q.
Proof.
  destruct (round_pos_error _ Hnormal) as [E1 E2]. rewrite <- Hwidth in E1, E2.
  destruct divisor_bounds as [Hd1 _].
  assert (Hd0 : (0 <= divisor)%Q) by lra.
  assert (Hq : (span / divisor * divisor == span)%Q).
  { unfold Qdiv. rewrite <- Qmult_assoc, (Qmult_comm (/ _)), Qmult_inv_r.
    - apply Qmult_1_r.
    - intros E. rewrite E in Hd1. lra. }
  pose proof (Qmult_le_compat_r _ _ divisor E1 Hd0) as P1.
  pose proof (Qmult_le_compat_r _ _ divisor E2 Hd0) as P2.
  change (2 ^ 53)%Q with 9007199254740992%Q in *.
  split.
  - setoid_replace (span * (9007199254740992 - 1))%Q
      with (span / divisor * (9007199254740992 - 1) * divisor)%Q
      by (rewrite <- Hq at 1; ring).
    setoid_replace (bin_width * divisor * 9007199254740992)%Q
      with (bin_width * 9007199254740992 * divisor)%Q by ring.
    exact P1.
  - setoid_replace (span * (9007199254740992 + 1))%Q
      with (span / divisor * (9007199254740992 + 1) * divisor)%Q
      by (rewrite <- Hq at 1; ring).
    setoid_replace (bin_width * divisor * 9007199254740992)%Q
      with (bin_width * 9007199254740992 * divisor)%Q by ring.
    exact P2.
Qed.

(** The span holds at least [bins - 1] widths and at most 2^54. *)
Lemma span_over_width :
  (inject_Z (bins - 1) <= span / bin_width)%Q
  /\ (span / bin_width <= 2 ^ 54)%Q.
Proof.
  destruct bin_width_error as [E1 E2].
  destruct divisor_bounds as [Hd1 Hd2].
  pose proof bin_width_pos as Hw. pose proof span_pos as Hs.
  assert (Hb : (inject_Z (bins - 1) == divisor - 1)%Q).
  { rewrite Hdivisor. unfold Z.sub. rewrite inject_Z_plus. reflexivity. }
  change (2 ^ 53)%Q with 9007199254740992%Q in *.
  split.
  - apply Qle_shift_div_l; [exact Hw|]. rewrite Hb.
    assert (P : (0 <= span * (9007199254740992 - divisor))%Q)
      by (apply Qmult_le_0_compat; lra).
    assert (Q1 : (0 <= bin_width * (9007199254740992 + 1)
                      * (divisor - 1))%Q).
    { apply Qmult_le_0_compat; [apply Qmult_le_0_compat|]; lra. }
    nra.
  - apply Qle_shift_div_r; [exact Hw|].
    change (2 ^ 54)%Q with 18014398509481984%Q.
    assert (P : (0 <= bin_width * (9007199254740992 - 1 - divisor))%Q)
      by (apply Qmult_le_0_compat; lra).
    nra.
Qed.

(** The float quotient of a value of the list, and its bucket. *)
Lemma bucket_index_spec (x : Q) :
  (min_val <= x)%Q -> (x <= max_val)%Q ->
  exists offset q,
    Float.sub x min_val = Finite offset
    /\ Float.div (Finite offset) (Finite bin_width) = Ok (Finite q)
    /\ (0 <= offset)%Q /\ (offset <= span)%Q /\ (0 <= q)%Q
    /\ bucket_index min_val (Finite bin_width) bins x
       = Ok (Z.min (Qfloor q) (bins - 1))
    /\ (0 <= Z.min (Qfloor q) (bins - 1) <= bins - 1)%Z.
Proof.
  intros Hx1 Hx2. pose proof bin_width_pos as Hw.
  assert (Hd0 : (0 <= x - min_val)%Q) by lra.
  assert (Hd1 : (x - min_val <= max_val - min_val)%Q) by lra.
  destruct (nearest_nonneg _ 1023%Z Hd0 (Qle_trans _ _ _ Hd1 Hhigh) ltac:(lia))
    as [offset [Hoff [Ho0 [_ _]]]].
  assert (Ho1 : (offset <= span)%Q)
    by (apply (nearest_nonneg_mono _ _ _ _ Hd0 Hd1 Hoff Hspan)).
  destruct span_over_width as [_ Hsw].
  assert (Hq0 : (0 <= offset / bin_width)%Q).
  { apply Qle_shift_div_l; [exact Hw | now rewrite Qmult_0_l]. }
  assert (Hq1 : (offset / bin_width <= 2 ^ 54)%Q).
  { eapply Qle_trans; [|exact Hsw]. unfold Qdiv.
    apply Qmult_le_compat_r; [exact Ho1|].
    apply Qlt_le_weak, Qinv_lt_0_compat, Hw. }
  destruct (nearest_nonneg _ 54%Z Hq0 Hq1 ltac:(lia)) as [q [Hq [Hq2 _]]].
  exists offset, q. unfold bucket_index, Float.sub in *.
  rewrite Hoff, (div_finite _ _ bin_width_nonzero), Hq.
  cbn [bind Float.to_int]. rewrite (int_of_nonneg q Hq2).
  pose proof (Qfloor_nonneg q Hq2).
  repeat split; auto; lia.
Qed.

(** The maximum falls in the last bucket. *)
Lemma bucket_of_max (x offset q : Q) :
  (x == max_val)%Q ->
  Float.sub x min_val = Finite offset ->
  Float.div (Finite offset) (Finite bin_width) = Ok (Finite q) ->
  Z.min (Qfloor q) (bins - 1) = (bins - 1)%Z.
Proof.
  intros Hx Hoff Hq. pose proof bin_width_pos as Hw.
  pose proof range_pos as Hpos.
  assert (Hd0 : (0 <= x - min_val)%Q) by (rewrite Hx; lra).
  assert (Hd : (x - min_val == max_val - min_val)%Q) by (now rewrite Hx).
  assert (Eo : (offset == span)%Q)
    by (apply (nearest_nonneg_comp _ _ _ _ Hd0 Hd Hoff Hspan)).
  rewrite (div_finite _ _ bin_width_nonzero) in Hq. injection Hq as Hq.
  destruct span_over_width as [Hsw _].
  destruct (nearest_Z (bins - 1) ltac:(lia)) as [t [Ht Et]].
  assert (Hle : (inject_Z (bins - 1) <= offset / bin_width)%Q)
    by (now rewrite Eo).
  assert (H0 : (0 <= inject_Z (bins - 1))%Q).
  { change 0%Q with (inject_Z 0). rewrite <- Zle_Qle. lia. }
  pose proof (nearest_nonneg_mono _ _ _ _ H0 Hle Ht Hq) as Htq.
  rewrite Et in Htq. apply Qfloor_resp_le in Htq. rewrite Qfloor_Z in Htq.
  lia.
Qed.

(** A larger value has a larger float quotient. *)
Lemma quotient_mono (x y ox oy qx qy : Q) :
  (min_val <= x)%Q -> (x <= y)%Q ->
  Float.sub x min_val = Finite ox ->
  Float.sub y min_val = Finite oy ->
  Float.div (Finite ox) (Finite bin_width) = Ok (Finite qx) ->
  Float.div (Finite oy) (Finite bin_width) = Ok (Finite qy) ->
  (qx <= qy)%Q.
Proof.
  intros Hx Hxy Hox Hoy Hqx Hqy. pose proof bin_width_pos as Hw.
  assert (Hd0 : (0 <= x - min_val)%Q) by lra.
  assert (Hd1 : (x - min_val <= y - min_val)%Q) by lra.
  pose proof (nearest_nonneg_mono _ _ _ _ Hd0 Hd1 Hox Hoy) as Ho.
  destruct (nearest_nonneg_inv _ _ Hd0 Hox) as [Hox0 _].
  rewrite (div_finite _ _ bin_width_nonzero) in Hqx.
  rewrite (div_finite _ _ bin_width_nonzero) in Hqy.
  injection Hqx as Hqx. injection Hqy as Hqy.
  apply (nearest_nonneg_mono (ox / bin_width) (oy / bin_width)); auto.
  - apply Qle_shift_div_l; [exact Hw | now rewrite Qmult_0_l].
  - unfold Qdiv. apply Qmult_le_compat_r; [exact Ho|].
    apply Qlt_le_weak, Qinv_lt_0_compat, Hw.
Qed.

(** The minimum falls in the first bucket. *)
Lemma bucket_of_min :
  bucket_index min_val (Finite bin_width) bins min_val = Ok 0%Z.
Proof.
  unfold bucket_index, Float.sub.
  rewrite (nearest_of_zero (min_val - min_val)) by ring.
  rewrite (div_finite _ _ bin_width_nonzero).
  rewrite (nearest_of_zero (0 / bin_width)) by (unfold Qdiv; ring).
  cbn [bind Float.to_int]. f_equal. change (int_of 0) with 0%Z. lia.
Qed.

(** The loop that fills the buckets never indexes out of bounds. *)
Lemma fill_buckets_ok (data : list Q) :
  (forall x, In x data -> (min_val <= x)%Q /\ (x <= max_val)%Q) ->
  forall buckets,
    List.length buckets = Z.to_nat bins ->
    exists buckets',
      fill_buckets min_val (Finite bin_width) bins buckets data = Ok buckets'
      /\ List.length buckets' = Z.to_nat bins.
Proof.
  induction data as [|x data IH]; intros Hdata buckets Hlen;
    cbn [fill_buckets].
  - eauto.
  - destruct (Hdata x (or_introl eq_refl)) as [Hx1 Hx2].
    destruct (bucket_index_spec x Hx1 Hx2)
      as [offset [q [_ [_ [_ [_ [_ [Hidx Hbound]]]]]]]].
    rewrite Hidx. cbn [bind].
    destruct (increment_in_range buckets (Z.min (Qfloor q) (bins - 1)))
      as [buckets' [Hinc Hlen']]; [rewrite Hlen; lia|].
    rewrite Hinc. cbn [bind].
    apply IH; [intros y Hy; apply Hdata; now right | congruence].
Qed.

End Buckets.

(** The histogram is the loop run on the float bin width. *)
Lemma histogram_unfold (x0 : Q) (rest : list Q) (span divisor bin_width : Q) :
  min_val = min_of x0 rest -> max_val = max_of x0 rest ->
  Float.sub max_val min_val = Finite span ->
  Float.of_int bins = Ok (Finite divisor) ->
  Float.div (Finite span) (Finite divisor) = Ok (Finite bin_width) ->
  histogram_buckets (x0 :: rest) bins
  = (buckets <- fill_buckets min_val (Finite bin_width) bins
                  (repeat 0%Z (Z.to_nat bins)) (x0 :: rest) ;;
     Ok (Some buckets)).
Proof.
  intros Emin Emax Hspan Hdiv Hbw. unfold histogram_buckets.
  rewrite <- Emin, <- Emax.
  destruct (Qeq_bool min_val max_val) eqn:E.
  - apply Qeq_bool_iff in E. pose proof range_lt as Hlt.
    rewrite E in Hlt. now apply Qlt_irrefl in Hlt.
  - rewrite Hdiv. cbn [bind]. rewrite Hspan, Hbw. reflexivity.
Qed.

End Histogram.

(** C6.  For a non-empty list of values that span between 2^-969 and
    2^1023 (so that min < max and every float operation stays in the
    normal range) and a bucket count from 1 to 2^53 - 1, the bucket index
    of every value of the list is floor(q) clamped to bins - 1, where q
    is the float quotient (value - min) / bin_width; it lies in
    [0, bins - 1]; a value equal to the maximum gets the last bucket; and
    the loop that fills the buckets ends without an index error, with one
    counter per bucket. *)
Theorem histogram_bucket_in_range :
  forall (x0 : Q) (rest : list Q) (bins : Z) (x : Q),
    let data := x0 :: rest in
    let min_val := min_of x0 rest in
    let max_val := max_of x0 rest in
    (2 ^ (-969) <= max_val - min_val)%Q ->
    (max_val - min_val <= 2 ^ 1023)%Q ->
    (1 <= bins < 2 ^ 53)%Z ->
    In x data ->
    exists (divisor bin_width q : Q) (idx : Z) (buckets : list Z),
      Float.of_int bins = Ok (Finite divisor)
      /\ Float.div (Float.sub max_val min_val) (Finite divisor)
         = Ok (Finite bin_width)
      /\ Float.div (Float.sub x min_val) (Finite bin_width) = Ok (Finite q)
      /\ bucket_index min_val (Finite bin_width) bins x = Ok idx
      /\ idx = Z.min (Qfloor q) (bins - 1)
      /\ (0 <= idx <= bins - 1)%Z
      /\ ((x == max_val)%Q -> idx = (bins - 1)%Z)
      /\ histogram_buckets data bins = Ok (Some buckets)
      /\ List.length buckets = Z.to_nat bins.
Proof.
  intros x0 rest bins x data min_val max_val Hlow Hhigh Hbins Hin.
  destruct (bin_width_exists min_val max_val bins Hlow Hhigh Hbins)
    as [span [b [bw [Hspan [Hb [Hbw [Hs1 [Hs2 [Eb [Hn Ew]]]]]]]]]].
  assert (Hdata : forall y, In y data ->
                            (min_val <= y)%Q /\ (y <= max_val)%Q)
    by (intros y Hy; apply (min_max_bounds x0 rest y Hy)).
  destruct (Hdata x Hin) as [Hx1 Hx2].
  destruct (bucket_index_spec min_val max_val bins Hhigh Hbins
              span b bw Hspan Hs1 Eb Hn Ew x Hx1 Hx2)
    as [offset [q [Hoff [Hq [_ [_ [_ [Hidx Hbound]]]]]]]].
  destruct (fill_buckets_ok min_val max_val bins Hhigh Hbins
              span b bw Hspan Hs1 Eb Hn Ew data Hdata
              (repeat 0%Z (Z.to_nat bins)) (repeat_length _ _))
    as [buckets [Hfill Hlen]].
  exists b, bw, q, (Z.min (Qfloor q) (bins - 1)), buckets.
  split; [exact Hb|]. split; [now rewrite Hspan|].
  split; [now rewrite Hoff|]. split; [exact Hidx|]. split; [reflexivity|].
  split; [exact Hbound|]. split.
  - intros Hx.
    apply (bucket_of_max min_val max_val bins Hlow Hbins
             span b bw Hspan Hs1 Eb Hn Ew x offset q Hx Hoff Hq).
  - split; [|exact Hlen].
    change (histogram_buckets data bins)
      with (histogram_buckets (x0 :: rest) bins).
    rewrite (histogram_unfold min_val max_val bins Hlow x0 rest span b bw
               eq_refl eq_refl Hspan Hb Hbw).
    fold data. rewrite Hfill. reflexivity.
Qed.

Lemma histogram_bucket_in_range_witness :
  let data := [0; 15 # 100; 1]%Q in
  exists w q,
    Float.div (Float.sub 1 0) (Finite 20) = Ok (Finite w)
    /\ Float.div (Float.sub (15 # 100) 0) (Finite w) = Ok (Finite q)
    /\ bucket_index 0 (Finite w) 20 (15 # 100) = Ok 2%Z
    /\ histogram_buckets data 20
       = Ok (Some [1; 0; 1; 0; 0; 0; 0; 0; 0; 0;
                   0; 0; 0; 0; 0; 0; 0; 0; 0; 1]%Z).
Proof.
  intros data.
  destruct (histogram_bucket_in_range 0 [15 # 100; 1]%Q 20 (15 # 100))
    as [b [w [q [idx [buckets
         [Hb [Hw [Hq [Hidx [Hval [Hbound [_ [Hist Hlen]]]]]]]]]]]]].
  - apply Qle_bool_iff. vm_compute. reflexivity.
  - apply Qle_bool_iff. vm_compute. reflexivity.
  - lia.
  - cbn. auto.
  - vm_compute in Hb. injection Hb as <-.
    vm_compute in Hw. injection Hw as <-.
    vm_compute in Hq. injection Hq as <-.
    vm_compute in Hist. injection Hist as <-.
    eexists _, _. split; [vm_compute; reflexivity|].
    split; [vm_compute; reflexivity|].
    split; vm_compute; reflexivity.
Defined.

(** The bucket counts that the theorem excludes: with no bucket the
    division raises, with a negative count the first increment is out of
    bounds, and on a span below the normal range the bin width rounds to
    zero. *)
Lemma histogram_bucket_out_of_range :
  histogram_buckets [1; 2]%Q 0 = Raise ZeroDivisionError
  /\ histogram_buckets [1; 2]%Q (-2) = Raise IndexError
  /\ histogram_buckets [0; 2 ^ (-1074)]%Q 20 = Raise ZeroDivisionError.
Proof. repeat split; vm_compute; reflexivity. Qed.

(** The quotient is the float one: 0.15 / 0.05 is just below 3 in
    floats, and 3 in exact arithmetic. *)
Lemma float_quotient_is_not_exact :
  exists w,
    Float.div (Float.sub 1 0) (Finite 20) = Ok (Finite w)
    /\ bucket_index 0 (Finite w) 20 (15 # 100) = Ok 2%Z
    /\ Qfloor (((15 # 100) - 0) / ((1 - 0) / 20))%Q = 3%Z.
Proof.
  eexists. split; [vm_compute; reflexivity|].
  split; vm_compute; reflexivity.
Qed.

(** The rounding of [Float] gives what the binary64 subtraction and
    division of the standard library give, on every pair of the sample
    values. *)
Lemma float_agrees_with_binary64 :
  forallb (fun x => forallb (StatsAux.agrees_with_binary64 x)
                      StatsAux.sample_floats)
    StatsAux.sample_floats = true.
Proof. vm_compute. reflexivity. Qed.

End StatsSpec.

(* ================================================================== *)
(** ** Invariants of the log parser *)

Module ParserInvariants.
Import Py Re ReFacts AnalyzeTimings TimingsAux TimingsSpec.

Section Effects.

Variable isoparse : string -> option datetime.

(** Every line has one of the seven effects. *)
Lemma process_line_effect (st : state) (n : nat) (raw : string) :
  line_effect n st (process_line isoparse st n raw).
Proof.
  unfold process_line.
  destruct (match_line (strip raw))
    as [[ts name|ts name status|ts name|ts name]|]; cbn [handle];
    [ | | | | constructor].
  - unfold on_test_start. destruct (isoparse ts); constructor.
  - unfold on_test_end. destruct (isoparse ts) as [dt|]; [|constructor].
    destruct (current_test st) as [t|] eqn:Hcur; [|constructor].
    destruct (String.eqb (t_name t) name); [|constructor].
    destruct (dt_sub dt (t_start t)) as [td|x] eqn:Hsub.
    + exact (effect_test_end n st t dt td status Hcur Hsub).
    + exact (effect_test_end_raised n st t dt Hcur).
  - unfold on_step_start. destruct (isoparse ts); constructor.
  - destruct (stack_cases name (step_stack st))
      as [Hnone | [pre [e [post [Hst [He Hpost]]]]]].
    + rewrite (on_step_end_absent isoparse st ts name Hnone). constructor.
    + destruct (isoparse ts) as [dt|] eqn:Hts.
      * destruct (dt_sub dt (e_start e)) as [td|x] eqn:Hsub.
        -- rewrite (on_step_end_found isoparse st ts name dt pre post e td
                      Hts Hst He Hpost Hsub).
           rewrite <- He.
           exact (effect_step_end n st pre post e dt td Hst Hsub).
        -- rewrite (on_step_end_raises isoparse st ts name dt pre post e x
                      Hts Hst He Hpost Hsub).
           exact (effect_step_end_raised n st pre post e Hst).
      * unfold on_step_end. rewrite Hts. constructor.
Qed.

Lemma owns_steps_more (steps : list Step) (t : Test) (s : Step) :
  owns_steps steps t -> owns_steps (steps ++ [s]) t.
Proof.
  intros H x Hx. destruct (H x Hx) as [Hin Hname].
  split; [apply in_or_app; now left | exact Hname].
Qed.

Lemma effect_consistent (n : nat) (st st' : state) :
  line_effect n st st' -> consistent st -> consistent st'.
Proof.
  intros Heff [Hdone [Hcur Hsteps]].
  destruct Heff as [ | name dt | t dt td status Ht Hsub | t dt Ht | name dt
                     | pre post e dt td Hst Hsub | pre post e Hst ];
    unfold consistent; cbn [completed_tests all_steps current_test].
  - auto.
  - split; [exact Hdone|]. split; [|exact Hsteps].
    intros t [= <-] s []. 
  - split; [|split; [discriminate | exact Hsteps]].
    intros x Hx. apply in_app_or in Hx. destruct Hx as [Hx | [<- | []]].
    + now apply Hdone.
    + split.
      * exists dt, td, status. cbn. auto.
      * exact (Hcur t Ht).
  - split; [exact Hdone|]. split; [|exact Hsteps].
    intros x [= <-]. exact (Hcur t Ht).
  - auto.
  - set (step := mkStep (e_name e) (total_seconds td)
                   (owner (current_test st)) (e_start e)).
    split; [|split].
    + intros t Ht. destruct (Hdone t Ht) as [Hfin Hown].
      split; [exact Hfin | now apply owns_steps_more].
    + intros t Ht. destruct (current_test st) as [t0|] eqn:E; [|discriminate].
      injection Ht as <-. intros s Hs. cbn [add_step t_steps t_name] in *.
      apply in_app_or in Hs. destruct Hs as [Hs | [<- | []]].
      * destruct (Hcur t0 eq_refl s Hs) as [Hin Hname].
        split; [apply in_or_app; now left | exact Hname].
      * split; [apply in_or_app; right; now left | reflexivity].
    + intros s Hs. apply in_app_or in Hs. destruct Hs as [Hs | [<- | []]].
      * now apply Hsteps.
      * exists dt, td. auto.
  - auto.
Qed.

Lemma init_consistent : consistent init.
Proof.
  split; [|split]; cbn; try contradiction. discriminate.
Qed.

Lemma run_consistent (lines : list string) :
  forall (st : state) (n : nat),
    consistent st -> consistent (run isoparse st n lines).
Proof.
  induction lines as [|raw lines IH]; intros st n Hst; cbn [run];
    [exact Hst|].
  apply IH. eapply effect_consistent; [apply process_line_effect | exact Hst].
Qed.

(** Every test that [parse_log_file] returns is finalized: it has an end
    timestamp and a status, and its duration is the number of seconds
    between its start and its end. *)
Theorem completed_tests_are_finalized :
  forall (lines : list string) (t : Test),
    In t (fst (parse_log_file isoparse lines)) ->
    exists dt td status,
      t_end t = Some dt
      /\ dt_sub dt (t_start t) = Ok td
      /\ t_duration t = Some (total_seconds td)
      /\ t_status t = Some status.
Proof.
  intros lines t Hin. unfold parse_log_file in Hin. cbn [fst] in Hin.
  destruct (run_consistent lines init 0 init_consistent) as [Hdone _].
  exact (proj1 (Hdone t Hin)).
Qed.

(** Every step in the step list of a returned test is also in the
    returned global step list, the same record, and it names that test. *)
Theorem test_steps_are_global_steps :
  forall (lines : list string) (t : Test) (s : Step),
    In t (fst (parse_log_file isoparse lines)) ->
    In s (t_steps t) ->
    In s (snd (parse_log_file isoparse lines)) /\ s_test s = t_name t.
Proof.
  intros lines t s Ht Hs. unfold parse_log_file in *. cbn [fst snd] in *.
  destruct (run_consistent lines init 0 init_consistent) as [Hdone _].
  exact (proj2 (Hdone t Ht) s Hs).
Qed.

(** *** Every emitted step comes from two lines of the log *)

Lemma entry_from_log_more (lines : list string) (raw : string)
  (e : StackEntry) :
  entry_from_log isoparse lines e ->
  entry_from_log isoparse (lines ++ [raw]) e.
Proof.
  intros [i [r [Hi Hs]]]. exists i, r. split; [|exact Hs].
  rewrite nth_error_app1; [exact Hi|].
  apply nth_error_Some. congruence.
Qed.

Lemma step_from_log_more (lines : list string) (raw : string) (s : Step) :
  step_from_log isoparse lines s ->
  step_from_log isoparse (lines ++ [raw]) s.
Proof.
  intros [i [j [r1 [r2 [dt [td [Hij [Hi [Hj H]]]]]]]]].
  exists i, j, r1, r2, dt, td. split; [exact Hij|].
  split; [|split; [|exact H]];
    (rewrite nth_error_app1; [assumption|]; apply nth_error_Some; congruence).
Qed.

Lemma traced_fields (lines : list string) (st st' : state) :
  step_stack st' = step_stack st -> all_steps st' = all_steps st ->
  traced isoparse lines st -> traced isoparse lines st'.
Proof. intros E1 E2 [H1 H2]. split; [now rewrite E1 | now rewrite E2]. Qed.

Lemma traced_more (lines : list string) (raw : string) (st : state) :
  traced isoparse lines st -> traced isoparse (lines ++ [raw]) st.
Proof.
  intros [H1 H2]. split.
  - eapply Forall_impl; [|exact H1]. intros e. apply entry_from_log_more.
  - eapply Forall_impl; [|exact H2]. intros s. apply step_from_log_more.
Qed.

Lemma on_test_end_fields (st : state) (ts name status : string) :
  step_stack (on_test_end isoparse st ts name status) = step_stack st
  /\ all_steps (on_test_end isoparse st ts name status) = all_steps st.
Proof.
  unfold on_test_end.
  destruct (isoparse ts); [|auto].
  destruct (current_test st) as [t|]; [|auto].
  destruct (String.eqb (t_name t) name); [|auto].
  destruct (dt_sub _ _); auto.
Qed.

Lemma nth_error_last (lines : list string) (raw : string) :
  nth_error (lines ++ [raw]) (List.length lines) = Some raw.
Proof.
  rewrite nth_error_app2 by lia. now rewrite Nat.sub_diag.
Qed.

Lemma Forall_remove_middle {A : Type} (P : A -> Prop) (pre post : list A)
  (e : A) :
  Forall P (pre ++ e :: post) -> P e /\ Forall P (pre ++ post).
Proof.
  intros H. apply Forall_app in H. destruct H as [Hpre Hpost].
  inversion Hpost; subst. split; [assumption|].
  apply Forall_app. auto.
Qed.

(** Reading one more line keeps the open and the emitted steps traced to
    the lines read. *)
Lemma process_line_traced (lines : list string) (st : state) (n : nat)
  (raw : string) :
  traced isoparse lines st ->
  traced isoparse (lines ++ [raw]) (process_line isoparse st n raw).
Proof.
  intros Hst. pose proof (traced_more lines raw st Hst) as Hmore.
  unfold process_line.
  destruct (match_line (strip raw)) as [ev|] eqn:Hev; [|exact Hmore].
  destruct ev as [ts name | ts name status | ts name | ts name];
    cbn [handle].
  - unfold on_test_start. destruct (isoparse ts); [|exact Hmore].
    split; cbn; [constructor | exact (proj2 Hmore)].
  - destruct (on_test_end_fields st ts name status) as [E1 E2].
    exact (traced_fields _ _ _ E1 E2 Hmore).
  - unfold on_step_start. destruct (isoparse ts) as [dt|] eqn:Hts;
      [|exact Hmore].
    split; cbn; [|exact (proj2 Hmore)].
    apply Forall_app. split; [exact (proj1 Hmore)|].
    constructor; [|constructor].
    exists (List.length lines), raw. split; [apply nth_error_last|].
    exists ts. auto.
  - destruct (isoparse ts) as [dt|] eqn:Hts;
      [|unfold on_step_end; rewrite Hts; exact Hmore].
    destruct (stack_cases name (step_stack st))
      as [Hnone | [pre [e [post [Hstack [He Hpost]]]]]].
    + now rewrite (on_step_end_absent isoparse st ts name Hnone).
    + destruct Hst as [Hentries _]. destruct Hmore as [Hentries' Hsteps'].
      rewrite Hstack in Hentries, Hentries'.
      destruct (Forall_remove_middle _ _ _ _ Hentries) as [Hentry _].
      destruct (Forall_remove_middle _ _ _ _ Hentries') as [_ Hrest].
      destruct (dt_sub dt (e_start e)) as [td | x] eqn:Hsub.
      * rewrite (on_step_end_found isoparse st ts name dt pre post e td
                   Hts Hstack He Hpost Hsub).
        split; cbn; [exact Hrest|].
        apply Forall_app. split; [exact Hsteps'|].
        constructor; [|constructor].
        destruct Hentry as [i [raw_start [Hi Hstart]]].
        exists i, (List.length lines), raw_start, raw, dt, td.
        cbn [s_name s_start s_duration].
        split; [apply nth_error_Some; congruence|].
        split; [rewrite nth_error_app1;
                [exact Hi | apply nth_error_Some; congruence]|].
        split; [apply nth_error_last|].
        split; [now rewrite <- He|].
        split; [exists ts; auto | auto].
      * rewrite (on_step_end_raises isoparse st ts name dt pre post e x
                   Hts Hstack He Hpost Hsub).
        split; cbn; [exact Hrest | exact Hsteps'].
Qed.

Lemma run_traced (rest : list string) :
  forall (lines : list string) (st : state) (n : nat),
    traced isoparse lines st ->
    traced isoparse (lines ++ rest) (run isoparse st n rest).
Proof.
  induction rest as [|raw rest IH]; intros lines st n Hst; cbn [run].
  - now rewrite app_nil_r.
  - replace (lines ++ raw :: rest) with ((lines ++ [raw]) ++ rest)
      by (now rewrite <- app_assoc).
    apply IH. now apply process_line_traced.
Qed.

(** Every step that [parse_log_file] returns was measured between two
    lines of the log: a StepStart line of its name, whose timestamp is
    the step's start, and a later StepEnd line of the same name, whose
    timestamp minus the start is the step's duration. *)
Theorem global_steps_are_measured :
  forall (lines : list string) (s : Step),
    In s (snd (parse_log_file isoparse lines)) ->
    exists i j raw_start raw_end ts_start ts_end dt td,
      i < j
      /\ nth_error lines i = Some raw_start
      /\ nth_error lines j = Some raw_end
      /\ match_line (strip raw_start) = Some (StepStart ts_start (s_name s))
      /\ isoparse ts_start = Some (s_start s)
      /\ match_line (strip raw_end) = Some (StepEnd ts_end (s_name s))
      /\ isoparse ts_end = Some dt
      /\ dt_sub dt (s_start s) = Ok td
      /\ s_duration s = total_seconds td.
Proof.
  intros lines s Hin. unfold parse_log_file in Hin. cbn [snd] in Hin.
  assert (Hinit : traced isoparse [] init) by (split; constructor).
  destruct (run_traced lines [] init 0 Hinit) as [_ Hsteps].
  cbn [app] in Hsteps. rewrite Forall_forall in Hsteps.
  destruct (Hsteps s Hin)
    as [i [j [r1 [r2 [dt [td [Hij [Hi [Hj [[ts1 [Hm1 Hp1]]
         [[ts2 [Hm2 Hp2]] [Hsub Hdur]]]]]]]]]]]].
  exists i, j, r1, r2, ts1, ts2, dt, td. repeat split; assumption.
Qed.

(** The two output lists only grow, at their end: what a run returns
    starts with what had been emitted before it. *)
Lemma effect_grows (n : nat) (st st' : state) :
  line_effect n st st' ->
  exists tests steps,
    completed_tests st' = completed_tests st ++ tests
    /\ all_steps st' = all_steps st ++ steps.
Proof.
  intros Heff.
  destruct Heff; cbn [completed_tests all_steps];
    try (exists [], []; now rewrite !app_nil_r).
  - exists [finalized t dt td status], []. now rewrite app_nil_r.
  - eexists [], [_]. rewrite app_nil_r. split; reflexivity.
Qed.

Theorem outputs_only_grow :
  forall (lines : list string) (st : state) (n : nat),
    exists tests steps,
      completed_tests (run isoparse st n lines) = completed_tests st ++ tests
      /\ all_steps (run isoparse st n lines) = all_steps st ++ steps.
Proof.
  induction lines as [|raw lines IH]; intros st n; cbn [run].
  - exists [], []. now rewrite !app_nil_r.
  - destruct (effect_grows n st _ (process_line_effect st n raw))
      as [t1 [s1 [E1 E2]]].
    destruct (IH (process_line isoparse st n raw) (S n))
      as [t2 [s2 [F1 F2]]].
    exists (t1 ++ t2), (s1 ++ s2).
    rewrite F1, F2, E1, E2, !app_assoc. split; reflexivity.
Qed.

(** A line that matches no pattern, or whose timestamp does not parse,
    leaves the whole state as it was. *)
Theorem unreadable_line_is_skipped :
  forall (st : state) (n : nat) (raw : string),
    (forall ev, match_line (strip raw) = Some ev ->
                isoparse (event_ts ev) = None) ->
    process_line isoparse st n raw = st.
Proof.
  intros st n raw H. unfold process_line.
  destruct (match_line (strip raw)) as [ev|]; [|reflexivity].
  specialize (H ev eq_refl).
  destruct ev; cbn [handle event_ts] in *;
    unfold on_test_start, on_test_end, on_step_start, on_step_end;
    now rewrite H.
Qed.

(** *** Counting lines against outputs *)

Lemma count_lines_cons (kind : string -> bool) (raw : string)
  (lines : list string) :
  count_lines kind (raw :: lines) = b2n (kind raw) + count_lines kind lines.
Proof.
  unfold count_lines. cbn [filter]. now destruct (kind raw).
Qed.

Lemma open_tests_add_step (step : Step) (cur : option Test) :
  match option_map (add_step step) cur with Some _ => 1 | None => 0 end
  = match cur with Some _ => 1 | None => 0 end.
Proof. now destruct cur. Qed.

(** What one line can add to the outputs, by its kind. *)
Lemma process_line_counts (st : state) (n : nat) (raw : string) :
  let st' := process_line isoparse st n raw in
  List.length (all_steps st') + List.length (step_stack st')
  <= List.length (all_steps st) + List.length (step_stack st)
     + b2n (is_step_start raw)
  /\ List.length (all_steps st')
     <= List.length (all_steps st) + b2n (is_step_end raw)
  /\ List.length (completed_tests st') + open_tests st'
     <= List.length (completed_tests st) + open_tests st
        + b2n (is_test_start raw)
  /\ List.length (completed_tests st')
     <= List.length (completed_tests st) + b2n (is_test_end raw).
Proof.
  unfold process_line, is_step_start, is_step_end, is_test_start,
    is_test_end, open_tests.
  destruct (match_line (strip raw))
    as [[ts name|ts name status|ts name|ts name]|]; cbn [handle b2n];
    [ | | | | lia].
  - unfold on_test_start. destruct (isoparse ts); cbn; [|lia].
    destruct (current_test st); lia.
  - unfold on_test_end. destruct (isoparse ts) as [dt|]; [|lia].
    destruct (current_test st) as [t|] eqn:Hcur; [|rewrite Hcur; lia].
    destruct (String.eqb (t_name t) name); [|rewrite Hcur; lia].
    destruct (dt_sub dt (t_start t)); cbn; rewrite ?length_app; cbn; lia.
  - unfold on_step_start. destruct (isoparse ts); cbn;
      rewrite ?length_app; cbn; lia.
  - destruct (stack_cases name (step_stack st))
      as [Hnone | [pre [e [post [Hst [He Hpost]]]]]].
    + rewrite (on_step_end_absent isoparse st ts name Hnone). lia.
    + destruct (isoparse ts) as [dt|] eqn:Hts.
      * destruct (dt_sub dt (e_start e)) as [td|x] eqn:Hsub.
        -- rewrite (on_step_end_found isoparse st ts name dt pre post e td
                      Hts Hst He Hpost Hsub).
           cbn. rewrite open_tests_add_step, Hst, !length_app. cbn. lia.
        -- rewrite (on_step_end_raises isoparse st ts name dt pre post e x
                      Hts Hst He Hpost Hsub).
           cbn. rewrite Hst, !length_app. cbn. lia.
      * unfold on_step_end. rewrite Hts. lia.
Qed.

Lemma run_counts (lines : list string) :
  forall (st : state) (n : nat),
    let st' := run isoparse st n lines in
    List.length (all_steps st') + List.length (step_stack st')
    <= List.length (all_steps st) + List.length (step_stack st)
       + count_lines is_step_start lines
    /\ List.length (all_steps st')
       <= List.length (all_steps st) + count_lines is_step_end lines
    /\ List.length (completed_tests st') + open_tests st'
       <= List.length (completed_tests st) + open_tests st
          + count_lines is_test_start lines
    /\ List.length (completed_tests st')
       <= List.length (completed_tests st) + count_lines is_test_end lines.
Proof.
  induction lines as [|raw lines IH]; intros st n; cbn [run].
  - unfold count_lines. cbn. lia.
  - rewrite !count_lines_cons.
    pose proof (process_line_counts st n raw) as H1.
    pose proof (IH (process_line isoparse st n raw) (S n)) as H2.
    cbv zeta in *. lia.
Qed.

(** [parse_log_file] returns at most as many steps as the log has
    StepStart lines and as it has StepEnd lines, and at most as many tests
    as it has TestStart lines and as it has TestEnd lines: nothing is
    emitted without both of its markers. *)
Theorem outputs_bounded_by_markers :
  forall lines : list string,
    let tests := fst (parse_log_file isoparse lines) in
    let steps := snd (parse_log_file isoparse lines) in
    List.length steps <= count_lines is_step_start lines
    /\ List.length steps <= count_lines is_step_end lines
    /\ List.length tests <= count_lines is_test_start lines
    /\ List.length tests <= count_lines is_test_end lines.
Proof.
  intros lines tests steps. subst tests steps.
  unfold parse_log_file. cbn [fst snd].
  pose proof (run_counts lines init 0) as H. cbv zeta in H.
  unfold open_tests in H. cbn [init all_steps step_stack completed_tests
                               current_test List.length] in H.
  destruct (current_test (run isoparse init 0 lines)); lia.
Qed.

End Effects.

(** *** The invariants on a concrete log *)

Lemma completed_tests_are_finalized_witness :
  exists dt td status,
    t_end (mkTest "Login" (at_second 0) [] 0 (Some (at_second 3))
             (Some 3%Q) (Some "passed")) = Some dt
    /\ dt_sub dt (at_second 0) = Ok td
    /\ Some 3%Q = Some (total_seconds td)
    /\ Some "passed" = Some status.
Proof.
  apply (completed_tests_are_finalized isoparse_extended
           [ "[2024-01-01T00:00:00Z] --- TEST STARTED: Login ---";
             "[2024-01-01T00:00:03Z] --- TEST ENDED: Login (passed) ---" ]
           (mkTest "Login" (at_second 0) [] 0 (Some (at_second 3))
              (Some 3%Q) (Some "passed"))).
  vm_compute. left. reflexivity.
Defined.

Lemma test_steps_are_global_steps_witness :
  let click := mkStep "click" 1%Q "Login" (at_second 1) in
  In click (snd (parse_log_file isoparse_extended login_log))
  /\ s_test click = "Login".
Proof.
  intros click.
  apply (test_steps_are_global_steps isoparse_extended login_log
           (mkTest "Login" (at_second 0) [click] 0 (Some (at_second 3))
              (Some 3%Q) (Some "passed")) click).
  - vm_compute. left. reflexivity.
  - left. reflexivity.
Defined.

Lemma global_steps_are_measured_witness :
  let click := mkStep "click" 1%Q "Login" (at_second 1) in
  exists i j raw_start raw_end ts_start ts_end dt td,
    i < j
    /\ nth_error login_log i = Some raw_start
    /\ nth_error login_log j = Some raw_end
    /\ match_line (strip raw_start) = Some (StepStart ts_start "click")
    /\ isoparse_extended ts_start = Some (at_second 1)
    /\ match_line (strip raw_end) = Some (StepEnd ts_end "click")
    /\ isoparse_extended ts_end = Some dt
    /\ dt_sub dt (at_second 1) = Ok td
    /\ 1%Q = total_seconds td.
Proof.
  intros click.
  apply (global_steps_are_measured isoparse_extended login_log click).
  vm_compute. left. reflexivity.
Defined.

Lemma unreadable_line_is_skipped_witness :
  let st := mkState [] [] None [mkEntry "click" (at_second 1)] in
  process_line isoparse_extended st 4
    "[yesterday at noon] Finished step: click" = st.
Proof.
  intros st. apply unreadable_line_is_skipped.
  intros ev Hev.
  assert (E : match_line (strip "[yesterday at noon] Finished step: click")
              = Some (StepEnd "yesterday at noon" "click"))
    by (vm_compute; reflexivity).
  rewrite E in Hev. injection Hev as <-. vm_compute. reflexivity.
Defined.

End ParserInvariants.

(* ================================================================== *)
(** ** Whitespace around a line *)

Module StripFacts.
Import Py AnalyzeTimings TimingsAux.

Lemma lstrip_all_space (ws : string) :
  all_space ws = true -> lstrip ws = ""%string.
Proof.
  induction ws as [|c ws IH]; cbn [all_space lstrip]; [reflexivity|].
  intros H. apply andb_true_iff in H. destruct H as [Hc Hws].
  rewrite Hc. now apply IH.
Qed.

Lemma rstrip_all_space (ws : string) :
  all_space ws = true -> rstrip ws = ""%string.
Proof.
  induction ws as [|c ws IH]; cbn [all_space rstrip]; [reflexivity|].
  intros H. apply andb_true_iff in H. destruct H as [Hc Hws].
  now rewrite (IH Hws), Hc.
Qed.

Lemma lstrip_app_space (ws s : string) :
  all_space ws = true -> lstrip (ws ++ s)%string = lstrip s.
Proof.
  induction ws as [|c ws IH]; cbn [all_space String.append lstrip];
    [reflexivity|].
  intros H. apply andb_true_iff in H. destruct H as [Hc Hws].
  rewrite Hc. now apply IH.
Qed.

Lemma rstrip_app_space (s ws : string) :
  all_space ws = true -> rstrip (s ++ ws)%string = rstrip s.
Proof.
  intros Hws. induction s as [|c s IH]; cbn [String.append rstrip].
  - now apply rstrip_all_space.
  - now rewrite IH.
Qed.

Lemma strip_app_space (s ws : string) :
  all_space ws = true -> strip (s ++ ws)%string = strip s.
Proof.
  intros Hws. unfold strip.
  induction s as [|c s IH]; cbn [String.append lstrip].
  - now rewrite (lstrip_all_space ws Hws).
  - destruct (isspace c); [exact IH|].
    exact (rstrip_app_space (String c s) ws Hws).
Qed.

Lemma strip_padded (l s r : string) :
  all_space l = true -> all_space r = true ->
  strip (l ++ s ++ r)%string = strip s.
Proof.
  intros Hl Hr. unfold strip at 1. rewrite (lstrip_app_space l _ Hl).
  exact (strip_app_space s r Hr).
Qed.

(** A text that is empty or starts with a character that is not a space. *)
Lemma lstrip_fixed (s : string) :
  match s with String c _ => isspace c = false | EmptyString => True end ->
  lstrip s = s.
Proof. destruct s as [|c s]; cbn [lstrip]; [auto | now intros ->]. Qed.

Lemma lstrip_head (s : string) :
  match lstrip s with
  | String c _ => isspace c = false
  | EmptyString => True
  end.
Proof.
  induction s as [|c s IH]; cbn [lstrip]; [exact I|].
  destruct (isspace c) eqn:E; [exact IH | exact E].
Qed.

Lemma rstrip_head (s : string) :
  match s with String c _ => isspace c = false | EmptyString => True end ->
  match rstrip s with
  | String c _ => isspace c = false
  | EmptyString => True
  end.
Proof.
  destruct s as [|c s]; cbn [rstrip]; [auto|]. intros Hc.
  destruct (rstrip s); [rewrite Hc|]; exact Hc.
Qed.

Lemma rstrip_idempotent (s : string) : rstrip (rstrip s) = rstrip s.
Proof.
  induction s as [|c s IH]; cbn [rstrip]; [reflexivity|].
  destruct (rstrip s) as [|d r] eqn:E.
  - destruct (isspace c) eqn:Hc; cbn [rstrip]; [reflexivity|].
    now rewrite Hc.
  - cbn [rstrip]. cbn [rstrip] in IH. rewrite IH. reflexivity.
Qed.

(** The result of [strip] has nothing left to strip. *)
Lemma strip_idempotent (s : string) : strip (strip s) = strip s.
Proof.
  unfold strip.
  rewrite (lstrip_fixed (rstrip (lstrip s)) (rstrip_head _ (lstrip_head s))).
  apply rstrip_idempotent.
Qed.

(** The parser reads a line the same way whatever whitespace surrounds
    it: indentation, trailing blanks, a line feed or a carriage return
    and line feed. *)
Theorem padding_is_ignored :
  forall (isoparse : string -> option datetime) (st : state) (n : nat)
         (l line r : string),
    all_space l = true ->
    all_space r = true ->
    process_line isoparse st n (l ++ line ++ r)%string
    = process_line isoparse st n line.
Proof.
  intros isoparse st n l line r Hl Hr. unfold process_line.
  now rewrite (strip_padded l line r Hl Hr).
Qed.

Lemma padding_is_ignored_witness :
  let tab := String "009"%char "" in
  let crlf := String "013"%char (String "010"%char "") in
  process_line isoparse_extended init 0
    (tab ++ "[2024-01-01T00:00:00Z] --- TEST STARTED: Login ---" ++ crlf)%string
  = mkState [] [] (Some (mkTest "Login" (at_second 0) [] 0 None None None)) [].
Proof.
  intros tab crlf.
  rewrite (padding_is_ignored isoparse_extended init 0 tab _ crlf
             eq_refl eq_refl).
  vm_compute. reflexivity.
Defined.

End StripFacts.

(* ================================================================== *)
(** ** Order of the statistics *)

Module StatsOrder.
Import Py PyFacts AnalyzeTimings StatsSpec.

(** In a sorted list a later position holds a larger or equal value. *)
Lemma sorted_nth_le (l : list Q) :
  StronglySorted Qle l ->
  forall i j, i <= j -> j < List.length l ->
    (nth i l 0 <= nth j l 0)%Q.
Proof.
  induction 1 as [|a l Hs IH Hall]; intros i j Hij Hj; cbn in Hj; [lia|].
  destruct j as [|j].
  - replace i with 0 by lia. apply Qle_refl.
  - destruct i as [|i]; cbn [nth].
    + rewrite Forall_forall in Hall. apply Hall. apply nth_In. lia.
    + apply IH; lia.
Qed.

Lemma sorted_strongly (l : list Q) : StronglySorted Qle (sorted l).
Proof.
  apply Sorted_StronglySorted; [|apply sorted_ordered].
  intros x y z. apply Qle_trans.
Qed.

Lemma sorted_in (l : list Q) (y : Q) : In y (sorted l) <-> In y l.
Proof.
  split; apply Permutation_in; [|symmetry]; apply sorted_perm.
Qed.

Lemma max_of_in (l : list Q) : forall m, In (max_of m l) (m :: l).
Proof.
  induction l as [|a l IH]; intros m; cbn [max_of fold_left]; [now left|].
  fold (max_of (if Qlt_le_dec m a then a else m) l).
  destruct (Qlt_le_dec m a).
  - right. apply IH.
  - destruct (IH m) as [H|H]; [now left | right; now right].
Qed.

Lemma min_of_in (l : list Q) : forall m, In (min_of m l) (m :: l).
Proof.
  induction l as [|a l IH]; intros m; cbn [min_of fold_left]; [now left|].
  fold (min_of (if Qlt_le_dec a m then a else m) l).
  destruct (Qlt_le_dec a m).
  - right. apply IH.
  - destruct (IH m) as [H|H]; [now left | right; now right].
Qed.




(** The median lies between any bounds of the values. *)
Lemma median_bounds (lo hi : Q) (l : list Q) :
  1 <= List.length l ->
  (forall y, In y l -> lo <= y /\ y <= hi)%Q ->
  (lo <= median_of l /\ median_of l <= hi)%Q.
Proof.
  intros Hn Hl. unfold median_of. rewrite sorted_length.
  assert (Hnth : forall k, k < List.length l ->
                           (lo <= nth k (sorted l) 0 /\ nth k (sorted l) 0 <= hi)%Q).
  { intros k Hk. apply Hl, sorted_in, nth_In. now rewrite sorted_length. }
  assert (Hhalf : List.length l / 2 < List.length l)
    by (apply Nat.div_lt; lia).
  destruct (Nat.even (List.length l)).
  - destruct (Hnth (List.length l / 2 - 1)) as [A1 A2]; [lia|].
    destruct (Hnth (List.length l / 2)) as [B1 B2]; [lia|].
    split.
    + apply Qle_shift_div_l; [reflexivity | lra].
    + apply Qle_shift_div_r; [reflexivity | lra].
  - now apply Hnth.
Qed.

(** The median is at most any value of the sorted list at or after the
    middle position. *)
Lemma median_le_nth (l : list Q) (k : nat) :
  List.length l / 2 <= k -> k < List.length l ->
  (median_of l <= nth k (sorted l) 0)%Q.
Proof.
  intros Hlo Hhi. unfold median_of. rewrite sorted_length.
  pose proof (sorted_strongly l) as Hs.
  assert (Hlen : List.length (sorted l) = List.length l)
    by apply sorted_length.
  assert (A : (nth (List.length l / 2) (sorted l) 0 <= nth k (sorted l) 0)%Q)
    by (apply sorted_nth_le; [exact Hs | lia | lia]).
  destruct (Nat.even (List.length l)); [|exact A].
  assert (B : (nth (List.length l / 2 - 1) (sorted l) 0
               <= nth k (sorted l) 0)%Q)
    by (apply sorted_nth_le; [exact Hs | lia | lia]).
  apply Qle_shift_div_r; [reflexivity | lra].
Qed.

Lemma p95_position (n : nat) :
  2 <= n ->
  n / 2 <= Z.to_nat (p95_index n) /\ Z.to_nat (p95_index n) < n.
Proof.
  intros Hn. rewrite p95_index_div.
  assert (H2 : (Z.of_nat (n / 2) = Z.of_nat n / 2)%Z)
    by (rewrite Nat2Z.inj_div; reflexivity).
  assert (Hhalf : (Z.of_nat n / 2 <= Z.of_nat n * 95 / 100)%Z).
  { apply Z.div_le_lower_bound; [lia|].
    pose proof (Z.mul_div_le (Z.of_nat n) 2 ltac:(lia)). lia. }
  assert (Hup : (Z.of_nat n * 95 / 100 < Z.of_nat n)%Z)
    by (apply Z.div_lt_upper_bound; lia).
  assert (H0 : (0 <= Z.of_nat n * 95 / 100)%Z) by (apply Z.div_pos; lia).
  lia.
Qed.

(** What [analyze_durations] computes on a non-empty list, with the value
    [p] of its percentile lookup. *)
Lemma analyze_durations_value {A : Type} (duration : A -> Q) (x : A)
  (rest : list A) :
  let d0 := duration x in
  let ds := List.map duration rest in
  exists p,
    analyze_durations duration (x :: rest)
    = Ok (Some (mkStats (S (List.length ds)) (sum (d0 :: ds)) (min_of d0 ds)
                  (max_of d0 ds) (mean (d0 :: ds)) (median_of (d0 :: ds)) p))
    /\ In p (d0 :: ds)
    /\ (median_of (d0 :: ds) <= p)%Q
    /\ (List.length ds = 0 -> p = d0)
    /\ (1 <= List.length ds ->
        p = nth (Z.to_nat (p95_index (S (List.length ds))))
              (sorted (d0 :: ds)) 0%Q).
Proof.
  intros d0 ds. unfold analyze_durations. cbn [List.map].
  fold d0. fold ds. cbn [List.length].
  destruct ds as [|d1 ds'] eqn:Eds.
  - exists d0. cbn [List.length Nat.ltb Nat.leb bind getitem].
    split; [reflexivity|]. split; [now left|]. split.
    + apply (median_bounds d0 d0 [d0]); [cbn; lia|].
      intros y [<- | []]. split; apply Qle_refl.
    + split; [reflexivity | cbn; lia].
  - rewrite <- Eds. set (n := S (List.length ds)).
    assert (Hn : 2 <= n) by (subst n; rewrite Eds; cbn; lia).
    assert (Hlen : List.length (d0 :: ds) = n) by reflexivity.
    destruct (p95_lookup (d0 :: ds)) as [v [Hget Hnth]];
      [rewrite Hlen; exact Hn|].
    rewrite Hlen in Hget, Hnth.
    replace (1 <? n)%nat with true by (symmetry; apply Nat.ltb_lt; lia).
    rewrite Hget. cbn [bind]. exists v.
    destruct (p95_position n Hn) as [Hlo Hhi].
    assert (Hv : v = nth (Z.to_nat (p95_index n)) (sorted (d0 :: ds)) 0%Q)
      by (symmetry; now apply nth_error_nth).
    split; [reflexivity|]. split; [|split; [|split]].
    + apply sorted_in. eapply nth_error_In. exact Hnth.
    + rewrite Hv. apply median_le_nth; rewrite Hlen; assumption.
    + rewrite Eds. cbn. lia.
    + intros _. exact Hv.
Qed.


(** Up to twenty items the index int(n * 0.95) is the last one, so the
    reported p95 is the largest duration. *)
Theorem p95_is_max_up_to_twenty :
  forall (A : Type) (duration : A -> Q) (items : list A),
    1 <= List.length items <= 20 ->
    exists r,
      analyze_durations duration items = Ok (Some r)
      /\ (p95 r == max r)%Q.
Proof.
  intros A duration items [Hlo Hhi].
  destruct items as [|x rest]; [cbn in Hlo; lia|].
  destruct (analyze_durations_value duration x rest)
    as [p [Hr [Hin [_ [Hone Hmany]]]]].
  set (d0 := duration x) in *. set (ds := List.map duration rest) in *.
  assert (Hlen : List.length ds = List.length rest)
    by (subst ds; apply length_map).
  eexists. split; [exact Hr|]. cbn [p95 max].
  destruct (min_max_bounds d0 ds p Hin) as [_ Hle].
  apply Qle_antisym; [exact Hle|].
  destruct (Nat.eq_dec (List.length ds) 0) as [Hz|Hnz].
  - rewrite (Hone Hz). destruct ds; [|discriminate]. apply Qle_refl.
  - rewrite (Hmany ltac:(lia)).
    assert (Hidx : Z.to_nat (p95_index (S (List.length ds)))
                   = List.length ds).
    { rewrite p95_index_div. cbn [List.length] in Hhi.
      assert (E : (Z.of_nat (S (List.length ds)) * 95 / 100
                   = Z.of_nat (List.length ds))%Z).
      { symmetry. apply (Z.div_unique _ _ _
                           (Z.of_nat (S (List.length ds)) * 95
                            - 100 * Z.of_nat (List.length ds))); lia. }
      rewrite E. apply Nat2Z.id. }
    rewrite Hidx.
    pose proof (max_of_in ds d0) as Hmax.
    apply sorted_in in Hmax.
    destruct (In_nth _ _ 0%Q Hmax) as [j [Hj Hnth]].
    rewrite sorted_length in Hj. cbn [List.length] in Hj.
    rewrite <- Hnth.
    apply sorted_nth_le; [apply sorted_strongly | lia|].
    rewrite sorted_length. cbn. lia.
Qed.

Lemma p95_is_max_up_to_twenty_witness :
  exists r,
    analyze_durations (fun d : Q => d) [3; 1; 2; 5; 4]%Q = Ok (Some r)
    /\ (p95 r == max r)%Q.
Proof.
  apply (p95_is_max_up_to_twenty Q (fun d => d) [3; 1; 2; 5; 4]%Q).
  cbn. lia.
Defined.

End StatsOrder.

(* ================================================================== *)
(** ** More on the histogram buckets *)

Module HistogramFacts.
Import Py PyFacts AnalyzeTimings StatsAux Float FloatFacts StatsSpec StatsOrder.

Lemma setitem_value {A : Type} (l : list A) (i : Z) (v : A) :
  (0 <= i < Z.of_nat (List.length l))%Z ->
  setitem l i v = Ok (set_nth l (Z.to_nat i) v).
Proof.
  intros [H0 H1]. unfold setitem.
  destruct (i <? 0)%Z eqn:E; [apply Z.ltb_lt in E; lia|].
  replace ((i <? 0)%Z || (Z.of_nat (List.length l) <=? i)%Z) with false;
    [reflexivity|].
  symmetry. apply orb_false_iff. split; [exact E | now apply Z.leb_gt].
Qed.

Lemma set_nth_total (l : list Z) :
  forall (k : nat) (v w : Z),
    nth_error l k = Some v ->
    total_count (set_nth l k w) = (total_count l - v + w)%Z.
Proof.
  induction l as [|a l IH]; intros [|k] v w H; cbn in H; try discriminate.
  - injection H as <-. cbn. lia.
  - cbn [set_nth total_count fold_right]. fold (total_count l).
    fold (total_count (set_nth l k w)). rewrite (IH k v w H). lia.
Qed.

Lemma set_nth_Forall (P : Z -> Prop) (l : list Z) :
  forall (k : nat) (w : Z),
    Forall P l -> P w -> Forall P (set_nth l k w).
Proof.
  induction l as [|a l IH]; intros [|k] w Hl Hw; cbn [set_nth];
    inversion Hl; subst; constructor; auto.
Qed.

(** One increment counts one more value and keeps the counters
    non-negative. *)
Lemma increment_total (buckets : list Z) (idx : Z) :
  (0 <= idx < Z.of_nat (List.length buckets))%Z ->
  exists buckets',
    increment buckets idx = Ok buckets'
    /\ List.length buckets' = List.length buckets
    /\ total_count buckets' = (total_count buckets + 1)%Z
    /\ (Forall (fun c => 0 <= c)%Z buckets ->
        Forall (fun c => 0 <= c)%Z buckets').
Proof.
  intros Hidx. unfold increment.
  destruct (getitem_in_range buckets idx Hidx) as [v [Hget Hnth]].
  rewrite Hget. cbn [bind]. rewrite (setitem_value _ _ _ Hidx).
  eexists. split; [reflexivity|]. split; [apply set_nth_length|]. split.
  - rewrite (set_nth_total _ _ v _ Hnth). lia.
  - intros Hall. apply set_nth_Forall; [exact Hall|].
    apply nth_error_In in Hnth. rewrite Forall_forall in Hall.
    specialize (Hall v Hnth). lia.
Qed.

Lemma total_count_zeros (k : nat) : total_count (repeat 0%Z k) = 0%Z.
Proof. induction k as [|k IH]; cbn; [reflexivity | exact IH]. Qed.

Section Counting.

Variables (min_val max_val : Q) (bins : Z).
Hypothesis Hhigh : (max_val - min_val <= 2 ^ 1023)%Q.
Hypothesis Hbins : (1 <= bins < 2 ^ 53)%Z.
Variables span divisor bin_width : Q.
Hypothesis Hspan : Float.sub max_val min_val = Finite span.
Hypothesis Hspan1 : (2 ^ (-969) <= span)%Q.
Hypothesis Hdivisor : (divisor == inject_Z bins)%Q.
Hypothesis Hnormal : (2 ^ (-1022) <= span / divisor)%Q.
Hypothesis Hwidth : (bin_width == round_pos (span / divisor))%Q.

Lemma fill_buckets_total (data : list Q) :
  (forall x, In x data -> (min_val <= x)%Q /\ (x <= max_val)%Q) ->
  forall buckets,
    List.length buckets = Z.to_nat bins ->
    exists buckets',
      fill_buckets min_val (Finite bin_width) bins buckets data = Ok buckets'
      /\ List.length buckets' = Z.to_nat bins
      /\ total_count buckets'
         = (total_count buckets + Z.of_nat (List.length data))%Z
      /\ (Forall (fun c => 0 <= c)%Z buckets ->
          Forall (fun c => 0 <= c)%Z buckets').
Proof.
  induction data as [|x data IH]; intros Hdata buckets Hlen;
    cbn [fill_buckets].
  - exists buckets. cbn. repeat split; auto. lia.
  - destruct (Hdata x (or_introl eq_refl)) as [Hx1 Hx2].
    destruct (bucket_index_spec min_val max_val bins Hhigh Hbins
                span divisor bin_width Hspan Hspan1 Hdivisor Hnormal Hwidth
                x Hx1 Hx2)
      as [offset [q [_ [_ [_ [_ [_ [Hidx Hbound]]]]]]]].
    rewrite Hidx. cbn [bind].
    destruct (increment_total buckets (Z.min (Qfloor q) (bins - 1)))
      as [b1 [Hinc [Hlen1 [Htot1 Hpos1]]]]; [rewrite Hlen; lia|].
    rewrite Hinc. cbn [bind].
    destruct (IH (fun y Hy => Hdata y (or_intror Hy)) b1 ltac:(congruence))
      as [b2 [Hfill [Hlen2 [Htot2 Hpos2]]]].
    exists b2. split; [exact Hfill|]. split; [exact Hlen2|]. split.
    + rewrite Htot2, Htot1. cbn [List.length]. lia.
    + intros Hall. auto.
Qed.

End Counting.

(** Every value of the data is counted in exactly one bucket: the filled
    buckets are non-negative counters that add up to the number of
    values.  The values span between 2^-969 and 2^1023 and the bucket
    count is from 1 to 2^53 - 1, so that the float operations stay in the
    normal range. *)
Theorem histogram_counts_every_value :
  forall (x0 : Q) (rest : list Q) (bins : Z),
    (2 ^ (-969) <= max_of x0 rest - min_of x0 rest)%Q ->
    (max_of x0 rest - min_of x0 rest <= 2 ^ 1023)%Q ->
    (1 <= bins < 2 ^ 53)%Z ->
    exists buckets,
      histogram_buckets (x0 :: rest) bins = Ok (Some buckets)
      /\ total_count buckets = Z.of_nat (List.length (x0 :: rest))
      /\ Forall (fun c => 0 <= c)%Z buckets.
Proof.
  intros x0 rest bins Hlow Hhigh Hbins.
  set (min_val := min_of x0 rest) in *. set (max_val := max_of x0 rest) in *.
  destruct (bin_width_exists min_val max_val bins Hlow Hhigh Hbins)
    as [span [b [bw [Hspan [Hb [Hbw [Hs1 [Hs2 [Eb [Hn Ew]]]]]]]]]].
  assert (Hdata : forall y, In y (x0 :: rest) ->
                            (min_val <= y)%Q /\ (y <= max_val)%Q)
    by (intros y Hy; apply (min_max_bounds x0 rest y Hy)).
  destruct (fill_buckets_total min_val max_val bins Hhigh Hbins
              span b bw Hspan Hs1 Eb Hn Ew (x0 :: rest) Hdata
              (repeat 0%Z (Z.to_nat bins)) (repeat_length _ _))
    as [buckets [Hfill [_ [Htot Hpos]]]].
  exists buckets. split; [|split].
  - rewrite (histogram_unfold min_val max_val bins Hlow x0 rest span b bw
               eq_refl eq_refl Hspan Hb Hbw).
    rewrite Hfill. reflexivity.
  - rewrite Htot.
    rewrite total_count_zeros. lia.
  - apply Hpos. apply Forall_forall. intros c Hc.
    apply repeat_spec in Hc. lia.
Qed.

Lemma histogram_counts_every_value_witness :
  exists buckets,
    histogram_buckets [1; 2; 3; 4; 2.5; 1.1]%Q 3 = Ok (Some buckets)
    /\ total_count buckets = 6%Z
    /\ Forall (fun c => 0 <= c)%Z buckets.
Proof.
  apply (histogram_counts_every_value 1 [2; 3; 4; 2.5; 1.1]%Q 3).
  - apply Qle_bool_iff. vm_compute. reflexivity.
  - apply Qle_bool_iff. vm_compute. reflexivity.
  - lia.
Defined.

(** A larger value never lands in a lower bucket, and the smallest value
    lands in bucket 0, for values that span between 2^-969 and 2^1023
    and a bucket count from 1 to 2^53 - 1. *)
Theorem histogram_buckets_follow_order :
  forall (x0 : Q) (rest : list Q) (bins : Z) (x y : Q),
    let min_val := min_of x0 rest in
    let max_val := max_of x0 rest in
    (2 ^ (-969) <= max_val - min_val)%Q ->
    (max_val - min_val <= 2 ^ 1023)%Q ->
    (1 <= bins < 2 ^ 53)%Z ->
    In x (x0 :: rest) ->
    In y (x0 :: rest) ->
    (x <= y)%Q ->
    exists divisor bin_width ix iy,
      Float.of_int bins = Ok (Finite divisor)
      /\ Float.div (Float.sub max_val min_val) (Finite divisor)
         = Ok (Finite bin_width)
      /\ bucket_index min_val (Finite bin_width) bins x = Ok ix
      /\ bucket_index min_val (Finite bin_width) bins y = Ok iy
      /\ (ix <= iy)%Z
      /\ bucket_index min_val (Finite bin_width) bins min_val = Ok 0%Z.
Proof.
  intros x0 rest bins x y min_val max_val Hlow Hhigh Hbins Hinx Hiny Hxy.
  destruct (bin_width_exists min_val max_val bins Hlow Hhigh Hbins)
    as [span [b [bw [Hspan [Hb [Hbw [Hs1 [Hs2 [Eb [Hn Ew]]]]]]]]]].
  destruct (min_max_bounds x0 rest x Hinx) as [Hx1 Hx2].
  destruct (min_max_bounds x0 rest y Hiny) as [Hy1 Hy2].
  destruct (bucket_index_spec min_val max_val bins Hhigh Hbins
              span b bw Hspan Hs1 Eb Hn Ew x Hx1 Hx2)
    as [ox [qx [Hox [Hqx [_ [_ [_ [Ex _]]]]]]]].
  destruct (bucket_index_spec min_val max_val bins Hhigh Hbins
              span b bw Hspan Hs1 Eb Hn Ew y Hy1 Hy2)
    as [oy [qy [Hoy [Hqy [_ [_ [_ [Ey _]]]]]]]].
  exists b, bw, (Z.min (Qfloor qx) (bins - 1)), (Z.min (Qfloor qy) (bins - 1)).
  split; [exact Hb|]. split; [now rewrite Hspan|].
  split; [exact Ex|]. split; [exact Ey|]. split.
  - pose proof (quotient_mono min_val span b bw Hn Ew x y ox oy qx qy
                  Hx1 Hxy Hox Hoy Hqx Hqy) as Hq.
    apply Qfloor_resp_le in Hq. lia.
  - apply (bucket_of_min min_val bins Hbins span b bw Hn Ew).
Qed.

Lemma histogram_buckets_follow_order_witness :
  exists w ix iy,
    Float.div (Float.sub 1 0) (Finite 20) = Ok (Finite w)
    /\ bucket_index 0 (Finite w) 20 (15 # 100) = Ok ix
    /\ bucket_index 0 (Finite w) 20 (3 # 10) = Ok iy
    /\ (ix <= iy)%Z.
Proof.
  destruct (histogram_buckets_follow_order 0 [15 # 100; 3 # 10; 1]%Q 20
              (15 # 100) (3 # 10))
    as [b [w [ix [iy [Hb [Hw [Hx [Hy [Hle _]]]]]]]]].
  - apply Qle_bool_iff. vm_compute. reflexivity.
  - apply Qle_bool_iff. vm_compute. reflexivity.
  - lia.
  - cbn. auto.
  - cbn. auto.
  - apply Qle_bool_iff. vm_compute. reflexivity.
  - injection Hb as <-. exists w, ix, iy. auto.
Defined.

(** *** Degenerate inputs *)

Lemma getitem_nil {A : Type} (i : Z) : getitem (@nil A) i = Raise IndexError.
Proof.
  unfold getitem. cbn [List.length]. change (Z.of_nat 0) with 0%Z.
  destruct (i <? 0)%Z eqn:E.
  - replace (i + 0 <? 0)%Z with true; [reflexivity|].
    symmetry. apply Z.ltb_lt. apply Z.ltb_lt in E. lia.
  - rewrite E. cbn [orb].
    replace (0 <=? i)%Z with true; [reflexivity|].
    symmetry. apply Z.leb_le. apply Z.ltb_ge in E. exact E.
Qed.

(** No histogram is built, and nothing is raised whatever the bucket
    count, when the list is empty or all its values are equal. *)
Theorem degenerate_histogram_is_noop :
  forall (x0 : Q) (rest : list Q) (bins : Z),
    (forall y, In y rest -> (y == x0)%Q) ->
    histogram_buckets (x0 :: rest) bins = Ok None
    /\ histogram_buckets [] bins = Ok None.
Proof.
  intros x0 rest bins Hall. split; [|reflexivity].
  unfold histogram_buckets.
  assert (Hmin : (min_of x0 rest == x0)%Q).
  { destruct (min_of_in rest x0) as [<- | H]; [reflexivity | now apply Hall]. }
  assert (Hmax : (max_of x0 rest == x0)%Q).
  { destruct (max_of_in rest x0) as [<- | H]; [reflexivity | now apply Hall]. }
  rewrite (Qeq_eq_bool (min_of x0 rest) (max_of x0 rest));
    [reflexivity|].
  now rewrite Hmin, Hmax.
Qed.

Lemma degenerate_histogram_is_noop_witness :
  histogram_buckets [2; 2; 4 # 2]%Q 0 = Ok None.
Proof.
  apply (degenerate_histogram_is_noop 2 [2; 4 # 2]%Q 0).
  intros y [<- | [<- | []]]; reflexivity.
Defined.

(** On values that are not all equal, a bucket count of zero raises
    ZeroDivisionError.  A negative one, above -2^53, raises IndexError
    when the values span between 2^-969 and 2^1023, so that the float
    operations stay in the normal range. *)
Theorem histogram_rejects_nonpositive_bins :
  forall (x0 : Q) (rest : list Q) (bins : Z),
    (min_of x0 rest < max_of x0 rest)%Q ->
    (bins <= 0)%Z ->
    ((bins < 0)%Z ->
     (2 ^ (-969) <= max_of x0 rest - min_of x0 rest)%Q
     /\ (max_of x0 rest - min_of x0 rest <= 2 ^ 1023)%Q
     /\ (- 2 ^ 53 < bins)%Z) ->
    histogram_buckets (x0 :: rest) bins
    = Raise (if (bins =? 0)%Z then ZeroDivisionError else IndexError).
Proof.
  intros x0 rest bins Hrange Hbins Hneg.
  set (min_val := min_of x0 rest) in *. set (max_val := max_of x0 rest) in *.
  destruct (bins =? 0)%Z eqn:Ez.
  - apply Z.eqb_eq in Ez. subst bins. unfold histogram_buckets.
    fold min_val max_val.
    destruct (Qeq_bool min_val max_val) eqn:E;
      [apply Qeq_bool_iff in E; now apply Qlt_not_eq in Hrange|].
    change (Float.of_int 0) with (Ok (Finite 0)). cbn [bind].
    rewrite div_by_zero by reflexivity. reflexivity.
  - apply Z.eqb_neq in Ez.
    destruct (Hneg ltac:(lia)) as [Hlow [Hhigh Hb]].
    assert (Hpos : (1 <= - bins < 2 ^ 53)%Z) by lia.
    destruct (bin_width_exists min_val max_val (- bins) Hlow Hhigh Hpos)
      as [span [r' [w' [Hspan [_ [_ [Hs1 [Hs2 [Er' [Hn _]]]]]]]]]].
    destruct (nearest_Z_neg bins ltac:(lia)) as [r [Hr Er]].
    assert (Hof : Float.of_int bins = Ok (Finite (- r)%Q))
      by (unfold Float.of_int; now rewrite Hr).
    assert (Err' : (r == r')%Q) by (now rewrite Er, Er').
    assert (Hr1 : (1 <= r)%Q).
    { rewrite Er. change 1%Q with (inject_Z 1). rewrite <- Zle_Qle. lia. }
    assert (Hrn : ~ (- r == 0)%Q) by (intros E; lra).
    assert (Hs0 : (0 < span)%Q)
      by (eapply Qlt_le_trans; [apply (pow2_pos (-969)) | exact Hs1]).
    assert (Ea : (- (span / - r) == span / r')%Q).
    { rewrite <- Err'. field. intros E. lra. }
    assert (Hq0 : (0 < span / r')%Q)
      by (eapply Qlt_le_trans; [apply (pow2_pos (-1022)) | exact Hn]).
    assert (Hq2 : (span / r' <= 2 ^ 1023)%Q).
    { apply Qle_shift_div_r; [rewrite <- Err'; lra|].
      assert (P : (0 <= 2 ^ 1023 * (r' - 1))%Q).
      { apply Qmult_le_0_compat; [apply Qlt_le_weak, pow2_pos|].
        rewrite <- Err'. lra. }
      set (K := (2 ^ 1023)%Q) in *. clearbody K. lra. }
    assert (Ha : (span / - r < 0)%Q) by lra.
    assert (Hw : Float.nearest (span / - r)
                 = Finite (- round_pos (- (span / - r)))%Q).
    { apply (nearest_neg_finite _ 1023); [exact Ha | | lia].
      now rewrite Ea. }
    set (w := round_pos (- (span / - r))) in *.
    assert (Ew : (w == round_pos (span / r'))%Q).
    { apply round_pos_comp; [lra | exact Ea]. }
    pose proof (bin_width_pos span r' w Hn Ew) as Hw0.
    assert (Hwn : ~ (- w == 0)%Q) by (intros E; lra).
    assert (Hdiv : Float.div (Finite span) (Finite (- r)%Q)
                   = Ok (Finite (- w)%Q))
      by (now rewrite (div_finite _ _ Hrn), Hw).
    rewrite (histogram_unfold min_val max_val bins Hlow x0 rest span
               (- r)%Q (- w)%Q eq_refl eq_refl Hspan Hof Hdiv).
    replace (Z.to_nat bins) with 0%nat by lia.
    cbn [repeat fill_buckets]. unfold bucket_index.
    destruct (min_max_bounds x0 rest x0 (or_introl eq_refl)) as [Hx1 Hx2].
    fold min_val in Hx1. fold max_val in Hx2.
    assert (Hd0 : (0 <= x0 - min_val)%Q) by lra.
    assert (Hd1 : (x0 - min_val <= max_val - min_val)%Q) by lra.
    destruct (nearest_nonneg _ 1023%Z Hd0 (Qle_trans _ _ _ Hd1 Hhigh)
                ltac:(lia)) as [o [Ho [Ho0 _]]].
    assert (Ho1 : (o <= span)%Q)
      by (apply (nearest_nonneg_mono _ _ _ _ Hd0 Hd1 Ho Hspan)).
    unfold Float.sub. rewrite Ho, (div_finite _ _ Hwn).
    destruct (span_over_width (- bins) Hpos span r' w Hs1 Er' Hn Ew)
      as [_ Hsw].
    assert (Ec : (- (o / - w) == o / w)%Q) by (field; intros E; lra).
    assert (Hc0 : (0 <= o / w)%Q).
    { apply Qle_shift_div_l; [exact Hw0 | now rewrite Qmult_0_l]. }
    assert (Hc1 : (o / w <= 2 ^ 54)%Q).
    { eapply Qle_trans; [|exact Hsw]. unfold Qdiv.
      apply Qmult_le_compat_r; [exact Ho1|].
      apply Qlt_le_weak, Qinv_lt_0_compat, Hw0. }
    destruct (nearest_nonpos_finite (o / - w) 54) as [t Ht];
      [lra | now rewrite Ec | lia|].
    rewrite Ht. cbn [bind Float.to_int]. unfold increment.
    rewrite getitem_nil. reflexivity.
Qed.

Lemma histogram_rejects_nonpositive_bins_witness :
  histogram_buckets [1; 2]%Q 0 = Raise ZeroDivisionError
  /\ histogram_buckets [1; 2]%Q (-2) = Raise IndexError.
Proof.
  split.
  - apply (histogram_rejects_nonpositive_bins 1 [2]%Q 0);
      [vm_compute; reflexivity | lia | lia].
  - apply (histogram_rejects_nonpositive_bins 1 [2]%Q (-2));
      [vm_compute; reflexivity | lia |].
    intros _. split; [|split].
    + apply Qle_bool_iff. vm_compute. reflexivity.
    + apply Qle_bool_iff. vm_compute. reflexivity.
    + lia.
Defined.

(** Below the normal range the bin width rounds to zero, and the error
    is the division by zero, for a positive and for a negative bucket
    count alike. *)
Lemma histogram_of_tiny_span :
  histogram_buckets [0; 2 ^ (-1074)]%Q 20 = Raise ZeroDivisionError
  /\ histogram_buckets [0; 2 ^ (-1074)]%Q (-2) = Raise ZeroDivisionError.
Proof. split; vm_compute; reflexivity. Qed.

End HistogramFacts.

(* ================================================================== *)
(** ** The rankings and the step types of the report *)

Module ReportSpec.
Import Py PyFacts AnalyzeTimings TimingsReport.

(** *** Sorting with the largest key first *)

Section Ranking.

Context {A : Type}.
Variable key : A -> Q.

Let before (a b : A) : Prop := (key b <= key a)%Q.

Lemma insert_desc_perm (x : A) (l : list A) :
  Permutation (insert_desc key x l) (x :: l).
Proof.
  induction l as [|y l IH]; cbn [insert_desc]; [reflexivity|].
  destruct (Qlt_le_dec (key x) (key y)); [|reflexivity].
  rewrite IH. apply perm_swap.
Qed.

Lemma sorted_desc_perm (l : list A) : Permutation (sorted_desc key l) l.
Proof.
  induction l as [|x l IH]; cbn [sorted_desc fold_right]; [constructor|].
  fold (sorted_desc key l). rewrite insert_desc_perm. now constructor.
Qed.

Lemma insert_desc_ordered (x : A) (l : list A) :
  Sorted before l -> Sorted before (insert_desc key x l).
Proof.
  induction l as [|y l IH]; intros Hs; cbn [insert_desc].
  - repeat constructor.
  - destruct (Qlt_le_dec (key x) (key y)) as [Hlt|Hle].
    + inversion Hs as [|? ? Hs' Hhd]; subst.
      constructor; [now apply IH|].
      destruct l as [|z l]; cbn [insert_desc].
      * constructor. unfold before. now apply Qlt_le_weak.
      * destruct (Qlt_le_dec (key x) (key z)); constructor.
        -- inversion Hhd; subst. assumption.
        -- unfold before. now apply Qlt_le_weak.
    + constructor; [exact Hs|]. constructor. exact Hle.
Qed.

Lemma sorted_desc_ordered (l : list A) :
  StronglySorted before (sorted_desc key l).
Proof.
  apply Sorted_StronglySorted.
  - intros a b c Hab Hbc. unfold before in *.
    eapply Qle_trans; eassumption.
  - induction l as [|x l IH]; cbn [sorted_desc fold_right]; [constructor|].
    now apply insert_desc_ordered.
Qed.

(** In a list sorted that way, whatever is cut off after the first [n]
    items has a key no larger than any of those. *)
Lemma head_dominates_tail (s : list A) :
  StronglySorted before s ->
  forall n x y, In x (firstn n s) -> In y (skipn n s) -> before x y.
Proof.
  induction 1 as [|a s Hs IH Hall]; intros n x y Hx Hy.
  - destruct n; contradiction.
  - destruct n as [|n]; [contradiction|].
    cbn [firstn skipn] in Hx, Hy. destruct Hx as [<- | Hx].
    + rewrite Forall_forall in Hall. apply Hall.
      rewrite <- (firstn_skipn n s). apply in_or_app. now right.
    + exact (IH n x y Hx Hy).
Qed.

Lemma firstn_strongly_sorted (s : list A) :
  StronglySorted before s -> forall n, StronglySorted before (firstn n s).
Proof.
  induction 1 as [|a s Hs IH Hall]; intros [|n]; cbn [firstn];
    constructor; [apply IH|].
  rewrite Forall_forall in *. intros z Hz. apply Hall.
  rewrite <- (firstn_skipn n s). apply in_or_app. now left.
Qed.

(** A "slowest [n]" table lists min(n, count) of the items, largest key
    first, and every item it leaves out has a key no larger than every
    item it lists. *)
Theorem slowest_lists_the_largest :
  forall (n : nat) (items : list A),
    let top := slowest key n items in
    List.length top = Nat.min n (List.length items)
    /\ StronglySorted (fun a b => (key b <= key a)%Q) top
    /\ exists others,
         Permutation (top ++ others) items
         /\ forall x y, In x top -> In y others -> (key y <= key x)%Q.
Proof.
  intros n items top. subst top. unfold slowest.
  pose proof (sorted_desc_ordered items) as Hs.
  split; [|split].
  - rewrite length_firstn.
    now rewrite (Permutation_length (sorted_desc_perm items)).
  - now apply firstn_strongly_sorted.
  - exists (skipn n (sorted_desc key items)). split.
    + rewrite firstn_skipn. apply sorted_desc_perm.
    + intros x y Hx Hy. exact (head_dominates_tail _ Hs n x y Hx Hy).
Qed.

Lemma slowest_subset (n : nat) (items : list A) (x : A) :
  In x (slowest key n items) -> In x items.
Proof.
  intros H. unfold slowest in H.
  apply (Permutation_in _ (sorted_desc_perm items)).
  rewrite <- (firstn_skipn n (sorted_desc key items)).
  apply in_or_app. now left.
Qed.

Lemma slowest_length (n : nat) (items : list A) :
  List.length (slowest key n items) <= n.
Proof. unfold slowest. rewrite length_firstn. lia. Qed.

End Ranking.

(** *** Grouping the steps by name *)

Lemma lookup_group_add (name name' : string) (d : Q)
  (groups : list (string * (Q * list Q))) :
  lookup name' (group_add name d groups)
  = if String.eqb name name' then lookup name' groups ++ [d]
    else lookup name' groups.
Proof.
  induction groups as [|[k [d0 ds]] tl IH]; cbn [group_add lookup].
  - destruct (String.eqb name name'); reflexivity.
  - destruct (String.eqb k name) eqn:Ek.
    + apply String.eqb_eq in Ek. subst k. cbn [lookup].
      destruct (String.eqb name name'); reflexivity.
    + cbn [lookup]. destruct (String.eqb k name') eqn:Ek'.
      * apply String.eqb_eq in Ek'. subst k.
        rewrite String.eqb_sym, Ek. reflexivity.
      * exact IH.
Qed.

Lemma keys_group_add (name : string) (d : Q)
  (groups : list (string * (Q * list Q))) (k : string) :
  In k (List.map fst (group_add name d groups))
  <-> k = name \/ In k (List.map fst groups).
Proof.
  induction groups as [|[k0 [d0 ds]] tl IH]; cbn [group_add List.map fst In].
  - intuition.
  - destruct (String.eqb k0 name) eqn:E; cbn [List.map fst In].
    + apply String.eqb_eq in E. subst k0. intuition.
    + rewrite IH. intuition.
Qed.

Lemma group_add_nodup (name : string) (d : Q)
  (groups : list (string * (Q * list Q))) :
  NoDup (List.map fst groups) ->
  NoDup (List.map fst (group_add name d groups)).
Proof.
  induction groups as [|[k0 [d0 ds]] tl IH]; cbn [group_add List.map fst];
    intros Hnd.
  - repeat constructor. intros [].
  - destruct (String.eqb k0 name) eqn:E; cbn [List.map fst]; [exact Hnd|].
    inversion Hnd as [|? ? Hnotin Hnd']; subst.
    constructor; [|now apply IH].
    rewrite keys_group_add. intros [-> | Hin]; [|contradiction].
    rewrite String.eqb_refl in E. discriminate.
Qed.

(** The number of durations held by the groups. *)
Lemma group_add_size (name : string) (d : Q)
  (groups : list (string * (Q * list Q))) :
  list_sum (List.map a_count (List.map aggregate (group_add name d groups)))
  = S (list_sum (List.map a_count (List.map aggregate groups))).
Proof.
  induction groups as [|[k0 [d0 ds]] tl IH]; cbn [group_add]; [reflexivity|].
  destruct (String.eqb k0 name);
    cbn [List.map aggregate a_count list_sum fold_right List.length].
  - rewrite length_app. cbn [List.length]. lia.
  - unfold list_sum in IH. rewrite IH. lia.
Qed.

Lemma durations_of_cons (name : string) (s : Step) (l : list Step) :
  durations_of name (s :: l)
  = (if String.eqb (s_name s) name then [s_duration s] else [])
    ++ durations_of name l.
Proof.
  unfold durations_of. cbn [filter].
  destruct (String.eqb (s_name s) name); reflexivity.
Qed.

(** What the grouping loop builds from any starting dictionary. *)
Lemma grouping_from (l : list Step) :
  forall groups : list (string * (Q * list Q)),
    let result :=
      fold_left (fun g s => group_add (s_name s) (s_duration s) g) l groups in
    (forall name, lookup name result
                  = lookup name groups ++ durations_of name l)
    /\ (NoDup (List.map fst groups) -> NoDup (List.map fst result))
    /\ list_sum (List.map a_count (List.map aggregate result))
       = list_sum (List.map a_count (List.map aggregate groups))
         + List.length l.
Proof.
  induction l as [|s l IH]; intros groups; cbn [fold_left].
  - split; [|split]; auto. intros name. unfold durations_of. cbn.
    now rewrite app_nil_r.
  - destruct (IH (group_add (s_name s) (s_duration s) groups))
      as [H1 [H2 H3]].
    split; [|split].
    + intros name. rewrite H1, lookup_group_add, durations_of_cons.
      destruct (String.eqb (s_name s) name); cbn [app];
        now rewrite <- ?app_assoc.
    + intros Hnd. apply H2. now apply group_add_nodup.
    + rewrite H3, group_add_size. cbn [List.length]. lia.
Qed.

Lemma lookup_of_member (groups : list (string * (Q * list Q)))
  (k : string) (d0 : Q) (ds : list Q) :
  NoDup (List.map fst groups) ->
  In (k, (d0, ds)) groups ->
  lookup k groups = d0 :: ds.
Proof.
  induction groups as [|[k1 [d1 ds1]] tl IH]; intros Hnd Hin;
    [contradiction|].
  cbn [lookup]. inversion Hnd as [|? ? Hnotin Hnd']; subst.
  destruct Hin as [Heq | Hin].
  - injection Heq as -> -> ->. now rewrite String.eqb_refl.
  - destruct (String.eqb k1 k) eqn:E; [|now apply IH].
    apply String.eqb_eq in E. subst k1. exfalso. apply Hnotin.
    change k with (fst (k, (d0, ds))). now apply in_map.
Qed.

Lemma member_of_lookup (groups : list (string * (Q * list Q)))
  (name : string) :
  lookup name groups <> [] ->
  exists d0 ds, In (name, (d0, ds)) groups.
Proof.
  induction groups as [|[k [d0 ds]] tl IH]; cbn [lookup]; intros H;
    [contradiction|].
  destruct (String.eqb k name) eqn:E.
  - apply String.eqb_eq in E. subst k. exists d0, ds. now left.
  - destruct (IH H) as [d1 [ds1 Hin]]. exists d1, ds1. now right.
Qed.

Lemma durations_of_member (s : Step) (steps : list Step) :
  In s steps -> durations_of (s_name s) steps <> [].
Proof.
  induction steps as [|x steps IH]; intros Hin; [contradiction|].
  rewrite durations_of_cons. destruct Hin as [-> | Hin].
  - rewrite String.eqb_refl. discriminate.
  - destruct (String.eqb (s_name x) (s_name s)); [discriminate|].
    now apply IH.
Qed.

(** The aggregate of a step type is computed from the durations of all
    the steps of that name, in log order. *)
Lemma aggregate_of_member (steps : list Step) (a : StepAggregate) :
  In a (step_aggregates steps) ->
  let ds := durations_of (a_name a) steps in
  1 <= a_count a /\ a_count a = List.length ds
  /\ a_total a = sum ds /\ a_avg a = mean ds /\ a_median a = median_of ds.
Proof.
  intros Hin. unfold step_aggregates in Hin.
  apply in_map_iff in Hin. destruct Hin as [[k [d0 ds0]] [<- Hin]].
  destruct (grouping_from steps []) as [Hlook [Hnd _]].
  fold (steps_by_name steps) in Hlook, Hnd.
  pose proof (lookup_of_member _ k d0 ds0 (Hnd (NoDup_nil _)) Hin) as E.
  rewrite Hlook in E. cbn [lookup app] in E.
  cbn [aggregate a_name a_count a_total a_avg a_median].
  rewrite E. cbn [List.length]. repeat split; lia.
Qed.

(** The step types partition the steps: there is one aggregate per
    distinct step name, every step belongs to the aggregate of its name,
    each aggregate counts, sums and averages exactly the steps of its
    name, and the counts add up to the number of steps. *)
Theorem step_types_partition_steps :
  forall steps : list Step,
    let types := step_aggregates steps in
    NoDup (List.map a_name types)
    /\ (forall s, In s steps ->
                  exists a, In a types /\ a_name a = s_name s)
    /\ (forall a, In a types ->
                  let ds := durations_of (a_name a) steps in
                  1 <= a_count a /\ a_count a = List.length ds
                  /\ a_total a = sum ds /\ a_avg a = mean ds
                  /\ a_median a = median_of ds)
    /\ list_sum (List.map a_count types) = List.length steps.
Proof.
  intros steps types. subst types.
  destruct (grouping_from steps []) as [Hlook [Hnd Hsize]].
  fold (steps_by_name steps) in Hlook, Hnd, Hsize.
  split; [|split; [|split]].
  - unfold step_aggregates. rewrite map_map.
    replace (List.map (fun x => a_name (aggregate x)) (steps_by_name steps))
      with (List.map fst (steps_by_name steps)).
    + apply Hnd. constructor.
    + apply map_ext. intros [k [d0 ds]]. reflexivity.
  - intros s Hs.
    destruct (member_of_lookup (steps_by_name steps) (s_name s))
      as [d0 [ds Hin]].
    + rewrite Hlook. cbn [lookup app]. now apply durations_of_member.
    + exists (aggregate (s_name s, (d0, ds))). split; [|reflexivity].
      unfold step_aggregates. now apply in_map.
  - intros a Ha. now apply aggregate_of_member.
  - exact Hsize.
Qed.

(** The table of the slowest step types by average has at most fifteen
    rows, each the aggregate of a step name that occurs at least twice:
    a step that ran once is never listed. *)
Theorem slow_step_types_need_two_runs :
  forall (steps : list Step) (a : StepAggregate),
    In a (slow_step_types steps) ->
    In a (step_aggregates steps)
    /\ 2 <= List.length (durations_of (a_name a) steps)
    /\ List.length (slow_step_types steps) <= 15.
Proof.
  intros steps a Hin. unfold slow_step_types in *.
  pose proof (slowest_length a_avg 15
                (filter (fun s => (1 <? a_count s)%nat)
                   (step_aggregates steps))) as Hlen.
  apply slowest_subset, filter_In in Hin. destruct Hin as [Hin Hcount].
  apply Nat.ltb_lt in Hcount.
  destruct (aggregate_of_member steps a Hin) as [_ [Hc _]].
  split; [exact Hin|]. split; [lia | exact Hlen].
Qed.

Lemma slow_step_types_need_two_runs_witness :
  let steps := [ mkStep "click" 1%Q "Login" (at_second 1);
                 mkStep "type" 5%Q "Login" (at_second 2);
                 mkStep "click" 2%Q "Login" (at_second 7) ] in
  List.map a_name (slow_step_types steps) = ["click"]
  /\ 2 <= List.length (durations_of "click" steps).
Proof.
  intros steps. split; [vm_compute; reflexivity|].
  destruct (slow_step_types_need_two_runs steps
              (aggregate ("click", (1%Q, [2%Q])))) as [_ [H _]].
  - vm_compute. left. reflexivity.
  - exact H.
Defined.

End ReportSpec.

(* ================================================================== *)
(** ** The prompt and the path list of smart-clean.py *)

Module SmartCleanIOSpec.
Import Py Re ReFacts SmartClean SmartCleanSpec SmartCleanIO TimingsAux StripFacts.

(** *** Which paths are high confidence *)

Lemma patterns_are_texts :
  HIGH_CONFIDENCE_PATTERNS = List.map lits high_confidence_texts.
Proof. reflexivity. Qed.

Lemma any_match_contains (p : string) :
  any_match HIGH_CONFIDENCE_PATTERNS p = true
  <-> exists text a t,
        In text high_confidence_texts /\ p = (a ++ text ++ t)%string.
Proof.
  unfold any_match. rewrite patterns_are_texts, existsb_exists. split.
  - intros [pat [Hin Hm]]. apply in_map_iff in Hin.
    destruct Hin as [text [<- Hin]].
    apply (proj1 (occurs_iff text p)) in Hm. destruct Hm as [a [t ->]].
    now exists text, a, t.
  - intros [text [a [t [Hin ->]]]]. exists (lits text).
    split; [now apply in_map|].
    apply (proj2 (occurs_iff text _)). now exists a, t.
Qed.

(** A path is put in the high-confidence bucket exactly when one of the
    nine texts occurs somewhere in it: the patterns have no anchors and
    no wildcards, so "dist/" must appear with its slash and a path that
    merely starts with "build" is never matched. *)
Theorem high_confidence_means_contains :
  forall (paths : list string) (p : string),
    (In p (fst (classify paths)) <->
     In p paths /\
     exists text a t,
       In text high_confidence_texts /\ p = (a ++ text ++ t)%string)
    /\ (In p (snd (classify paths)) <->
        In p paths /\
        forall text a t,
          In text high_confidence_texts -> p <> (a ++ text ++ t)%string).
Proof.
  intros paths p. unfold classify. rewrite classify_with_filter.
  cbn [fst snd]. rewrite !filter_In, negb_true_iff. split.
  - now rewrite any_match_contains.
  - split; intros [Hin H]; (split; [exact Hin|]).
    + intros text a t Htext ->.
      assert (any_match HIGH_CONFIDENCE_PATTERNS (a ++ text ++ t) = true)
        by (apply any_match_contains; eauto).
      congruence.
    + destruct (any_match HIGH_CONFIDENCE_PATTERNS p) eqn:E; [|reflexivity].
      apply any_match_contains in E.
      destruct E as [text [a [t [Htext ->]]]].
      now contradiction (H text a t Htext).
Qed.

(** *** The prompt *)

Lemma lower_char_y (c : ascii) :
  lower_char c = "y"%char -> c = "y"%char \/ c = "Y"%char.
Proof.
  destruct c as [[] [] [] [] [] [] [] []]; vm_compute; intros H;
    try discriminate H; auto.
Qed.

Lemma lower_char_e (c : ascii) :
  lower_char c = "e"%char -> c = "e"%char \/ c = "E"%char.
Proof.
  destruct c as [[] [] [] [] [] [] [] []]; vm_compute; intros H;
    try discriminate H; auto.
Qed.

Lemma lower_char_s (c : ascii) :
  lower_char c = "s"%char -> c = "s"%char \/ c = "S"%char.
Proof.
  destruct c as [[] [] [] [] [] [] [] []]; vm_compute; intros H;
    try discriminate H; auto.
Qed.

Lemma lower_yes (s : string) :
  (String.eqb (lower s) "y" || String.eqb (lower s) "yes") = true
  <-> In s yes_answers.
Proof.
  split.
  - intros H. apply orb_true_iff in H.
    destruct H as [H|H]; apply String.eqb_eq in H.
    + destruct s as [|c [|c' s]]; cbn [lower] in H; try discriminate H.
      injection H as H.
      destruct (lower_char_y c H) as [-> | ->]; cbn; auto.
    + destruct s as [|c1 [|c2 [|c3 [|c4 s]]]]; cbn [lower] in H;
        try discriminate H.
      injection H as H1 H2 H3.
      destruct (lower_char_y c1 H1) as [-> | ->];
        destruct (lower_char_e c2 H2) as [-> | ->];
        destruct (lower_char_s c3 H3) as [-> | ->]; cbn; auto 12.
  - intros H. cbn in H.
    repeat (destruct H as [<- | H]; [vm_compute; reflexivity|]).
    contradiction.
Qed.

(** The prompt answers yes only to "y" or "yes", in any letter case and
    with any surrounding whitespace; every other answer, the empty one
    and the end of input mean no. *)
Theorem ask_accepts_only_yes :
  forall answer : option string,
    ask answer = true
    <-> exists a, answer = Some a /\ In (strip a) yes_answers.
Proof.
  intros [a|]; cbn [ask].
  - rewrite lower_yes. split.
    + intros H. now exists a.
    + intros [a' [[= <-] H]]. exact H.
  - split; [discriminate|]. intros [a [H _]]. discriminate H.
Qed.

(** *** The path list *)

Lemma startswith_inv (p : string) :
  forall s, startswith p s = true -> exists t, s = (p ++ t)%string.
Proof.
  induction p as [|a p IH]; intros s H; cbn [startswith] in H.
  - now exists s.
  - destruct s as [|b s]; [discriminate|].
    apply andb_true_iff in H. destruct H as [Hab Hp].
    apply Ascii.eqb_eq in Hab. subst b.
    destruct (IH s Hp) as [t ->]. now exists t.
Qed.

Lemma startswith_app (p t : string) : startswith p (p ++ t)%string = true.
Proof.
  induction p as [|a p IH]; cbn [startswith String.append]; [reflexivity|].
  now rewrite Ascii.eqb_refl, IH.
Qed.

Lemma occurs_tail (m : string) (c : ascii) (s : string) :
  occurs m (String c s) = false -> occurs m s = false.
Proof.
  intros H. destruct (occurs m s) eqn:E; [|reflexivity].
  apply occurs_iff in E. destruct E as [a [t ->]].
  assert (occurs m (String c (a ++ m ++ t)) = true)
    by (apply occurs_iff; now exists (String c a), t).
  congruence.
Qed.

Lemma occurs_not_start (m s : string) :
  occurs m s = false -> startswith m s = false.
Proof.
  intros H. destruct (startswith m s) eqn:E; [|reflexivity].
  apply startswith_inv in E. destruct E as [t ->].
  assert (occurs m (m ++ t) = true)
    by (apply occurs_iff; now exists ""%string, t).
  congruence.
Qed.

(** A text without the phrase is left as it is. *)
Lemma remove_from_absent (old : string) :
  forall s, occurs old s = false -> remove_from old 0 s = s.
Proof.
  induction s as [|c s IH]; intros H; cbn [remove_from]; [reflexivity|].
  rewrite (occurs_not_start old (String c s) H).
  now rewrite (IH (occurs_tail old c s H)).
Qed.

Lemma remove_from_skip (old : string) (x rest : string) :
  remove_from old (String.length x) (x ++ rest)%string
  = remove_from old 0 rest.
Proof.
  induction x as [|c x IH]; cbn [String.length String.append];
    [reflexivity|].
  cbn [remove_from]. exact IH.
Qed.

(** The phrase in front of a text that does not contain it is removed,
    and nothing else. *)
Lemma remove_all_prefix (c : ascii) (old' p : string) :
  occurs (String c old') p = false ->
  remove_all (String c old') (String c old' ++ p)%string = p.
Proof.
  intros H. unfold remove_all. cbn [String.append remove_from].
  change (String c (old' ++ p)) with (String c old' ++ p)%string.
  rewrite startswith_app.
  replace (String.length (String c old') - 1) with (String.length old')
    by (cbn [String.length]; lia).
  rewrite remove_from_skip. now apply remove_from_absent.
Qed.

Lemma split_lines_single (s : string) :
  no_newline s = true -> split_lines s = [s].
Proof.
  induction s as [|c s IH]; cbn [no_newline split_lines]; [reflexivity|].
  intros H. apply andb_true_iff in H. destruct H as [Hc Hs].
  apply negb_true_iff in Hc. now rewrite Hc, (IH Hs).
Qed.

Lemma split_lines_first (l rest : string) :
  no_newline l = true ->
  split_lines (l ++ String "010"%char rest)%string = l :: split_lines rest.
Proof.
  induction l as [|c l IH]; cbn [no_newline String.append split_lines].
  - reflexivity.
  - intros H. apply andb_true_iff in H. destruct H as [Hc Hl].
    apply negb_true_iff in Hc. now rewrite Hc, (IH Hl).
Qed.

Lemma no_newline_app (a b : string) :
  no_newline a = true -> no_newline b = true ->
  no_newline (a ++ b)%string = true.
Proof.
  induction a as [|c a IH]; cbn [no_newline String.append]; [auto|].
  intros H Hb. apply andb_true_iff in H. destruct H as [Hc Ha].
  now rewrite Hc, (IH Ha Hb).
Qed.

Lemma rstrip_app_keep (a b : string) :
  rstrip b <> ""%string -> rstrip (a ++ b)%string = (a ++ rstrip b)%string.
Proof.
  intros Hb. induction a as [|c a IH]; cbn [String.append rstrip];
    [reflexivity|].
  rewrite IH. destruct (a ++ rstrip b)%string eqn:E; [|reflexivity].
  destruct a; cbn in E; [contradiction | discriminate].
Qed.

Lemma plain_path_rstrip (p : string) : strip p = p -> rstrip p = p.
Proof.
  intros H. rewrite <- H at 1. unfold strip.
  rewrite rstrip_idempotent. exact H.
Qed.

Lemma plain_path_lstrip (p : string) : strip p = p -> lstrip p = p.
Proof.
  intros H. rewrite <- H. unfold strip.
  apply lstrip_fixed, rstrip_head, lstrip_head.
Qed.

Lemma dry_run_output_joined (p : string) (rest : list string) :
  dry_run_output (p :: rest)
  = (joined_lines p rest ++ String "010"%char "")%string.
Proof.
  revert p. induction rest as [|q rest IH]; intros p.
  - cbn [dry_run_output joined_lines]. now rewrite !append_assoc.
  - change (dry_run_output (p :: q :: rest))
      with ("Would remove " ++ p
            ++ String "010"%char (dry_run_output (q :: rest)))%string.
    rewrite (IH q). cbn [joined_lines].
    rewrite !append_assoc. reflexivity.
Qed.

Lemma joined_lines_rstrip (rest : list string) :
  forall p,
    Forall plain_path (p :: rest) ->
    rstrip (joined_lines p rest) = joined_lines p rest.
Proof.
  induction rest as [|q rest IH]; intros p Hall; cbn [joined_lines];
    inversion Hall as [|? ? [Hne [Hstrip _]] Hrest]; subst.
  - rewrite rstrip_app_keep; rewrite (plain_path_rstrip p Hstrip);
      [reflexivity | exact Hne].
  - change ("Would remove " ++ p ++ String "010"%char (joined_lines q rest))%string
      with ("Would remove " ++ p ++ String "010"%char "" ++ joined_lines q rest)%string.
    rewrite <- !append_assoc.
    rewrite rstrip_app_keep; rewrite (IH q Hrest); [reflexivity|].
    destruct rest; cbn [joined_lines]; discriminate.
Qed.

Lemma joined_lines_strip (p : string) (rest : list string) :
  Forall plain_path (p :: rest) ->
  strip (joined_lines p rest) = joined_lines p rest.
Proof.
  intros Hall. unfold strip.
  replace (lstrip (joined_lines p rest)) with (joined_lines p rest).
  - now apply joined_lines_rstrip.
  - destruct rest; reflexivity.
Qed.

Lemma joined_lines_split (rest : list string) :
  forall p,
    Forall plain_path (p :: rest) ->
    split_lines (joined_lines p rest)
    = List.map (fun q => ("Would remove " ++ q)%string) (p :: rest).
Proof.
  induction rest as [|q rest IH]; intros p Hall; cbn [joined_lines];
    inversion Hall as [|? ? [_ [_ [Hnl _]]] Hrest]; subst.
  - apply split_lines_single. now apply no_newline_app.
  - rewrite <- append_assoc.
    rewrite split_lines_first by (now apply no_newline_app).
    now rewrite (IH q Hrest).
Qed.

(** The path list inverts the format of the dry run: from the output
    that lists paths, each not empty, on one line, without whitespace at
    its ends and without the phrase "Would remove " inside, [main]
    recovers exactly those paths, in order; from an empty output it
    takes the early return. *)
Theorem parse_paths_inverts_dry_run :
  forall (p : string) (rest : list string),
    Forall plain_path (p :: rest) ->
    parse_paths (dry_run_output (p :: rest)) = Some (p :: rest)
    /\ parse_paths (dry_run_output []) = None.
Proof.
  intros p rest Hall. split; [|reflexivity].
  unfold parse_paths.
  rewrite dry_run_output_joined, strip_app_space by reflexivity.
  rewrite (joined_lines_strip p rest Hall).
  replace (nonempty (joined_lines p rest)) with true
    by (destruct rest; reflexivity).
  rewrite (joined_lines_split rest p Hall), map_map. f_equal.
  induction Hall as [|q l [Hne [Hstrip [_ Hocc]]] Hl IH]; [reflexivity|].
  cbn [List.map filter].
  rewrite (remove_all_prefix "W" "ould remove " q Hocc), Hstrip.
  destruct q; [contradiction|]. cbn [nonempty]. now rewrite IH.
Qed.

Lemma parse_paths_inverts_dry_run_witness :
  parse_paths
    (dry_run_output ["node_modules/"; "apps/web/dist/"; "notes draft.txt"])
  = Some ["node_modules/"; "apps/web/dist/"; "notes draft.txt"].
Proof.
  apply (parse_paths_inverts_dry_run "node_modules/"
           ["apps/web/dist/"; "notes draft.txt"]).
  repeat constructor; try discriminate; vm_compute; reflexivity.
Defined.

(** Every path that [main] collects is not empty and has no whitespace
    at either end, and paths are collected only when the output is not
    blank. *)
Theorem parsed_paths_are_trimmed :
  forall (stdout : string) (paths : list string) (p : string),
    parse_paths stdout = Some paths ->
    In p paths ->
    p <> ""%string /\ strip p = p /\ strip stdout <> ""%string.
Proof.
  intros stdout paths p H Hin. unfold parse_paths in H.
  destruct (nonempty (strip stdout)) eqn:E; [|discriminate].
  injection H as <-. apply filter_In in Hin. destruct Hin as [Hin Hne].
  apply in_map_iff in Hin. destruct Hin as [line [<- _]].
  split; [|split].
  - intros H0. rewrite H0 in Hne. discriminate.
  - apply strip_idempotent.
  - intros H0. rewrite H0 in E. discriminate.
Qed.

Lemma parsed_paths_are_trimmed_witness :
  "dist/"%string <> ""%string /\ strip "dist/" = "dist/"%string.
Proof.
  destruct (parsed_paths_are_trimmed
              (String "010"%char "Would remove   dist/  ") ["dist/"] "dist/")
    as [H1 [H2 _]].
  - vm_compute. reflexivity.
  - now left.
  - split; assumption.
Defined.

End SmartCleanIOSpec.
